(** * PaGraph: the distributed GCN training driver [examples/pytorch/pagcn_nssc.py]

    A shallow embedding of the driver script.  The script is sequencing glue
    around PyTorch, DGL, NumPy and the PaGraph data helpers, so the embedding
    has two layers:

    - the array code the script runs itself (the construction of the label
      vector and the label lookup of a mini-batch) is modelled as pure
      functions over [list Z], with NumPy's and PyTorch's index semantics
      (negative indices wrap once, anything else raises [IndexError]) and
      NumPy's 64-bit arithmetic (the array size wraps around, the values
      stored in the label vector are cast to [int64]);
    - every call into an external library is an [event] appended to the
      trace of the worker; whether the call raises is decided by the [World]
      the worker runs in.  The control flow around the calls (loops, guards,
      counters, the lists of durations) is the script's own and is modelled
      as written, in a state-and-exception monad. *)

From Stdlib Require Import ZArith List String Ascii Floats.
From stdpp Require Import base numbers list strings pretty gmap.

Local Open Scope Z_scope.

(** ** Exceptions and results *)

Inductive exn : Type :=
| TypeError
| ValueError
| IndexError
| FileExistsError
| FileNotFoundError
| NotADirectoryError
| ExternalError (code : nat).

Inductive result (A : Type) : Type :=
| Ok (a : A)
| Raise (e : exn).
Arguments Ok {A} a.
Arguments Raise {A} e.

#[global] Instance result_ret : MRet result := λ A a, Ok a.
#[global] Instance result_bind : MBind result := λ A B f r,
  match r with
  | Ok a => f a
  | Raise e => Raise e
  end.

(** ** NumPy and PyTorch index semantics on one-dimensional integer arrays *)

Module Numpy.

(** The values of NumPy's [int64] (the [np.int] of the script), and the
    cast of an integer to it: arithmetic on [int64] scalars and the
    assignment into an [int64] array wrap around modulo [2^64]. *)
Definition is_int64 (z : Z) : Prop := - 2 ^ 63 ≤ z < 2 ^ 63.

#[global] Instance is_int64_dec (z : Z) : Decision (is_int64 z).
Proof. unfold is_int64. apply _. Defined.

Definition wrap64 (z : Z) : Z := (z + 2 ^ 63) `mod` 2 ^ 64 - 2 ^ 63.

(** [np.max(a)]: the largest element; [ValueError] on an empty array. *)
Definition np_max (a : list Z) : result Z :=
  match a with
  | [] => Raise ValueError
  | x :: xs => Ok (foldr Z.max x xs)
  end.

(** [np.zeros(n, dtype=np.int)]: [ValueError] on a negative dimension, and
    on one whose elements of eight bytes each take more bytes than the
    largest [int64] counts ([2^60] elements and more). *)
Definition np_zeros (n : Z) : result (list Z) :=
  if decide (n < 0 ∨ 2 ^ 60 ≤ n) then Raise ValueError
  else Ok (replicate (Z.to_nat n) 0).

(** An index [i] into an axis of size [n]: [0 <= i < n] is itself,
    [-n <= i < 0] counts from the end, anything else is out of bounds. *)
Definition norm_index (n : nat) (i : Z) : option nat :=
  if decide (0 ≤ i < Z.of_nat n) then Some (Z.to_nat i)
  else if decide (- Z.of_nat n ≤ i < 0) then Some (Z.to_nat (Z.of_nat n + i))
  else None.

(** Broadcasting of the assigned values to the shape of the index array:
    equal lengths are taken as they are, a single value is repeated, any
    other shape is a [ValueError]. *)
Definition broadcast_to (k : nat) (vals : list Z) : result (list Z) :=
  if decide (length vals = k) then Ok vals
  else match vals with
       | [v] => Ok (replicate k v)
       | _ => Raise ValueError
       end.

(** The assignments of [a[idx] = vals], in index order: a repeated index
    keeps the last value assigned to it. *)
Fixpoint assign_all (a : list Z) (idx : list nat) (vals : list Z) : list Z :=
  match idx, vals with
  | i :: idx', v :: vals' => assign_all (<[i:=v]> a) idx' vals'
  | _, _ => a
  end.

(** [a[idx] = vals] with an integer index array, for an [int64] array [a]:
    the values are broadcast, the indices are checked, then the elements
    are assigned, each value cast to [int64]. *)
Definition np_setitem (a : list Z) (idx vals : list Z) : result (list Z) :=
  vs ← broadcast_to (length idx) vals;
  match mapM (norm_index (length a)) idx with
  | None => Raise IndexError
  | Some pos => Ok (assign_all a pos (wrap64 <$> vs))
  end.

(** One element of [t[idx]]. *)
Definition getitem1 (t : list Z) (i : Z) : option Z :=
  match norm_index (length t) i with
  | Some p => t !! p
  | None => None
  end.

(** [t[idx]] with an integer index tensor (the same rule in PyTorch). *)
Definition tensor_getitem (t : list Z) (idx : list Z) : result (list Z) :=
  match mapM (getitem1 t) idx with
  | None => Raise IndexError
  | Some vs => Ok vs
  end.

End Numpy.
Export Numpy.

(** ** The label vector of a partition (lines 46-47 of the script)

    [labels = np.zeros(np.max(train_nid) + 1, dtype=np.int)]
    [labels[train_nid] = sub_labels]

    The ids are an [int64] array, so [np.max(train_nid)] is an [int64]
    scalar and adding one to it wraps around.  Memory is not modelled: an
    array of a size that NumPy accepts is allocated. *)

Definition build_labels (train_nid sub_labels : list Z) : result (list Z) :=
  m ← np_max train_nid;
  labels ← np_zeros (wrap64 (m + 1));
  np_setitem labels train_nid sub_labels.

(** A partition as the data helpers hand it over: at least one training
    node; node ids that are array positions (not negative) of an [int64]
    array NumPy accepts (fewer than [2^60] elements); no id listed twice;
    and one label per training node, each an [int64]. *)
Definition wf_partition (train_nid sub_labels : list Z) : Prop :=
  train_nid ≠ [] ∧ Forall (λ i, 0 ≤ i < 2 ^ 60 - 1) train_nid ∧ NoDup train_nid
  ∧ length sub_labels = length train_nid ∧ Forall is_int64 sub_labels.

(** ** Paths and strings *)

Module Path.

Definition sep : ascii := "/"%char.

Definition starts_with_sep (p : string) : bool :=
  match p with
  | String c _ => Ascii.eqb c sep
  | EmptyString => false
  end.

Fixpoint ends_with_sep (p : string) : bool :=
  match p with
  | EmptyString => false
  | String c EmptyString => Ascii.eqb c sep
  | String _ p' => ends_with_sep p'
  end.

(** [os.path.join(a, b)] of [posixpath]. *)
Definition join (a b : string) : string :=
  if starts_with_sep b then b
  else if bool_decide (a = "") || ends_with_sep a then a +:+ b
  else a +:+ String sep b.

(** [os.path.basename(p)]: what follows the last separator. *)
Fixpoint basename_go (acc p : string) : string :=
  match p with
  | EmptyString => acc
  | String c p' =>
      if Ascii.eqb c sep then basename_go "" p'
      else basename_go (acc +:+ String c "") p'
  end.
Definition basename (p : string) : string := basename_go "" p.

(** [len(s.split(','))]: one more than the number of commas. *)
Fixpoint count_commas (s : string) : nat :=
  match s with
  | EmptyString => 0%nat
  | String c s' => ((if Ascii.eqb c ","%char then 1 else 0) + count_commas s')%nat
  end.
Definition split_len (s : string) : Z := Z.of_nat (S (count_commas s)).

(** The directory in which the operating system looks a path up: trailing
    separators do not count, the last component is the entry, what stands
    before it (without its trailing separators) is the directory.  [None]
    is the working directory (the path has one component), [Some ""] the
    root. *)
Fixpoint strip_seps (r : list ascii) : list ascii :=
  match r with
  | c :: r' => if Ascii.eqb c sep then strip_seps r' else r
  | [] => []
  end.

Fixpoint after_sep (r : list ascii) : option (list ascii) :=
  match r with
  | c :: r' => if Ascii.eqb c sep then Some r' else after_sep r'
  | [] => None
  end.

Definition parent (p : string) : option string :=
  match after_sep (strip_seps (rev (list_ascii_of_string p))) with
  | Some r => Some (string_of_list_ascii (rev (strip_seps r)))
  | None => None
  end.

End Path.

(** ** Command line arguments (the [argparse] namespace of [__main__]) *)

Record Args : Type := {
  gpu : string;
  dataset : option string;         (* default None *)
  feat_size : Z;
  n_classes : Z;
  dropout : float;
  n_hidden : Z;
  n_layers : Z;
  preprocess : bool;
  lr : float;
  n_epochs : Z;
  batch_size : Z;
  weight_decay : float;
  num_neighbors : Z;
  ckpt : string
}.

(** ** External calls *)

(** The three module objects of a worker: the sampling model built at line
    62, the full-graph inference model built at line 69, and the
    data-parallel wrapper that [model] names from line 80 on (its [.module]
    is the sampling model). *)
Inductive obj : Type := ObjModel | ObjInferModel | ObjDDP.

(** A node flow as far as the script looks into it: the seed nodes of the
    mini-batch, which [nf.layer_parent_nid(-1)] returns.  The sampled
    neighbourhood stays inside DGL. *)
Record NodeFlow : Type := { nf_seeds : list Z }.

(** What the script prints. *)
Inductive message : Type :=
| MsgLaunch (rank : Z)
| MsgCaching
| MsgStart
| MsgBatch (epoch step : Z) (loss avg : float)
| MsgEpoch (avg : float)
| MsgSaving (filepath : string).

(** The calls into the libraries, the operating system and the console,
    with the arguments the script passes. *)
Inductive event : Type :=
| SetEnv (key value : string)
| InitProcessGroup (backend : string) (rank world_size : Z)
| ManualSeed (seed : Z)
| Print (m : message)
| CreateGraphFromStore (name store_type : string)
| GetSubTrainGraph (dataset : string) (rank : Z)
| MakeDGLGraph
| GetSubTrainNid (dataset : string) (rank : Z)
| GetSubTrainLabels (dataset : string) (rank : Z)
| GetFeatFromServer (t2fid : list Z) (field : string)
| TensorCuda (rank : Z)
| SetNdata (field : string)
| ConstructGCNSampling (in_feats hidden classes layers : Z)
    (drop : float) (prep : bool)
| ConstructGCNInfer (in_feats hidden classes layers : Z)
| MakeLoss
| MakeAdam (params_of : obj) (rate decay : float)
| ModuleCuda (o : obj) (rank : Z)
| WrapDDP (o : obj) (rank : Z)
| TorchDevice (rank : Z)
| TrainMode (o : obj)
| Time
| NeighborSampler (batch num_nbrs hops : Z) (seed_nodes : list Z)
| SamplerNext (nf : option NodeFlow)
| CopyFromParent (nf : NodeFlow)
| LayerParentNid (nf : NodeFlow) (layer : Z)
| Forward (o : obj) (nf : NodeFlow)
| LossFcn (label : list Z)
| ZeroGrad
| Backward
| OptimizerStep
| LossItem
| TorchSave (o : obj) (filepath : string)
| PathExists (p : string)
| Mkdir (p : string)
| Spawn (nprocs : Z).

(** The environment of a run: which calls raise, and what the calls that
    return data return.  The history is the trace up to the call. *)
Record World : Type := {
  w_fail : list event → event → option exn;
  w_time : list event → float;
  w_loss_item : list event → float;
  w_mean : list float → float;
  w_randperm : Z → list event → nat → list nat;
  w_t2fid : string → Z → list Z;
  w_train_nid : string → Z → list Z;
  w_train_labels : string → Z → list Z
}.

(** ** Worker state and the monad of the script *)

(** What a path of the file system holds: a directory, a regular file, or
    a symbolic link whose target is missing.  A link with a target counts
    as what it points to.  Paths are told apart as they are written. *)
Inductive fkind : Type := Dir | File | Dangling.

(** What [os.path.exists] sees: it follows symbolic links, so a dangling
    link is not there for it. *)
Definition visible (k : option fkind) : bool :=
  match k with
  | Some Dir | Some File => true
  | Some Dangling | None => false
  end.

(** The state of a process: the calls it has made so far, oldest first; the
    seed PyTorch's global generator was last given (what the generator
    returns next is a function of that seed and of the calls made since);
    and what the paths hold that the launcher tests and makes before it
    spawns the workers.  The checkpoint files a worker writes are calls
    in its trace; whether such a write succeeds is the world's to say. *)
Record State : Type := {
  st_trace : list event;
  st_seed : Z;
  st_fs : gmap string fkind
}.

(** A computation of the script: it changes the state, and returns a value
    or raises.  Python has no way to go on after an exception short of
    [try], which the script never uses: [≫=] passes an exception on. *)
Definition M (A : Type) : Type := State → State * result A.

#[global] Instance M_ret : MRet M := λ A a s, (s, Ok a).
#[global] Instance M_bind : MBind M := λ A B f m s,
  match m s with
  | (s1, Ok a) => f a s1
  | (s1, Raise e) => (s1, Raise e)
  end.

(** The result of array code, which touches no state. *)
Definition lift {A : Type} (r : result A) : M A := λ s, (s, r).

(** The call [e] joins the trace. *)
Definition log (e : event) (s : State) : State :=
  {| st_trace := st_trace s ++ [e]; st_seed := st_seed s; st_fs := st_fs s |}.

Definition set_seed (seed : Z) : M unit := λ s,
  ({| st_trace := st_trace s; st_seed := seed; st_fs := st_fs s |}, Ok tt).

(** What holds the directory of [p]: the working directory and the root
    are directories. *)
Definition parent_kind (fs : gmap string fkind) (p : string) : option fkind :=
  match Path.parent p with
  | None | Some "" => Some Dir
  | Some d => fs !! d
  end.

(** What the file system does on [mkdir(p)]: the directory of [p] has to be
    a directory, and nothing may be at [p], a dangling link included; then
    a directory appears at [p]. *)
Definition create_dir (p : string) : M unit := λ s,
  if decide (p = "") then (s, Raise FileNotFoundError)
  else match parent_kind (st_fs s) p with
       | Some Dir =>
           match st_fs s !! p with
           | Some _ => (s, Raise FileExistsError)
           | None => ({| st_trace := st_trace s; st_seed := st_seed s;
                         st_fs := <[p := Dir]> (st_fs s) |}, Ok tt)
           end
       | Some File => (s, Raise NotADirectoryError)
       | Some Dangling | None => (s, Raise FileNotFoundError)
       end.

(** [for x in l: body], with the variables the body updates as [acc]. *)
Fixpoint for_each {A L : Type} (body : L → A → M L) (l : list A) (acc : L) : M L :=
  match l with
  | [] => mret acc
  | x :: l' => acc' ← body acc x; for_each body l' acc'
  end.

(** [range(n)] *)
Definition range (n : Z) : list Z := Z.of_nat <$> seq 0 (Z.to_nat n).

(** ** The script *)

Section Script.

Context (w : World).

(** A call into a library: it joins the trace, and raises when the world
    says so. *)
Definition ext (e : event) : M unit := λ s,
  (log e s, match w_fail w (st_trace s) e with
            | Some x => Raise x
            | None => Ok tt
            end).

(** The value a call returns, read off the history that ends with it. *)
Definition ask {A : Type} (f : list event → A) : M A := λ s, (s, Ok (f (st_trace s))).

(** [time.time()] *)
Definition time_time : M float := ext Time;; ask (w_time w).

(** [loss.item()] *)
Definition loss_item : M float := ext LossItem;; ask (w_loss_item w).

(** [torch.manual_seed(seed)]: the global generator restarts from [seed]. *)
Definition manual_seed (seed : Z) : M unit :=
  ext (ManualSeed seed);; set_seed seed.

(** Lines 24-30. *)
Definition init_process (rank world_size : Z) (backend : string) : M unit :=
  ext (SetEnv "MASTER_ADDR" "127.0.0.1");;
  ext (SetEnv "MASTER_PORT" "29501");;
  ext (InitProcessGroup backend rank world_size);;
  manual_seed rank;;
  ext (Print (MsgLaunch rank)).

(** *** The neighbour sampler of DGL *)

(** Modelled from the spec: DGL's [NeighborSampler] is a library outside
    the repository.  By its contract the seed nodes are shuffled once when
    the sampler is built ([arr[torch.randperm(len(arr))]], drawn from the
    global generator), and the shuffled seeds are cut into consecutive
    batches of [batch_size], the last one possibly shorter; the sampler
    yields one node flow per batch, in that order.  The contract asks for
    a positive batch size: the model raises otherwise.  The arguments the
    script fixes ([neighbor_type='in'], [shuffle=True], [num_workers=8],
    [prefetch=True]) are not recorded. *)
Definition rand_shuffle (arr : list Z) : M (list Z) := λ s,
  let idx := w_randperm w (st_seed s) (st_trace s) (length arr) in
  (s, match mapM (λ i : nat, arr !! i) idx with
      | Some l => Ok l
      | None => Raise IndexError
      end).

(** Consecutive batches of [bs] seeds; [fuel] bounds their number. *)
Fixpoint batches (fuel bs : nat) (seeds : list Z) : list (list Z) :=
  match fuel, seeds with
  | S fuel', _ :: _ => take bs seeds :: batches fuel' bs (drop bs seeds)
  | _, _ => []
  end.

Definition sampler_batches (bs : nat) (seeds : list Z) : list NodeFlow :=
  (λ b, {| nf_seeds := b |}) <$> batches (length seeds) bs seeds.

Definition neighbor_sampler (batch num_nbrs hops : Z) (seed_nodes : list Z)
  : M (list NodeFlow) :=
  ext (NeighborSampler batch num_nbrs hops seed_nodes);;
  shuffled ← rand_shuffle seed_nodes;
  if decide (0 < batch) then mret (sampler_batches (Z.to_nat batch) shuffled)
  else lift (Raise (ExternalError 0)).

(** [for nf in sampler: body]: the iterator is advanced before every
    iteration, and once more to find the sequence exhausted. *)
Fixpoint for_flows {L : Type} (body : L → NodeFlow → M L)
    (flows : list NodeFlow) (acc : L) : M L :=
  match flows with
  | [] => ext (SamplerNext None);; mret acc
  | nf :: rest =>
      ext (SamplerNext (Some nf));;
      acc' ← body acc nf;
      for_flows body rest acc'
  end.

(** *** The trainer (lines 33-123) *)

(** Line 61. *)
Definition num_hops (args : Args) : Z :=
  if preprocess args then n_layers args else n_layers args.

(** Line 121: [os.path.join(args.ckpt, 'gcn-nssc_{}'.format(epoch + 1))],
    as a function of [epoch + 1]. *)
Definition ckpt_path (args : Args) (epoch1 : Z) : string :=
  Path.join (ckpt args) ("gcn-nssc_" +:+ pretty epoch1).

(** Lines 98-114: the body of the inner loop.  The loop state is the step
    counter and the list of batch durations. *)
Definition train_step (rank : Z) (labels : list Z) (epoch : Z)
    (acc : Z * list float) (nf : NodeFlow) : M (Z * list float) :=
  let '(step, batch_dur) := acc in
  batch_start_time ← time_time;
  ext (CopyFromParent nf);;
  ext (LayerParentNid nf (-1));;
  let batch_nids := nf_seeds nf in
  label ← lift (tensor_getitem labels batch_nids);
  ext (TensorCuda rank);;
  ext (Forward ObjDDP nf);;
  ext (LossFcn label);;
  ext ZeroGrad;;
  ext Backward;;
  ext OptimizerStep;;
  let step := step + 1 in
  t ← time_time;
  let batch_dur := batch_dur ++ [(t - batch_start_time)%float] in
  (if decide (rank = 0 ∧ step `mod` 20 = 0)
   then l ← loss_item;
        ext (Print (MsgBatch (epoch + 1) step l (w_mean w batch_dur)))
   else mret tt);;
  mret (step, batch_dur).

(** Lines 87-123: the body of the outer loop.  The loop state is the list
    of epoch durations and the list of batch durations. *)
Definition train_epoch (rank : Z) (args : Args) (labels train_nid : list Z)
    (acc : list float * list float) (epoch : Z) : M (list float * list float) :=
  let '(epoch_dur, batch_dur) := acc in
  ext (TrainMode ObjDDP);;
  epoch_start_time ← time_time;
  flows ← neighbor_sampler (batch_size args) (num_neighbors args)
            (num_hops args) train_nid;
  '(_, batch_dur) ← for_flows (train_step rank labels epoch) flows (0, batch_dur);
  epoch_dur ← (if decide (rank = 0)
               then t ← time_time;
                    let epoch_dur := epoch_dur ++ [(t - epoch_start_time)%float] in
                    ext (Print (MsgEpoch (w_mean w (drop 2 epoch_dur))));;
                    mret epoch_dur
               else mret epoch_dur);
  (if decide ((epoch + 1) `mod` 5 = 0 ∧ rank = 0)
   then let filepath := ckpt_path args (epoch + 1) in
        ext (Print (MsgSaving filepath));;
        ext (TorchSave ObjModel filepath)
   else mret tt);;
  mret (epoch_dur, batch_dur).

(** Lines 35-81: everything before the training loop.  It returns the
    label tensor and the training node ids.  The two conversions to
    tensors (lines 51-52) keep the values and make no call of their own. *)
Definition setup (rank world_size : Z) (args : Args) (backend : string)
  : M (list Z * list Z) :=
  init_process rank world_size backend;;
  ds ← lift (match dataset args with
             | Some d => Ok d
             | None => Raise TypeError
             end);
  let dataname := Path.basename ds in
  ext (CreateGraphFromStore dataname "shared_mem");;
  ext (GetSubTrainGraph ds rank);;
  let t2fid := w_t2fid w ds rank in
  ext MakeDGLGraph;;
  ext (GetSubTrainNid ds rank);;
  let train_nid := w_train_nid w ds rank in
  ext (GetSubTrainLabels ds rank);;
  let sub_labels := w_train_labels w ds rank in
  labels ← lift (build_labels train_nid sub_labels);
  ext (Print MsgCaching);;
  ext (GetFeatFromServer t2fid "features");;
  ext (TensorCuda rank);;
  ext (GetFeatFromServer t2fid "norm");;
  ext (TensorCuda rank);;
  ext (SetNdata "features");;
  ext (SetNdata "norm");;
  ext (Print MsgStart);;
  ext (ConstructGCNSampling (feat_size args) (n_hidden args) (n_classes args)
         (n_layers args) (dropout args) (preprocess args));;
  ext (ConstructGCNInfer (feat_size args) (n_hidden args) (n_classes args)
         (n_layers args));;
  ext MakeLoss;;
  ext (MakeAdam ObjModel (lr args) (weight_decay args));;
  ext (ModuleCuda ObjModel rank);;
  ext (ModuleCuda ObjInferModel rank);;
  ext (WrapDDP ObjModel rank);;
  ext (TorchDevice rank);;
  mret (labels, train_nid).

(** Lines 33-123.  Both lists of durations start empty (lines 84-85). *)
Definition trainer (rank world_size : Z) (args : Args) (backend : string) : M unit :=
  '(labels, train_nid) ← setup rank world_size args backend;
  for_each (train_epoch rank args labels train_nid) (range (n_epochs args)) ([], []);;
  mret tt.

(** *** The launcher (lines 161-169) *)

(** [os.path.exists(p)] does not raise. *)
Definition path_exists (p : string) : M bool := λ s,
  (log (PathExists p) s, Ok (bool_decide (p ≠ "") && visible (st_fs s !! p))).

(** [os.mkdir(p)] *)
Definition mkdir (p : string) : M unit := ext (Mkdir p);; create_dir p.

(** Lines 161-169, after the arguments are parsed. *)
Definition main (args : Args) : M unit :=
  ext (SetEnv "CUDA_VISIBLE_DEVICES" (gpu args));;
  let gpu_num := Path.split_len (gpu args) in
  present ← path_exists (ckpt args);
  (if negb present then mkdir (ckpt args) else mret tt);;
  ext (Spawn gpu_num).

End Script.

(** A worker process started by [mp.spawn]: it sees the file system the
    launcher left, and starts with a trace and a generator of its own. *)
Definition spawned (parent : State) (seed : Z) : State :=
  {| st_trace := []; st_seed := seed; st_fs := st_fs parent |}.

(** ** Vocabulary of the statements *)

(** How a computation ended: [None] when it returned, the exception when it
    raised. *)
Definition outcome {A : Type} (r : result A) : option exn :=
  match r with
  | Ok _ => None
  | Raise e => Some e
  end.

(** A relation between the state before a computation, the state after it
    and its outcome is compositional when doing nothing satisfies it and it
    is closed under running one computation after another that returned. *)
Class Compositional (Ψ : State → State → option exn → Prop) : Prop := {
  comp_refl : ∀ s o, Ψ s s o;
  comp_trans : ∀ s s1 s2 o, Ψ s s1 None → Ψ s1 s2 o → Ψ s s2 o
}.

Definition obeys (Ψ : State → State → option exn → Prop) {A : Type} (m : M A) : Prop :=
  ∀ s, Ψ s (m s).1 (outcome (m s).2).

(** The events a computation started in [s] appends to the trace, and what
    it returns or raises. *)
Definition events {A : Type} (m : M A) (s : State) : list event :=
  drop (length (st_trace s)) (st_trace (m s).1).

Definition returns {A : Type} (m : M A) (s : State) : result A := (m s).2.

(** The trace grows by events that all satisfy [P]. *)
Definition emits_only (P : event → Prop) (s s' : State) (_ : option exn) : Prop :=
  ∃ tr, st_trace s' = st_trace s ++ tr ∧ Forall P tr.

(** A call that the world makes raise is the last event of the trace, and
    its exception is the outcome. *)
Definition fatal (w : World) (s s' : State) (o : option exn) : Prop :=
  ∃ tr, st_trace s' = st_trace s ++ tr
        ∧ ∀ h c rest e,
            tr = h ++ c :: rest → w_fail w (st_trace s ++ h) c = Some e →
            rest = [] ∧ o = Some e.

(** The calls a worker of rank [rank] can make, with what the script's
    guards and bindings say about their arguments. *)
Definition trainer_event (rank : Z) (args : Args) (e : event) : Prop :=
  match e with
  | ManualSeed seed => seed = rank
  | Print (MsgLaunch r) => r = rank
  | Print (MsgBatch _ step _ _) => rank = 0 ∧ step `mod` 20 = 0
  | Print (MsgEpoch _) => rank = 0
  | Print (MsgSaving p) | TorchSave ObjModel p =>
      rank = 0 ∧ ∃ epoch, 0 ≤ epoch < n_epochs args
                          ∧ (epoch + 1) `mod` 5 = 0
                          ∧ p = ckpt_path args (epoch + 1)
  | TorchSave _ _ => False
  | NeighborSampler batch nbrs hops _ =>
      batch = batch_size args ∧ nbrs = num_neighbors args ∧ hops = n_layers args
  | Forward o _ | TrainMode o => o = ObjDDP
  | MakeAdam o _ _ | WrapDDP o _ => o = ObjModel
  | ModuleCuda o r => r = rank ∧ o ≠ ObjDDP
  | PathExists _ | Mkdir _ | Spawn _ => False
  | _ => True
  end.

(** The events of the training loop's state machine: the sampler is
    advanced, the forward pass, the backward pass, the optimizer step. *)
Definition loop_event (e : event) : bool :=
  match e with
  | SamplerNext _ | Forward _ _ | Backward | OptimizerStep => true
  | _ => false
  end.

Definition is_optimizer_step (e : event) : bool :=
  match e with
  | OptimizerStep => true
  | _ => false
  end.

(** One pass through the loop body for the node flow [nf]. *)
Definition step_pattern (nf : NodeFlow) : list event :=
  [SamplerNext (Some nf); Forward ObjDDP nf; Backward; OptimizerStep].

(** One epoch over the node flows the sampler yields. *)
Definition epoch_pattern (flows : list NodeFlow) : list event :=
  (flows ≫= step_pattern) ++ [SamplerNext None].

(** An event that invokes, reconfigures or saves the inference model. *)
Definition uses_infer_model (e : event) : Prop :=
  match e with
  | Forward ObjInferModel _ | TrainMode ObjInferModel
  | TorchSave ObjInferModel _ | MakeAdam ObjInferModel _ _
  | WrapDDP ObjInferModel _ => True
  | _ => False
  end.

(** The computation returns from every state, with a value that satisfies
    [Q]. *)
Definition returns_with {A : Type} (Q : A → Prop) (m : M A) : Prop :=
  ∀ s, ∃ s' a, m s = (s', Ok a) ∧ Q a.

(** No call raises. *)
Definition world_quiet (w : World) : Prop := ∀ h e, w_fail w h e = None.

(** [torch.randperm(n)] returns a permutation of [0 .. n-1]. *)
Definition world_shuffles (w : World) : Prop :=
  ∀ seed h n, w_randperm w seed h n ≡ₚ seq 0 n.

(** The calls of process initialization and of a setup that return. *)
Definition init_trace (rank world_size : Z) (backend : string) : list event :=
  [SetEnv "MASTER_ADDR" "127.0.0.1"; SetEnv "MASTER_PORT" "29501";
   InitProcessGroup backend rank world_size; ManualSeed rank;
   Print (MsgLaunch rank)].

Definition setup_trace (w : World) (rank world_size : Z) (args : Args)
    (backend ds : string) : list event :=
  init_trace rank world_size backend ++
  [CreateGraphFromStore (Path.basename ds) "shared_mem";
   GetSubTrainGraph ds rank; MakeDGLGraph; GetSubTrainNid ds rank;
   GetSubTrainLabels ds rank; Print MsgCaching;
   GetFeatFromServer (w_t2fid w ds rank) "features"; TensorCuda rank;
   GetFeatFromServer (w_t2fid w ds rank) "norm"; TensorCuda rank;
   SetNdata "features"; SetNdata "norm"; Print MsgStart;
   ConstructGCNSampling (feat_size args) (n_hidden args) (n_classes args)
     (n_layers args) (dropout args) (preprocess args);
   ConstructGCNInfer (feat_size args) (n_hidden args) (n_classes args)
     (n_layers args);
   MakeLoss; MakeAdam ObjModel (lr args) (weight_decay args);
   ModuleCuda ObjModel rank; ModuleCuda ObjInferModel rank;
   WrapDDP ObjModel rank; TorchDevice rank].

(** What the events [tr] of one epoch that returns look like: the loop
    events are those of one pass over the node flows [flows] the sampler
    yielded; the sampler took a positive batch size and yielded one node
    flow per batch of the [n] training nodes; the checkpoint of the epoch
    was written when its guard holds. *)
Definition epoch_run (w : World) (rank : Z) (args : Args) (n : nat)
    (epoch : Z) (tr : list event) : Prop :=
  ∃ flows,
    List.filter loop_event tr = epoch_pattern flows
    ∧ 0 < batch_size args
    ∧ (world_shuffles w →
       length flows
       = ((n + Z.to_nat (batch_size args) - 1) / Z.to_nat (batch_size args))%nat)
    ∧ (rank = 0 → (epoch + 1) `mod` 5 = 0 →
       TorchSave ObjModel (ckpt_path args (epoch + 1)) ∈ tr).

(** ** Sample runs

    A world in which no call raises: the partition of rank [r] has the
    training nodes 0, 2, 5, 7 and 9, the clock stands still and the shuffle
    reverses the seeds.  [world_down] is the same world with the feature
    store unreachable. *)

Module Sample.

Definition train_nid : list Z := [0; 2; 5; 7; 9].
Definition sub_labels : list Z := [3; 1; 4; 1; 5].

Definition world : World := {|
  w_fail := λ _ _, None;
  w_time := λ _, 0%float;
  w_loss_item := λ _, 1%float;
  w_mean := λ _, 0%float;
  w_randperm := λ _ _ n, reverse (seq 0 n);
  w_t2fid := λ _ _, [10; 11; 12; 13; 14; 15; 16; 17; 18; 19];
  w_train_nid := λ _ _, train_nid;
  w_train_labels := λ _ _, sub_labels
|}.

Definition world_down : World := {|
  w_fail := λ _ e, match e with
                   | GetFeatFromServer _ _ => Some (ExternalError 1)
                   | _ => None
                   end;
  w_time := w_time world;
  w_loss_item := w_loss_item world;
  w_mean := w_mean world;
  w_randperm := w_randperm world;
  w_t2fid := w_t2fid world;
  w_train_nid := w_train_nid world;
  w_train_labels := w_train_labels world
|}.

Definition args : Args := {|
  gpu := "0,1";
  dataset := Some "data/reddit";
  feat_size := 300;
  n_classes := 60;
  dropout := 0.25%float;
  n_hidden := 32;
  n_layers := 1;
  preprocess := false;
  lr := 0.03125%float;
  n_epochs := 5;
  batch_size := 2;
  weight_decay := 0%float;
  num_neighbors := 2;
  ckpt := "checkpoint"
|}.

(** One epoch only. *)
Definition args1 : Args := {|
  gpu := gpu args; dataset := dataset args; feat_size := feat_size args;
  n_classes := n_classes args; dropout := dropout args;
  n_hidden := n_hidden args; n_layers := n_layers args;
  preprocess := preprocess args; lr := lr args;
  n_epochs := 1;
  batch_size := batch_size args; weight_decay := weight_decay args;
  num_neighbors := num_neighbors args; ckpt := ckpt args
|}.

(** Twenty training nodes, batches of one: the twentieth step is logged. *)
Definition world20 : World := {|
  w_fail := w_fail world;
  w_time := w_time world;
  w_loss_item := w_loss_item world;
  w_mean := w_mean world;
  w_randperm := w_randperm world;
  w_t2fid := w_t2fid world;
  w_train_nid := λ _ _, Z.of_nat <$> seq 0 20;
  w_train_labels := λ _ _, replicate 20 1
|}.

Definition args20 : Args := {|
  gpu := gpu args; dataset := dataset args; feat_size := feat_size args;
  n_classes := n_classes args; dropout := dropout args;
  n_hidden := n_hidden args; n_layers := n_layers args;
  preprocess := true; lr := lr args;
  n_epochs := 1;
  batch_size := 1; weight_decay := weight_decay args;
  num_neighbors := num_neighbors args; ckpt := ckpt args
|}.

(** The same world with a clock that ticks once per call, and a mean that
    is the number of values it is taken of. *)
Definition world_ticking : World := {|
  w_fail := w_fail world;
  w_time := λ h, PrimFloat.of_uint63 (Uint63.of_Z (Z.of_nat (length h)));
  w_loss_item := w_loss_item world;
  w_mean := λ l, PrimFloat.of_uint63 (Uint63.of_Z (Z.of_nat (length l)));
  w_randperm := w_randperm world;
  w_t2fid := w_t2fid world;
  w_train_nid := w_train_nid world;
  w_train_labels := w_train_labels world
|}.

(** The same world, but the partition has no training node. *)
Definition world_empty : World := {|
  w_fail := w_fail world;
  w_time := w_time world;
  w_loss_item := w_loss_item world;
  w_mean := w_mean world;
  w_randperm := w_randperm world;
  w_t2fid := w_t2fid world;
  w_train_nid := λ _ _, [];
  w_train_labels := λ _ _, []
|}.

(** The defaults for the dataset: none given. *)
Definition args_no_dataset : Args := {|
  gpu := gpu args; dataset := None; feat_size := feat_size args;
  n_classes := n_classes args; dropout := dropout args;
  n_hidden := n_hidden args; n_layers := n_layers args;
  preprocess := preprocess args; lr := lr args;
  n_epochs := n_epochs args;
  batch_size := batch_size args; weight_decay := weight_decay args;
  num_neighbors := num_neighbors args; ckpt := ckpt args
|}.

(** No epoch at all. *)
Definition args_no_epochs : Args := {|
  gpu := gpu args; dataset := dataset args; feat_size := feat_size args;
  n_classes := n_classes args; dropout := dropout args;
  n_hidden := n_hidden args; n_layers := n_layers args;
  preprocess := preprocess args; lr := lr args;
  n_epochs := 0;
  batch_size := batch_size args; weight_decay := weight_decay args;
  num_neighbors := num_neighbors args; ckpt := ckpt args
|}.

Definition start (seed : Z) : State :=
  {| st_trace := []; st_seed := seed; st_fs := ∅ |}.

(** A launch with a regular file where the checkpoint directory is meant
    to be. *)
Definition file_at_ckpt : State :=
  {| st_trace := []; st_seed := 42; st_fs := {["checkpoint" := File]} |}.

(** A launch with a symbolic link at the checkpoint path whose target is
    missing. *)
Definition dangling_at_ckpt : State :=
  {| st_trace := []; st_seed := 42; st_fs := {["checkpoint" := Dangling]} |}.

(** A checkpoint directory below a directory that is not there. *)
Definition args_nested : Args := {|
  gpu := gpu args; dataset := dataset args; feat_size := feat_size args;
  n_classes := n_classes args; dropout := dropout args;
  n_hidden := n_hidden args; n_layers := n_layers args;
  preprocess := preprocess args; lr := lr args;
  n_epochs := n_epochs args;
  batch_size := batch_size args; weight_decay := weight_decay args;
  num_neighbors := num_neighbors args; ckpt := "runs/checkpoint"
|}.

(** What a worker of rank 0 has done when it turns to the feature store. *)
Definition before_fetch : list event :=
  init_trace 0 2 "nccl" ++
  [CreateGraphFromStore "reddit" "shared_mem"; GetSubTrainGraph "data/reddit" 0;
   MakeDGLGraph; GetSubTrainNid "data/reddit" 0;
   GetSubTrainLabels "data/reddit" 0; Print MsgCaching].

End Sample.

(** ** The module search path (lines 4-9 of the script)

    [modpath = os.path.abspath('.')]; when ['PaGraph'] occurs in it, the
    path is cut before the first occurrence; the result is appended to
    [sys.path]. *)

Module Str.

(** [s.startswith(p)] *)
Fixpoint is_prefix (p s : string) : bool :=
  match p, s with
  | EmptyString, _ => true
  | String a p', String b s' => Ascii.eqb a b && is_prefix p' s'
  | String _ _, EmptyString => false
  end.

(** [needle in hay] *)
Fixpoint contains (needle hay : string) : bool :=
  is_prefix needle hay
  || match hay with
     | EmptyString => false
     | String _ hay' => contains needle hay'
     end.

(** [hay.find(needle)]: the lowest index of an occurrence, [-1] without one. *)
Fixpoint find (needle hay : string) : Z :=
  if is_prefix needle hay then 0
  else match hay with
       | EmptyString => -1
       | String _ hay' =>
           let i := find needle hay' in
           if decide (i < 0) then -1 else i + 1
       end.

Fixpoint take (n : nat) (s : string) : string :=
  match n, s with
  | S n', String c s' => String c (take n' s')
  | _, _ => EmptyString
  end.

(** [s[:i]]: a negative [i] counts from the end. *)
Definition slice_to (i : Z) (s : string) : string :=
  let n := Z.of_nat (String.length s) in
  take (Z.to_nat (if decide (i < 0) then Z.max 0 (n + i) else Z.min i n)) s.

End Str.

Definition module_name : string := "PaGraph".

(** What lines 5-8 leave in [modpath] for the working directory [cwd]. *)
Definition module_path (cwd : string) : string :=
  if Str.contains module_name cwd
  then Str.slice_to (Str.find module_name cwd) cwd
  else cwd.

(** ** Vocabulary of the further properties *)

(** The values assigned through an index array fit its shape: one value per
    index, or a single value for all of them. *)
Definition shape_ok (idx vals : list Z) : Prop :=
  length vals = length idx ∨ length vals = 1%nat.

(** The layout the label vector of a partition is meant to have: one
    position more than the largest training node id, the label of every
    training node at the position of the node, zero everywhere else. *)
Definition label_layout (train_nid sub_labels labels : list Z) : Prop :=
  ∃ m, m ∈ train_nid ∧ Forall (λ x, x ≤ m) train_nid
       ∧ Z.of_nat (length labels) = m + 1
       ∧ (∀ (k : nat) (nid : Z),
            train_nid !! k = Some nid → labels !! Z.to_nat nid = sub_labels !! k)
       ∧ (∀ p : nat,
            (p < length labels)%nat → Z.of_nat p ∉ train_nid → labels !! p = Some 0).

(** The label vector is built and has that layout. *)
Definition label_vector_laid_out (train_nid sub_labels : list Z) : Prop :=
  ∃ labels,
    build_labels train_nid sub_labels = Ok labels
    ∧ label_layout train_nid sub_labels labels.

(** When the launcher spawns the workers, the checkpoint path is a
    directory. *)
Definition ckpt_dir_present (w : World) (args : Args) (s : State) : Prop :=
  ∀ h nprocs rest,
    events (main w args) s = h ++ Spawn nprocs :: rest →
    st_fs (main w args s).1 !! ckpt args = Some Dir.

(** The events [tr] of a loop over [l] that ran through: one stretch per
    element, each related by [P] to the loop variables before and after
    it. *)
Fixpoint unrolled {A L : Type} (P : L → A → list event → L → Prop)
    (acc : L) (l : list A) (tr : list event) (acc' : L) : Prop :=
  match l with
  | [] => tr = [] ∧ acc' = acc
  | x :: l' =>
      ∃ tr1 acc1 tr2,
        tr = tr1 ++ tr2 ∧ P acc x tr1 acc1 ∧ unrolled P acc1 l' tr2 acc'
  end.

(** One iteration of the inner loop that ran through, with the advance of
    the sampler that yielded its node flow. *)
Definition step_shape (w : World) (rank : Z) (labels : list Z) (epoch : Z)
    (acc : Z * list float) (nf : NodeFlow) (tr : list event)
    (acc' : Z * list float) : Prop :=
  ∃ label d loss,
    tensor_getitem labels (nf_seeds nf) = Ok label
    ∧ acc'.1 = acc.1 + 1 ∧ acc'.2 = acc.2 ++ [d]
    ∧ tr = [SamplerNext (Some nf); Time; CopyFromParent nf;
            LayerParentNid nf (-1); TensorCuda rank; Forward ObjDDP nf;
            LossFcn label; ZeroGrad; Backward; OptimizerStep; Time]
           ++ (if decide (rank = 0 ∧ acc'.1 `mod` 20 = 0)
               then [LossItem;
                     Print (MsgBatch (epoch + 1) acc'.1 loss (w_mean w acc'.2))]
               else []).

(** One iteration of the outer loop that ran through. *)
Definition epoch_shape (w : World) (rank : Z) (args : Args)
    (labels train_nid : list Z) (acc : list float * list float) (epoch : Z)
    (tr : list event) (acc' : list float * list float) : Prop :=
  ∃ flows trf steps,
    tr = [TrainMode ObjDDP; Time;
          NeighborSampler (batch_size args) (num_neighbors args)
            (num_hops args) train_nid]
         ++ trf ++ [SamplerNext None]
         ++ (if decide (rank = 0)
             then [Time; Print (MsgEpoch (w_mean w (drop 2 acc'.1)))]
             else [])
         ++ (if decide ((epoch + 1) `mod` 5 = 0 ∧ rank = 0)
             then [Print (MsgSaving (ckpt_path args (epoch + 1)));
                   TorchSave ObjModel (ckpt_path args (epoch + 1))]
             else [])
    ∧ unrolled (step_shape w rank labels epoch) (0, acc.2) flows trf
        (steps, acc'.2)
    ∧ (if decide (rank = 0) then ∃ d, acc'.1 = acc.1 ++ [d]
       else acc'.1 = acc.1).

(** The stretches of a loop as in [unrolled], each with the history [h] of
    the calls made before it. *)
Fixpoint unrolled_at {A L : Type}
    (P : list event → L → A → list event → L → Prop)
    (h : list event) (acc : L) (l : list A) (tr : list event) (acc' : L) : Prop :=
  match l with
  | [] => tr = [] ∧ acc' = acc
  | x :: l' =>
      ∃ tr1 acc1 tr2,
        tr = tr1 ++ tr2 ∧ P h acc x tr1 acc1
        ∧ unrolled_at P (h ++ tr1) acc1 l' tr2 acc'
  end.

(** One iteration of the inner loop with the duration it appends: the
    reading of the clock at its end (the eleventh call of the stretch)
    minus the reading at its start (the second call). *)
Definition step_timed (w : World) (rank : Z) (labels : list Z) (epoch : Z)
    (h : list event) (acc : Z * list float) (nf : NodeFlow) (tr : list event)
    (acc' : Z * list float) : Prop :=
  step_shape w rank labels epoch acc nf tr acc'
  ∧ acc'.2 = acc.2 ++ [(w_time w (h ++ take 11 tr) - w_time w (h ++ take 2 tr))%float].

(** One iteration of the outer loop with the duration the worker of rank 0
    appends: the reading of the clock after the pass over the node flows
    minus the reading after [model.train()]. *)
Definition epoch_timed (w : World) (rank : Z) (args : Args)
    (labels train_nid : list Z) (h : list event)
    (acc : list float * list float) (epoch : Z)
    (tr : list event) (acc' : list float * list float) : Prop :=
  ∃ flows trf steps,
    tr = [TrainMode ObjDDP; Time;
          NeighborSampler (batch_size args) (num_neighbors args)
            (num_hops args) train_nid]
         ++ trf ++ [SamplerNext None]
         ++ (if decide (rank = 0)
             then [Time; Print (MsgEpoch (w_mean w (drop 2 acc'.1)))]
             else [])
         ++ (if decide ((epoch + 1) `mod` 5 = 0 ∧ rank = 0)
             then [Print (MsgSaving (ckpt_path args (epoch + 1)));
                   TorchSave ObjModel (ckpt_path args (epoch + 1))]
             else [])
    ∧ unrolled_at (step_timed w rank labels epoch)
        (h ++ [TrainMode ObjDDP; Time;
               NeighborSampler (batch_size args) (num_neighbors args)
                 (num_hops args) train_nid])
        (0, acc.2) flows trf (steps, acc'.2)
    ∧ (if decide (rank = 0)
       then acc'.1
            = acc.1
              ++ [(w_time w (h ++ [TrainMode ObjDDP; Time;
                                   NeighborSampler (batch_size args)
                                     (num_neighbors args) (num_hops args)
                                     train_nid]
                               ++ trf ++ [SamplerNext None; Time])
                   - w_time w (h ++ [TrainMode ObjDDP; Time]))%float]
       else acc'.1 = acc.1).

(** *** What the clock calls of a trace measure

    The trace [tr] continues the history [h]; [prev] is the call before
    [tr].  A call of the clock that directly follows a call for which
    [starts] holds starts a measurement, and one that directly follows a
    call for which [stops] holds ends one: the duration is its reading
    minus the reading at the last start.  The readings are the world's, for
    the history that ends with the call of the clock. *)
Fixpoint durations (w : World) (starts stops : event → bool)
    (h : list event) (prev : option event) (start : float)
    (tr : list event) : list float :=
  match tr with
  | [] => []
  | e :: tr' =>
      match e with
      | Time =>
          let r := w_time w (h ++ [Time]) in
          if from_option starts false prev
          then durations w starts stops (h ++ [Time]) (Some Time) r tr'
          else if from_option stops false prev
          then (r - start)%float
               :: durations w starts stops (h ++ [Time]) (Some Time) start tr'
          else durations w starts stops (h ++ [Time]) (Some Time) start tr'
      | _ => durations w starts stops (h ++ [e]) (Some e) start tr'
      end
  end.

Definition is_train_mode (e : event) : bool :=
  match e with
  | TrainMode _ => true
  | _ => false
  end.

Definition is_exhausted (e : event) : bool :=
  match e with
  | SamplerNext None => true
  | _ => false
  end.

Definition is_yield (e : event) : bool :=
  match e with
  | SamplerNext (Some _) => true
  | _ => false
  end.

(** The durations of the epochs a trace shows: from the clock call after
    [model.train()] to the clock call after the sampler is found
    exhausted. *)
Definition epoch_durations (w : World) (h tr : list event) : list float :=
  durations w is_train_mode is_exhausted h None 0 tr.


(** Projections of the trace. *)
Definition is_ckpt_event (e : event) : bool :=
  match e with
  | Print (MsgSaving _) | TorchSave _ _ => true
  | _ => false
  end.

(** The marks of an epoch together with the checkpoint calls: the call of
    [model.train()] at its start, the sampler found exhausted at the end
    of its pass over the node flows, and the announcement and the write of
    a checkpoint. *)
Definition is_epoch_mark (e : event) : bool :=
  match e with
  | TrainMode _ | SamplerNext None | Print (MsgSaving _) | TorchSave _ _ => true
  | _ => false
  end.

(** Every announcement of a checkpoint in [tr] is directly followed by the
    write of the model to the announced path, and every write directly
    follows its announcement. *)
Definition saves_announced (tr : list event) : Prop :=
  (∀ h p rest, tr = h ++ Print (MsgSaving p) :: rest →
     ∃ rest', rest = TorchSave ObjModel p :: rest')
  ∧ (∀ h o p rest, tr = h ++ TorchSave o p :: rest →
       o = ObjModel ∧ ∃ h', h = h' ++ [Print (MsgSaving p)]).

Definition is_epoch_start (e : event) : bool :=
  match e with
  | TrainMode _ | NeighborSampler _ _ _ _ => true
  | _ => false
  end.

Definition is_forward_or_loss (e : event) : bool :=
  match e with
  | Forward _ _ | LossFcn _ => true
  | _ => false
  end.

Definition epoch_line_avg (e : event) : option float :=
  match e with
  | Print (MsgEpoch avg) => Some avg
  | _ => None
  end.

Definition batch_line_step (e : event) : option (Z * Z) :=
  match e with
  | Print (MsgBatch epoch step _ _) => Some (epoch, step)
  | _ => None
  end.

(** The announcement and the write of the checkpoint after [epoch1]
    epochs. *)
Definition ckpt_events (args : Args) (epoch1 : Z) : list event :=
  [Print (MsgSaving (ckpt_path args epoch1));
   TorchSave ObjModel (ckpt_path args epoch1)].

(** A forward pass on a node flow and the loss against a batch of labels. *)
Definition forward_and_loss (b : NodeFlow * list Z) : list event :=
  [Forward ObjDDP b.1; LossFcn b.2].

(** The steps at which an epoch of [k] node flows logs the loss: those of
    [1 .. k] that are multiples of 20, each with the number [epoch1] of the
    epoch. *)
Definition batch_lines (epoch1 : Z) (k : nat) : list (Z * Z) :=
  (λ step, (epoch1, step))
    <$> filter (λ step, step `mod` 20 = 0) (Z.of_nat <$> seq 1 k).

(** The rank, device or process number a call names, if it names one. *)
Definition event_rank (e : event) : option Z :=
  match e with
  | InitProcessGroup _ r _ | GetSubTrainGraph _ r | GetSubTrainNid _ r
  | GetSubTrainLabels _ r | TensorCuda r | ModuleCuda _ r | WrapDDP _ r
  | TorchDevice r | Print (MsgLaunch r) => Some r
  | _ => None
  end.

(** The dataset path a call reads a partition of. *)
Definition event_dataset (e : event) : option string :=
  match e with
  | GetSubTrainGraph d _ | GetSubTrainNid d _ | GetSubTrainLabels d _ => Some d
  | _ => None
  end.

(** A call of the worker of rank [rank] stays with the worker's own rank
    and partition. *)
Definition own_call (w : World) (rank : Z) (args : Args) (e : event) : Prop :=
  (∀ r, event_rank e = Some r → r = rank)
  ∧ (∀ d, event_dataset e = Some d → dataset args = Some d)
  ∧ (∀ name store, e = CreateGraphFromStore name store →
       store = "shared_mem"
       ∧ ∃ ds, dataset args = Some ds ∧ name = Path.basename ds)
  ∧ (∀ ids field, e = GetFeatFromServer ids field →
       (field = "features" ∨ field = "norm")
       ∧ ∃ ds, dataset args = Some ds ∧ ids = w_t2fid w ds rank)
  ∧ (∀ batch nbrs hops seeds, e = NeighborSampler batch nbrs hops seeds →
       ∃ ds, dataset args = Some ds ∧ seeds = w_train_nid w ds rank).

(** No comma in the string. *)
Definition comma_free (s : string) : Prop :=
  ¬ In ","%char (list_ascii_of_string s).

(** No separator in the string. *)
Definition slash_free (s : string) : Prop :=
  ¬ In Path.sep (list_ascii_of_string s).

(** [p] names the checkpoint file of [epoch1] epochs in the directory
    [dir]: it is the directory, a separator (none when the directory is
    empty or ends with one) and the file name [gcn-nssc_<epoch1>], the
    number in decimal; the file name is the last component of [p]. *)
Definition ckpt_file_in (dir : string) (epoch1 : Z) (p : string) : Prop :=
  (p = dir +:+ "/" +:+ "gcn-nssc_" +:+ pretty epoch1
   ∨ (dir = "" ∨ Path.ends_with_sep dir = true)
     ∧ p = dir +:+ "gcn-nssc_" +:+ pretty epoch1)
  ∧ Path.basename p = "gcn-nssc_" +:+ pretty epoch1.

(** * Properties *)

(** ** The model on small inputs *)

Example build_labels_sample :
  build_labels Sample.train_nid Sample.sub_labels
  = Ok [3; 0; 1; 0; 0; 4; 0; 1; 0; 5].
Proof. reflexivity. Qed.

Example build_labels_empty : build_labels [] [] = Raise ValueError.
Proof. reflexivity. Qed.

Example build_labels_repeated_id : build_labels [2; 2] [7; 8] = Ok [0; 0; 8].
Proof. reflexivity. Qed.

Example build_labels_negative_id : build_labels [-1; 3] [7; 8] = Ok [0; 0; 0; 8].
Proof. reflexivity. Qed.

Example build_labels_shape_mismatch : build_labels [1; 3] [7; 8; 9] = Raise ValueError.
Proof. reflexivity. Qed.

Example build_labels_largest_id : build_labels [2 ^ 63 - 1] [1] = Raise ValueError.
Proof. reflexivity. Qed.

Example build_labels_too_big : build_labels [2 ^ 60 - 1] [1] = Raise ValueError.
Proof. reflexivity. Qed.

Example build_labels_casts : build_labels [0; 1] [2 ^ 63; 4] = Ok [- 2 ^ 63; 4].
Proof. reflexivity. Qed.

Example tensor_getitem_out_of_bounds :
  tensor_getitem [3; 0; 1] [0; 3] = Raise IndexError.
Proof. reflexivity. Qed.

Example basename_sample : Path.basename "data/reddit" = "reddit".
Proof. reflexivity. Qed.

Example ckpt_path_sample : ckpt_path Sample.args 5 = "checkpoint/gcn-nssc_5".
Proof. by vm_compute. Qed.

Example main_sample :
  events (main Sample.world Sample.args) (Sample.start 42)
  = [SetEnv "CUDA_VISIBLE_DEVICES" "0,1"; PathExists "checkpoint";
     Mkdir "checkpoint"; Spawn 2]
  ∧ returns (main Sample.world Sample.args) (Sample.start 42) = Ok tt.
Proof. by vm_compute. Qed.

Example main_dangling_link :
  events (main Sample.world Sample.args) Sample.dangling_at_ckpt
  = [SetEnv "CUDA_VISIBLE_DEVICES" "0,1"; PathExists "checkpoint";
     Mkdir "checkpoint"]
  ∧ returns (main Sample.world Sample.args) Sample.dangling_at_ckpt
    = Raise FileExistsError.
Proof. by vm_compute. Qed.

Example main_missing_parent :
  events (main Sample.world Sample.args_nested) (Sample.start 42)
  = [SetEnv "CUDA_VISIBLE_DEVICES" "0,1"; PathExists "runs/checkpoint";
     Mkdir "runs/checkpoint"]
  ∧ returns (main Sample.world Sample.args_nested) (Sample.start 42)
    = Raise FileNotFoundError.
Proof. by vm_compute. Qed.

Example split_len_sample : Path.split_len "0,1,2" = 3.
Proof. reflexivity. Qed.

Example sampler_batches_sample :
  sampler_batches 2 [9; 7; 5; 2; 0]
  = [{| nf_seeds := [9; 7] |}; {| nf_seeds := [5; 2] |}; {| nf_seeds := [0] |}].
Proof. reflexivity. Qed.

Example loop_events_sample :
  List.filter loop_event
    (events (trainer Sample.world 0 2 Sample.args1 "nccl") (Sample.start 42))
  = epoch_pattern (sampler_batches 2 [9; 7; 5; 2; 0]).
Proof. by vm_compute. Qed.

Example saves_sample :
  List.filter (λ e, match e with TorchSave _ _ => true | _ => false end)
    (events (trainer Sample.world 0 2 Sample.args "nccl") (Sample.start 42))
  = [TorchSave ObjModel "checkpoint/gcn-nssc_5"].
Proof. by vm_compute. Qed.

Example no_saves_on_rank1 :
  List.filter (λ e, match e with TorchSave _ _ => true | _ => false end)
    (events (trainer Sample.world 1 2 Sample.args "nccl") (Sample.start 42))
  = [].
Proof. by vm_compute. Qed.

(** ** The label vector *)

Section LabelVector.

Implicit Types (a vals labels train_nid sub_labels batch_nids : list Z).
Implicit Types (idx : list nat).

Lemma np_max_spec train_nid :
  train_nid ≠ [] →
  ∃ m, np_max train_nid = Ok m ∧ m ∈ train_nid ∧ Forall (λ x, x ≤ m) train_nid.
Proof.
  destruct train_nid as [|x xs]; [done|]. intros _.
  exists (foldr Z.max x xs). split; [done|].
  induction xs as [|y ys IH]; simpl.
  - split; [left|]. repeat constructor. lia.
  - destruct IH as [Hin Hle].
    apply Forall_cons in Hle as [Hx Hys]. split.
    + destruct (Z.max_spec y (foldr Z.max x ys)) as [[_ ->]|[_ ->]].
      * apply elem_of_cons in Hin as [->|Hin]; [left|right; right]; done.
      * right; left.
    + repeat apply Forall_cons_2; try lia.
      eapply Forall_impl; [exact Hys|]. simpl. lia.
Qed.

Lemma norm_index_lt (n : nat) (i : Z) (p : nat) :
  norm_index n i = Some p → (p < n)%nat.
Proof.
  unfold norm_index. repeat case_decide; intros [= <-]; lia.
Qed.

Lemma norm_index_nonneg (n : nat) (i : Z) :
  0 ≤ i < Z.of_nat n → norm_index n i = Some (Z.to_nat i).
Proof. intros. unfold norm_index. by rewrite decide_True. Qed.

Lemma assign_all_length a idx vals :
  length (assign_all a idx vals) = length a.
Proof.
  revert a vals. induction idx as [|i idx IH]; intros a [|v vals]; simpl; try done.
  by rewrite IH, length_insert.
Qed.

Lemma assign_all_notin a idx vals (p : nat) :
  p ∉ idx → assign_all a idx vals !! p = a !! p.
Proof.
  revert a vals. induction idx as [|i idx IH]; intros a [|v vals] Hp; simpl; try done.
  apply not_elem_of_cons in Hp as [Hne Hp].
  rewrite IH by done. by apply list_lookup_insert_ne.
Qed.

Lemma assign_all_in a idx vals (k i : nat) :
  NoDup idx → length idx = length vals → idx !! k = Some i → (i < length a)%nat →
  assign_all a idx vals !! i = vals !! k.
Proof.
  revert a vals k.
  induction idx as [|j idx IH]; intros a [|v vals] k Hnd Hlen Hk Hi; simplify_eq/=.
  apply NoDup_cons in Hnd as [Hj Hnd].
  destruct k as [|k]; simplify_eq/=.
  - rewrite assign_all_notin by done. by apply list_lookup_insert_eq.
  - apply IH; try done. by rewrite length_insert.
Qed.

Lemma wrap64_id (z : Z) : is_int64 z → wrap64 z = z.
Proof.
  unfold is_int64, wrap64. intros Hz. rewrite Z.mod_small; lia.
Qed.

Lemma wrap64_int64 (z : Z) : is_int64 (wrap64 z).
Proof.
  unfold is_int64, wrap64.
  pose proof (Z.mod_pos_bound (z + 2 ^ 63) (2 ^ 64) ltac:(lia)). lia.
Qed.

Lemma wrap64_fmap_id (l : list Z) : Forall is_int64 l → wrap64 <$> l = l.
Proof.
  induction 1 as [|v vs Hv _ IH]; [done|].
  rewrite fmap_cons, IH. by rewrite wrap64_id.
Qed.

(** The size that wraps around is of no use: when an index that is in
    bounds for the wrapped size is below the size before wrapping, nothing
    has wrapped. *)
Lemma wrap64_no_overflow (m : Z) :
  0 ≤ wrap64 (m + 1) → - wrap64 (m + 1) ≤ m < wrap64 (m + 1) →
  wrap64 (m + 1) = m + 1.
Proof.
  unfold wrap64. intros H0 Hm.
  pose proof (Z.div_mod (m + 1 + 2 ^ 63) (2 ^ 64) ltac:(lia)) as Hdm.
  pose proof (Z.mod_pos_bound (m + 1 + 2 ^ 63) (2 ^ 64) ltac:(lia)) as Hb.
  lia.
Qed.

Lemma norm_index_bounds (n : nat) (i : Z) (p : nat) :
  norm_index n i = Some p → - Z.of_nat n ≤ i < Z.of_nat n.
Proof. unfold norm_index. repeat case_decide; intros [= <-]; lia. Qed.

(** What [build_labels] computes when it returns: the size has not wrapped
    around. *)
Lemma build_labels_Ok train_nid sub_labels labels :
  build_labels train_nid sub_labels = Ok labels →
  ∃ m pos vs,
    np_max train_nid = Ok m ∧ 0 ≤ m + 1 ∧ wrap64 (m + 1) = m + 1
    ∧ mapM (norm_index (Z.to_nat (m + 1))) train_nid = Some pos
    ∧ broadcast_to (length train_nid) sub_labels = Ok vs
    ∧ labels = assign_all (replicate (Z.to_nat (m + 1)) 0) pos (wrap64 <$> vs).
Proof.
  unfold build_labels. destruct (np_max train_nid) as [m|] eqn:Hm; [|done].
  simpl. unfold np_zeros. case_decide as Hneg; [done|]. simpl. unfold np_setitem.
  destruct (broadcast_to _ _) as [vs|] eqn:Hvs; [|done]. simpl.
  rewrite length_replicate.
  destruct (mapM _ _) as [pos|] eqn:Hpos; [|done].
  intros [= <-].
  assert (train_nid ≠ []) as Hne by (by intros ->).
  destruct (np_max_spec train_nid Hne) as (m' & Hm' & Hin & _).
  rewrite Hm in Hm'. injection Hm' as <-.
  assert (wrap64 (m + 1) = m + 1) as Hwrap.
  { apply wrap64_no_overflow; [lia|].
    apply list_elem_of_lookup_1 in Hin as [k Hk].
    pose proof (mapM_Some_1 _ _ _ Hpos) as Hall.
    destruct (Forall2_lookup_l _ _ _ _ _ Hall Hk) as (q & _ & Hq).
    apply norm_index_bounds in Hq. lia. }
  rewrite Hwrap in Hpos, Hneg |- *.
  exists m, pos, vs. repeat split; try done. lia.
Qed.

(** The size of a label vector that is built is one NumPy accepts. *)
Lemma build_labels_size train_nid sub_labels labels m :
  build_labels train_nid sub_labels = Ok labels →
  np_max train_nid = Ok m → m + 1 < 2 ^ 60.
Proof.
  intros Hbuild Hm.
  destruct (build_labels_Ok _ _ _ Hbuild) as (m' & _ & _ & Hm' & _ & Hwrap & _).
  rewrite Hm in Hm'. injection Hm' as <-.
  unfold build_labels in Hbuild. rewrite Hm in Hbuild. simpl in Hbuild.
  rewrite Hwrap in Hbuild. unfold np_zeros in Hbuild.
  case_decide; [done|]. lia.
Qed.

(** The label vector of non-negative ids that are positions of an array
    NumPy accepts, with one label each. *)
Lemma build_labels_nonneg train_nid sub_labels :
  train_nid ≠ [] → Forall (λ i, 0 ≤ i < 2 ^ 60 - 1) train_nid →
  length sub_labels = length train_nid →
  ∃ m, m ∈ train_nid ∧ 0 ≤ m ∧ Forall (λ i, i ≤ m) train_nid
       ∧ build_labels train_nid sub_labels
         = Ok (assign_all (replicate (Z.to_nat (m + 1)) 0)
                 (Z.to_nat <$> train_nid) (wrap64 <$> sub_labels)).
Proof.
  intros Hne Hpos Hlen.
  destruct (np_max_spec train_nid Hne) as (m & Hm & Hin & Hle).
  pose proof (proj1 (Forall_forall _ _) Hpos) as Hpos'.
  pose proof (proj1 (Forall_forall _ _) Hle) as Hle'. simpl in Hpos', Hle'.
  pose proof (Hpos' m Hin) as Hm0.
  exists m. split; [done|]. split; [lia|]. split; [done|].
  unfold build_labels. rewrite Hm. simpl.
  rewrite wrap64_id by (unfold is_int64; lia). unfold np_zeros.
  rewrite decide_False by lia. simpl. unfold np_setitem, broadcast_to.
  rewrite decide_True by done. simpl. rewrite length_replicate.
  replace (mapM _ train_nid) with (Some (Z.to_nat <$> train_nid)); [done|].
  symmetry. apply mapM_Some, Forall2_fmap_r, Forall_Forall2_diag.
  apply Forall_forall. intros i Hi. apply norm_index_nonneg.
  pose proof (Hpos' i Hi). pose proof (Hle' i Hi). lia.
Qed.

End LabelVector.

(** C3.  For a partition that has at least one training node, whose
    training node ids are distinct, not negative and below [2^60 - 1] (an
    [int64] array of [2^60] elements is too big for NumPy), and that has
    one [int64] label per training node, the construction of the label
    vector returns (memory permitting); the vector has one position
    more than the largest training node id; the position of every training
    node holds that node's label; every other position holds zero. *)
Theorem label_vector_layout (train_nid sub_labels : list Z) :
  wf_partition train_nid sub_labels →
  label_vector_laid_out train_nid sub_labels.
Proof.
  intros (Hne & Hpos & Hnd & Hlen & Hint).
  destruct (build_labels_nonneg _ _ Hne Hpos Hlen)
    as (m & Hin & Hm0 & Hle & Hbuild).
  pose proof (proj1 (Forall_forall _ _) Hpos) as Hpos'.
  pose proof (proj1 (Forall_forall _ _) Hle) as Hle'.
  simpl in Hpos', Hle'.
  rewrite (wrap64_fmap_id _ Hint) in Hbuild.
  eexists. split; [exact Hbuild|]. exists m.
  split; [done|]. split; [done|]. split; [|split].
  - rewrite assign_all_length, length_replicate. lia.
  - intros k nid Hk. apply assign_all_in.
    + apply NoDup_fmap_2_strong; [|done]. intros x y Hx Hy Hxy.
      pose proof (Hpos' x Hx). pose proof (Hpos' y Hy). lia.
    + by rewrite length_fmap.
    + by rewrite list_lookup_fmap, Hk.
    + rewrite length_replicate. apply list_elem_of_lookup_2 in Hk.
      pose proof (Hpos' nid Hk). pose proof (Hle' nid Hk). lia.
  - intros p Hp Hnot. rewrite assign_all_length, length_replicate in Hp.
    rewrite assign_all_notin.
    + by apply lookup_replicate_2.
    + intros (i & -> & Hi)%list_elem_of_fmap. apply Hnot.
      pose proof (Hpos' i Hi). rewrite Z2Nat.id; [done|lia].
Qed.

Lemma wf_partition_sample : wf_partition Sample.train_nid Sample.sub_labels.
Proof.
  unfold wf_partition. split; [discriminate|].
  repeat split; apply (bool_decide_unpack _); vm_compute; exact I.
Qed.

Lemma label_vector_layout_witness :
  wf_partition Sample.train_nid Sample.sub_labels
  ∧ label_vector_laid_out Sample.train_nid Sample.sub_labels.
Proof.
  split; [exact wf_partition_sample|].
  apply (label_vector_layout Sample.train_nid Sample.sub_labels).
  exact wf_partition_sample.
Defined.

(** The layout fails for the partitions that the condition of C3 leaves
    out: without a training node and with more labels than nodes no vector
    is built; an id listed twice keeps its last label only; a negative id
    writes from the end of the vector; with the largest [int64] as an id
    the size wraps around to a negative number; and with [2^60 - 1] as an
    id the vector is too big for NumPy. *)
Lemma label_vector_layout_counterexample :
  ¬ label_vector_laid_out [] []
  ∧ ¬ label_vector_laid_out [2; 0; 2] [7; 8; 9]
  ∧ ¬ label_vector_laid_out [-1; 3] [7; 8]
  ∧ ¬ label_vector_laid_out [2 ^ 63 - 1] [1]
  ∧ ¬ label_vector_laid_out [1; 3] [7; 8; 9]
  ∧ ¬ label_vector_laid_out [2 ^ 60 - 1] [1].
Proof.
  repeat split.
  - intros (labels & H & _). discriminate H.
  - intros (labels & H & m & _ & _ & _ & Hat & _).
    vm_compute in H. injection H as <-.
    specialize (Hat 0%nat 2 eq_refl). discriminate Hat.
  - intros (labels & H & m & _ & _ & _ & Hat & _).
    vm_compute in H. injection H as <-.
    specialize (Hat 0%nat (-1) eq_refl). discriminate Hat.
  - intros (labels & H & _). vm_compute in H. discriminate H.
  - intros (labels & H & _). vm_compute in H. discriminate H.
  - intros (labels & H & _). vm_compute in H. discriminate H.
Qed.

(** Every batch of ids drawn from the training ids indexes the label
    vector in bounds. *)
Lemma getitem_in_bounds (train_nid sub_labels labels batch_nids : list Z) :
  train_nid ≠ [] →
  build_labels train_nid sub_labels = Ok labels →
  batch_nids ⊆ train_nid →
  ∃ m label,
    m ∈ train_nid ∧ Forall (λ x, x ≤ m) train_nid
    ∧ m = Z.of_nat (length labels) - 1
    ∧ Forall (λ i, i ≤ m) batch_nids
    ∧ tensor_getitem labels batch_nids = Ok label
    ∧ length label = length batch_nids.
Proof.
  intros Hne Hbuild Hsub.
  destruct (np_max_spec train_nid Hne) as (m & Hm & Hin & Hle).
  apply build_labels_Ok in Hbuild
    as (m' & pos & vs & Hm' & Hm0 & _ & Hpos & _ & ->).
  rewrite Hm in Hm'. injection Hm' as <-.
  set (labels := assign_all (replicate (Z.to_nat (m + 1)) 0) pos (wrap64 <$> vs)).
  assert (length labels = Z.to_nat (m + 1)) as Hlen
    by (unfold labels; by rewrite assign_all_length, length_replicate).
  assert (is_Some (mapM (getitem1 labels) batch_nids)) as [label Hlabel].
  { apply mapM_is_Some, Forall_forall. intros i Hi. simpl.
    apply Hsub, list_elem_of_lookup_1 in Hi as [k Hk].
    apply mapM_Some_1 in Hpos.
    destruct (Forall2_lookup_l _ _ _ _ _ Hpos Hk) as (p & _ & Hp).
    unfold getitem1. rewrite Hlen, Hp. apply lookup_lt_is_Some.
    rewrite Hlen. by eapply norm_index_lt. }
  exists m, label. repeat split; try done.
  - rewrite Hlen. lia.
  - apply Forall_forall. intros i Hi. rewrite Forall_forall in Hle.
    apply Hle, Hsub, Hi.
  - unfold tensor_getitem. by rewrite Hlabel.
  - symmetry. by eapply length_mapM.
Qed.

(** ** Membership in the trace of a sample run *)

Ltac in_events :=
  apply list_elem_of_In; vm_compute; repeat (first [left; reflexivity | right]).

Lemma world_shuffles_sample : world_shuffles Sample.world.
Proof. intros seed h n. simpl. apply reverse_Permutation. Qed.

(** ** A small program logic for traces *)

Section Logic.

Context (w : World).

Lemma bind_unfold {A B : Type} (m : M A) (f : A → M B) (s : State) :
  (m ≫= f) s = match m s with
                | (s1, Ok a) => f a s1
                | (s1, Raise e) => (s1, Raise e)
                end.
Proof. reflexivity. Qed.

#[global] Instance emits_only_compositional P : Compositional (emits_only P).
Proof.
  split.
  - intros s o. exists []. by rewrite app_nil_r.
  - intros s s1 s2 o (tr1 & H1 & HP1) (tr2 & H2 & HP2).
    exists (tr1 ++ tr2). rewrite H2, H1, app_assoc. split; [done|].
    by apply Forall_app.
Qed.

#[global] Instance fatal_compositional : Compositional (fatal w).
Proof.
  split.
  - intros s o. exists []. rewrite app_nil_r. split; [done|].
    intros [|] ???; discriminate.
  - intros s s1 s2 o (tr1 & H1 & F1) (tr2 & H2 & F2).
    exists (tr1 ++ tr2). rewrite H2, H1, app_assoc. split; [done|].
    intros h c rest e Hsplit Hfail.
    apply app_eq_inv in Hsplit as [(k & -> & Hk)|(k & -> & Hk)].
    + destruct k as [|c' k]; simplify_eq/=.
      * rewrite app_nil_r in H1.
        apply (F2 [] c rest e); [done|]. by rewrite app_nil_r, H1.
      * destruct (F1 h c' k e) as [_ ?]; [done|done|done].
    + apply (F2 k c rest e); [done|]. by rewrite H1, <- app_assoc.
Qed.

Section Rules.

Context (Ψ : State → State → option exn → Prop) `{!Compositional Ψ}.

Lemma obeys_ret {A : Type} (a : A) : obeys Ψ (mret a : M A).
Proof. intros s. apply comp_refl. Qed.

Lemma obeys_lift {A : Type} (r : result A) : obeys Ψ (lift r).
Proof. intros s. apply comp_refl. Qed.

Lemma obeys_ask {A : Type} (f : list event → A) : obeys Ψ (ask f).
Proof. intros s. apply comp_refl. Qed.

Lemma obeys_rand_shuffle arr : obeys Ψ (rand_shuffle w arr).
Proof. intros s. apply comp_refl. Qed.

Lemma obeys_bind {A B : Type} (m : M A) (f : A → M B) :
  obeys Ψ m → (∀ a, obeys Ψ (f a)) → obeys Ψ (m ≫= f).
Proof.
  intros Hm Hf s. rewrite bind_unfold. specialize (Hm s).
  destruct (m s) as [s1 [a|e]]; simpl in *; [|done].
  eapply comp_trans; [exact Hm|]. apply Hf.
Qed.

Lemma obeys_for_each {A L : Type} (body : L → A → M L) (l : list A) (acc : L) :
  (∀ acc x, x ∈ l → obeys Ψ (body acc x)) → obeys Ψ (for_each body l acc).
Proof.
  revert acc. induction l as [|x l IH]; intros acc Hbody; simpl.
  - apply obeys_ret.
  - apply obeys_bind; [apply Hbody; left|].
    intros acc'. apply IH. intros ???. apply Hbody. by right.
Qed.

End Rules.

End Logic.

(** ** The structure of the trainer

    Any compositional relation that holds of each single call the trainer
    can make, and of reseeding, holds of the whole trainer. *)

Lemma range_bounds (n x : Z) : x ∈ range n → 0 ≤ x < n.
Proof.
  unfold range. intros (k & -> & Hk)%list_elem_of_fmap.
  apply elem_of_seq in Hk. lia.
Qed.

Ltac structure_step ext_rule :=
  first
    [ apply obeys_ret; solve [apply _]
    | apply obeys_lift; solve [apply _]
    | apply obeys_ask; solve [apply _]
    | apply obeys_rand_shuffle; solve [apply _]
    | apply obeys_bind; [apply _| |intros ?]
    | apply ext_rule
    | case_decide
    | match goal with
      | |- context [let '(_, _) := ?x in _] => destruct x
      end ].

Section Structure.

Context (w : World) (Ψ : State → State → option exn → Prop) `{!Compositional Ψ}.
Context (rank : Z) (args : Args).

Hypothesis call_ok :
  ∀ s e, trainer_event rank args e → Ψ s (log e s) (w_fail w (st_trace s) e).
Hypothesis seed_ok : ∀ s seed, Ψ s (set_seed seed s).1 None.

Lemma obeys_ext e : trainer_event rank args e → obeys Ψ (ext w e).
Proof.
  intros He s. unfold ext. simpl.
  replace (outcome _) with (w_fail w (st_trace s) e); [by apply call_ok|].
  by destruct (w_fail w (st_trace s) e).
Qed.

Lemma obeys_time_time : obeys Ψ (time_time w).
Proof. unfold time_time. repeat structure_step obeys_ext. done. Qed.

Lemma obeys_loss_item : obeys Ψ (loss_item w).
Proof. unfold loss_item. repeat structure_step obeys_ext. done. Qed.

Lemma obeys_init_process world_size backend :
  obeys Ψ (init_process w rank world_size backend).
Proof.
  unfold init_process, manual_seed.
  repeat structure_step obeys_ext; try done.
  intros s. apply seed_ok.
Qed.

Lemma obeys_neighbor_sampler seeds :
  obeys Ψ (neighbor_sampler w (batch_size args) (num_neighbors args)
             (num_hops args) seeds).
Proof.
  unfold neighbor_sampler. repeat structure_step obeys_ext.
  simpl. unfold num_hops. by destruct (preprocess args).
Qed.

Lemma obeys_for_flows {L : Type} (body : L → NodeFlow → M L) flows (acc : L) :
  (∀ acc nf, obeys Ψ (body acc nf)) → obeys Ψ (for_flows w body flows acc).
Proof.
  intros Hbody. revert acc.
  induction flows as [|nf flows IH]; intros acc; simpl.
  - repeat structure_step obeys_ext. done.
  - repeat structure_step obeys_ext; [done|apply Hbody|apply IH].
Qed.

Lemma obeys_train_step labels epoch acc nf :
  obeys Ψ (train_step w rank labels epoch acc nf).
Proof.
  unfold train_step. destruct acc as [step batch_dur].
  repeat first [ apply obeys_time_time | apply obeys_loss_item
               | structure_step obeys_ext ]; done.
Qed.

Lemma obeys_train_epoch labels train_nid acc epoch :
  0 ≤ epoch < n_epochs args →
  obeys Ψ (train_epoch w rank args labels train_nid acc epoch).
Proof.
  intros Hepoch. unfold train_epoch. destruct acc as [epoch_dur batch_dur].
  repeat first [ apply obeys_time_time | apply obeys_neighbor_sampler
               | apply obeys_for_flows; intros; apply obeys_train_step
               | structure_step obeys_ext ];
    try done; simpl.
  all: destruct_and!; split; [done|by exists epoch].
Qed.

Lemma obeys_setup world_size backend :
  obeys Ψ (setup w rank world_size args backend).
Proof.
  unfold setup.
  repeat first [ apply obeys_init_process | structure_step obeys_ext ];
    try done; simpl; by split.
Qed.

Lemma obeys_trainer world_size backend :
  obeys Ψ (trainer w rank world_size args backend).
Proof.
  unfold trainer.
  apply obeys_bind; [apply _|apply obeys_setup|]. intros [labels train_nid].
  apply obeys_bind; [apply _| |intros; apply obeys_ret; apply _].
  apply obeys_for_each; [apply _|]. intros acc epoch Hepoch.
  by apply obeys_train_epoch, range_bounds.
Qed.

End Structure.

(** ** What every run of the trainer satisfies *)

Section EveryRun.

Context (w : World) (rank world_size : Z) (args : Args) (backend : string).

Lemma events_of_extension {A : Type} (m : M A) s tr :
  st_trace (m s).1 = st_trace s ++ tr → events m s = tr.
Proof. intros H. unfold events. by rewrite H, drop_app_length. Qed.

Lemma emits_only_call P s e o : P e → emits_only P s (log e s) o.
Proof. intros He. exists [e]. split; [done|]. by constructor. Qed.

Lemma emits_only_seed P s seed : emits_only P s (set_seed seed s).1 None.
Proof. exists []. simpl. by rewrite app_nil_r. Qed.

Lemma fatal_call s e : fatal w s (log e s) (w_fail w (st_trace s) e).
Proof.
  exists [e]. split; [done|]. intros [|c' h] c rest e' Hsplit Hfail.
  - injection Hsplit as <- <-. by rewrite app_nil_r in Hfail.
  - injection Hsplit as _ Hnil. by destruct h.
Qed.

Lemma fatal_seed s seed : fatal w s (set_seed seed s).1 None.
Proof.
  exists []. simpl. rewrite app_nil_r. split; [done|].
  intros [|] ????; discriminate.
Qed.

(** The trace of a run extends the trace it started from, by calls the
    trainer can make. *)
Lemma trainer_footprint s :
  st_trace (trainer w rank world_size args backend s).1
  = st_trace s ++ events (trainer w rank world_size args backend) s
  ∧ Forall (trainer_event rank args)
      (events (trainer w rank world_size args backend) s).
Proof.
  destruct (obeys_trainer w (emits_only (trainer_event rank args)) rank args
              (λ s e, emits_only_call _ s e _) (emits_only_seed _)
              world_size backend s) as (tr & Htr & HP).
  by rewrite (events_of_extension _ _ _ Htr).
Qed.

Lemma trainer_event_in s e :
  e ∈ events (trainer w rank world_size args backend) s →
  trainer_event rank args e.
Proof.
  intros He. destruct (trainer_footprint s) as [_ HP].
  rewrite Forall_forall in HP. by apply HP.
Qed.

Lemma trainer_fatal s :
  fatal w s (trainer w rank world_size args backend s).1
    (outcome (returns (trainer w rank world_size args backend) s)).
Proof.
  apply (obeys_trainer w (fatal w) rank args).
  - intros ? e _. apply fatal_call.
  - apply fatal_seed.
Qed.

End EveryRun.

(** ** Runs that return *)

Section Returning.

Context (w : World).

Lemma bind_Ok {A B : Type} (m : M A) (f : A → M B) s s' b :
  (m ≫= f) s = (s', Ok b) → ∃ s1 a, m s = (s1, Ok a) ∧ f a s1 = (s', Ok b).
Proof.
  rewrite bind_unfold. destruct (m s) as [s1 [a|e]]; [|done].
  intros H. by exists s1, a.
Qed.

Lemma ret_Ok {A : Type} (a b : A) s s' :
  (mret a : M A) s = (s', Ok b) → s' = s ∧ b = a.
Proof. by intros [= <- <-]. Qed.

Lemma lift_Ok {A : Type} (r : result A) (b : A) s s' :
  lift r s = (s', Ok b) → s' = s ∧ r = Ok b.
Proof. by intros [= <- <-]. Qed.

Lemma ask_Ok {A : Type} (f : list event → A) (b : A) s s' :
  ask f s = (s', Ok b) → s' = s ∧ b = f (st_trace s).
Proof. by intros [= <- <-]. Qed.

Lemma ext_Ok e s s' u : ext w e s = (s', Ok u) → s' = log e s.
Proof. by intros [= <- _]. Qed.

Lemma set_seed_Ok seed s s' u :
  set_seed seed s = (s', Ok u) → st_trace s' = st_trace s ∧ st_seed s' = seed.
Proof. by intros [= <- _]. Qed.

End Returning.

Ltac run_inv :=
  repeat match goal with
    | H : (_ ≫= _) _ = (_, Ok _) |- _ =>
        apply bind_Ok in H as (? & ? & ? & ?)
    | H : ext _ _ _ = (_, Ok _) |- _ => apply ext_Ok in H; subst
    | H : mret _ _ = (_, Ok _) |- _ => apply ret_Ok in H as [-> ?]; simplify_eq
    | H : lift _ _ = (_, Ok _) |- _ => apply lift_Ok in H as [-> ?]
    | H : ask _ _ = (_, Ok _) |- _ => apply ask_Ok in H as [-> ->]
    | H : time_time _ _ = (_, Ok _) |- _ => unfold time_time in H
    | H : loss_item _ _ = (_, Ok _) |- _ => unfold loss_item in H
    end.

Ltac trace_simpl := cbn [log st_trace]; rewrite <- ?app_assoc; cbn [app].

Section ReturningRuns.

Context (w : World).

Lemma loop_filter_steps tr :
  List.filter is_optimizer_step (List.filter loop_event tr)
  = List.filter is_optimizer_step tr.
Proof.
  induction tr as [|e tr IH]; [done|]. simpl.
  destruct e; simpl; by rewrite ?IH.
Qed.

Lemma train_step_Ok rank labels epoch acc nf s s' acc' :
  train_step w rank labels epoch acc nf s = (s', Ok acc') →
  ∃ tr, st_trace s' = st_trace s ++ tr
        ∧ List.filter loop_event tr = [Forward ObjDDP nf; Backward; OptimizerStep].
Proof.
  unfold train_step. destruct acc as [step batch_dur]. intros H.
  run_inv.
  match goal with
  | H : context [decide ?P] |- _ => destruct (decide P)
  end; run_inv; trace_simpl; eexists; (split; [reflexivity|]); done.
Qed.

Lemma for_flows_Ok {L : Type} (body : L → NodeFlow → M L) flows acc s s' acc' :
  (∀ acc nf s s' acc', body acc nf s = (s', Ok acc') →
     ∃ tr, st_trace s' = st_trace s ++ tr
           ∧ List.filter loop_event tr = [Forward ObjDDP nf; Backward; OptimizerStep]) →
  for_flows w body flows acc s = (s', Ok acc') →
  ∃ tr, st_trace s' = st_trace s ++ tr
        ∧ List.filter loop_event tr = epoch_pattern flows.
Proof.
  intros Hbody. revert acc s.
  induction flows as [|nf flows IH]; intros acc s H; simpl in H.
  - run_inv. by exists [SamplerNext None].
  - run_inv.
    match goal with
    | H : body _ _ _ = _ |- _ => apply Hbody in H as (tr1 & Htr1 & Hf1)
    end.
    match goal with
    | H : for_flows _ _ _ _ _ = _ |- _ => apply IH in H as (tr2 & Htr2 & Hf2)
    end.
    exists (SamplerNext (Some nf) :: tr1 ++ tr2). split.
    + rewrite Htr2, Htr1. simpl. by rewrite <- !app_assoc.
    + simpl. by rewrite List.filter_app, Hf1, Hf2.
Qed.

Lemma init_process_Ok rank world_size backend s s' u :
  init_process w rank world_size backend s = (s', Ok u) →
  st_trace s' = st_trace s ++ init_trace rank world_size backend
  ∧ st_seed s' = rank ∧ st_fs s' = st_fs s.
Proof.
  unfold init_process, manual_seed. intros H. run_inv.
  match goal with
  | H : set_seed _ _ = _ |- _ => injection H as <-
  end.
  by trace_simpl.
Qed.

Lemma setup_Ok rank world_size args backend s s' labels train_nid :
  setup w rank world_size args backend s = (s', Ok (labels, train_nid)) →
  ∃ ds, dataset args = Some ds
        ∧ train_nid = w_train_nid w ds rank
        ∧ build_labels train_nid (w_train_labels w ds rank) = Ok labels
        ∧ st_trace s' = st_trace s ++ setup_trace w rank world_size args backend ds.
Proof.
  unfold setup. intros H.
  apply bind_Ok in H as (s1 & u & Hinit & H).
  apply init_process_Ok in Hinit as (Hinit & _ & _).
  apply bind_Ok in H as (s2 & ds & Hds & H).
  apply lift_Ok in Hds as [-> Hds].
  run_inv. exists ds. repeat split.
  - by destruct (dataset args) as [d|]; simplify_eq.
  - done.
  - trace_simpl. rewrite Hinit. unfold setup_trace. by rewrite <- !app_assoc.
Qed.

Lemma rand_shuffle_Ok arr s s' l :
  rand_shuffle w arr s = (s', Ok l) →
  s' = s
  ∧ mapM (λ i : nat, arr !! i)
      (w_randperm w (st_seed s) (st_trace s) (length arr)) = Some l.
Proof.
  unfold rand_shuffle. intros [= <- H]. split; [done|].
  by destruct (mapM _ _); simplify_eq.
Qed.

Lemma neighbor_sampler_Ok batch nbrs hops seeds s s' flows :
  neighbor_sampler w batch nbrs hops seeds s = (s', Ok flows) →
  st_trace s' = st_trace s ++ [NeighborSampler batch nbrs hops seeds]
  ∧ 0 < batch
  ∧ ∃ shuffled,
      mapM (λ i : nat, seeds !! i)
        (w_randperm w (st_seed s)
           (st_trace s ++ [NeighborSampler batch nbrs hops seeds])
           (length seeds)) = Some shuffled
      ∧ flows = sampler_batches (Z.to_nat batch) shuffled.
Proof.
  unfold neighbor_sampler. intros H.
  apply bind_Ok in H as (s1 & u & Hext & H). apply ext_Ok in Hext as ->.
  apply bind_Ok in H as (s2 & shuffled & Hsh & H).
  apply rand_shuffle_Ok in Hsh as [-> Hsh].
  case_decide; [|by apply lift_Ok in H as [_ ?]].
  apply ret_Ok in H as [-> ->]. repeat split; [done|]. by exists shuffled.
Qed.

Lemma shuffled_length (seeds shuffled : list Z) seed h :
  world_shuffles w →
  mapM (λ i : nat, seeds !! i) (w_randperm w seed h (length seeds)) = Some shuffled →
  length shuffled = length seeds.
Proof.
  intros Hw Hsh. apply length_mapM in Hsh. rewrite <- Hsh.
  by rewrite (Permutation_length (Hw seed h (length seeds))), length_seq.
Qed.

Lemma ceil_div_step (n bs : nat) :
  (0 < bs)%nat → (1 ≤ n)%nat →
  S ((n - bs + bs - 1) / bs) = ((n + bs - 1) / bs)%nat.
Proof.
  intros Hbs Hn. destruct (decide (bs ≤ n)%nat) as [Hle|Hgt].
  - replace (n + bs - 1)%nat with ((n - bs + bs - 1) + 1 * bs)%nat by lia.
    rewrite Nat.div_add by lia. lia.
  - replace (n - bs)%nat with 0%nat by lia.
    rewrite (Nat.div_small (0 + bs - 1)) by lia.
    apply (Nat.div_unique _ _ _ (n - 1)); lia.
Qed.

Lemma batches_length fuel bs (seeds : list Z) :
  (0 < bs)%nat → (length seeds ≤ fuel)%nat →
  length (batches fuel bs seeds) = ((length seeds + bs - 1) / bs)%nat.
Proof.
  intros Hbs. revert seeds.
  induction fuel as [|fuel IH]; intros [|x seeds] Hfuel;
    try (simpl; symmetry; apply Nat.div_small; lia).
  { simpl in Hfuel. lia. }
  cbn [batches]. rewrite (length_cons (take bs (x :: seeds))).
  rewrite IH by (rewrite length_drop; simpl in *; lia).
  rewrite length_drop. apply ceil_div_step; [done|simpl; lia].
Qed.

Lemma batches_subseteq fuel bs (seeds b : list Z) :
  b ∈ batches fuel bs seeds → b ⊆ seeds.
Proof.
  revert seeds. induction fuel as [|fuel IH]; intros [|x seeds] Hb;
    simpl in Hb; try by apply elem_of_nil in Hb.
  apply elem_of_cons in Hb as [->|Hb].
  - apply subseteq_take.
  - etrans; [by apply IH|]. apply subseteq_drop.
Qed.

Lemma sampler_batches_length bs seeds :
  (0 < bs)%nat →
  length (sampler_batches bs seeds) = ((length seeds + bs - 1) / bs)%nat.
Proof.
  intros Hbs. unfold sampler_batches. rewrite length_fmap.
  by apply batches_length.
Qed.

Lemma train_epoch_Ok rank args labels train_nid acc epoch s s' acc' :
  train_epoch w rank args labels train_nid acc epoch s = (s', Ok acc') →
  ∃ tr flows,
    st_trace s' = st_trace s ++ tr
    ∧ List.filter loop_event tr = epoch_pattern flows
    ∧ 0 < batch_size args
    ∧ (world_shuffles w →
       length flows
       = ((length train_nid + Z.to_nat (batch_size args) - 1)
          / Z.to_nat (batch_size args))%nat)
    ∧ (rank = 0 → (epoch + 1) `mod` 5 = 0 →
       TorchSave ObjModel (ckpt_path args (epoch + 1)) ∈ tr).
Proof.
  unfold train_epoch. destruct acc as [epoch_dur batch_dur]. intros H.
  apply bind_Ok in H as (s1 & u1 & H1 & H). apply ext_Ok in H1 as ->.
  apply bind_Ok in H as (s2 & t0 & H2 & H).
  unfold time_time in H2. apply bind_Ok in H2 as (s2' & u2 & H2 & H2').
  apply ext_Ok in H2 as ->. apply ask_Ok in H2' as [-> ->].
  apply bind_Ok in H as (s3 & flows & Hs & H).
  apply neighbor_sampler_Ok in Hs as (Hs3 & Hbs & shuffled & Hsh & ->).
  apply bind_Ok in H as (s4 & [step batch_dur'] & Hflows & H).
  apply for_flows_Ok in Hflows as (trf & Hs4 & Hf); [|apply train_step_Ok].
  apply bind_Ok in H as (s5 & epoch_dur' & Hlog & H).
  apply bind_Ok in H as (s6 & u6 & Hsave & H).
  apply ret_Ok in H as [-> ->].
  assert (∃ trl, st_trace s5 = st_trace s4 ++ trl
                 ∧ List.filter loop_event trl = []) as (trl & Hs5 & Hfl).
  { clear Hsave. destruct (decide (rank = 0)); run_inv.
    - eexists. trace_simpl. split; [reflexivity|done].
    - exists []. by rewrite app_nil_r. }
  assert (∃ trs, st_trace s6 = st_trace s5 ++ trs
                 ∧ List.filter loop_event trs = []
                 ∧ (rank = 0 → (epoch + 1) `mod` 5 = 0 →
                    TorchSave ObjModel (ckpt_path args (epoch + 1)) ∈ trs))
    as (trs & Hs6 & Hfs & Hin).
  { clear Hlog.
    destruct (decide ((epoch + 1) `mod` 5 = 0 ∧ rank = 0)) as [Hc|Hc]; run_inv.
    - eexists. trace_simpl. split; [reflexivity|].
      split; [done|]. intros _ _. right. left.
    - exists []. rewrite app_nil_r. repeat split; try done.
      intros ??. by destruct Hc. }
  exists ([TrainMode ObjDDP; Time;
           NeighborSampler (batch_size args) (num_neighbors args)
             (num_hops args) train_nid] ++ trf ++ trl ++ trs),
    (sampler_batches (Z.to_nat (batch_size args)) shuffled).
  repeat split.
  - rewrite Hs6, Hs5, Hs4, Hs3. by trace_simpl.
  - simpl. rewrite !List.filter_app, Hf, Hfl, Hfs. by rewrite !app_nil_r.
  - done.
  - intros Hw. rewrite sampler_batches_length by lia.
    by rewrite (shuffled_length _ _ _ _ Hw Hsh).
  - intros ??. rewrite !elem_of_app. right. right. right. by apply Hin.
Qed.

Lemma for_each_Ok {A L : Type} (body : L → A → M L)
    (Q : A → list event → Prop) l acc s s' acc' :
  (∀ acc x s s' acc', body acc x s = (s', Ok acc') →
     ∃ tr, st_trace s' = st_trace s ++ tr ∧ Q x tr) →
  for_each body l acc s = (s', Ok acc') →
  ∃ trs, st_trace s' = st_trace s ++ concat trs ∧ Forall2 Q l trs.
Proof.
  intros Hbody. revert acc s.
  induction l as [|x l IH]; intros acc s H; simpl in H.
  - apply ret_Ok in H as [-> _]. exists []. simpl. by rewrite app_nil_r.
  - apply bind_Ok in H as (s1 & acc1 & Hx & H).
    apply Hbody in Hx as (tr & Htr & HQ).
    apply IH in H as (trs & Htrs & HQs).
    exists (tr :: trs). split; [|by constructor].
    rewrite Htrs, Htr. simpl. by rewrite <- app_assoc.
Qed.

Lemma trainer_Ok rank world_size args backend s :
  returns (trainer w rank world_size args backend) s = Ok tt →
  ∃ ds trs,
    dataset args = Some ds
    ∧ events (trainer w rank world_size args backend) s
      = setup_trace w rank world_size args backend ds ++ concat trs
    ∧ Forall2 (epoch_run w rank args (length (w_train_nid w ds rank)))
        (range (n_epochs args)) trs.
Proof.
  unfold returns. intros Hret.
  destruct (trainer w rank world_size args backend s) as [s' r] eqn:H.
  simpl in Hret. subst r. pose proof H as Hrun. unfold trainer in H.
  apply bind_Ok in H as (s1 & [labels train_nid] & Hsetup & H).
  apply setup_Ok in Hsetup as (ds & Hds & -> & _ & Hs1).
  apply bind_Ok in H as (s2 & acc' & Hloop & H).
  apply ret_Ok in H as [-> _].
  apply (for_each_Ok _ (epoch_run w rank args (length (w_train_nid w ds rank))))
    in Hloop as (trs & Hs2 & HQ).
  - exists ds, trs. repeat split; try done.
    apply events_of_extension. rewrite Hrun. simpl.
    by rewrite Hs2, Hs1, <- app_assoc.
  - intros acc x s0 s0' acc0 Hx.
    apply train_epoch_Ok in Hx as (tr & flows & ? & ? & ? & ? & ?).
    exists tr. split; [done|]. by exists flows.
Qed.

End ReturningRuns.

(** ** Failures *)

(** The calls of the setup up to the construction of the label vector. *)
Lemma setup_stops_at_labels (w : World) (rank world_size : Z) (args : Args)
    (backend : string) (s : State) (ds : string) (e : exn) :
  dataset args = Some ds →
  build_labels (w_train_nid w ds rank) (w_train_labels w ds rank) = Raise e →
  returns (trainer w rank world_size args backend) s ≠ Ok tt
  ∧ (Print MsgCaching ∉ events (trainer w rank world_size args backend) s)
  ∧ ∀ h rest,
      events (trainer w rank world_size args backend) s
      = h ++ GetSubTrainLabels ds rank :: rest →
      w_fail w (st_trace s ++ h) (GetSubTrainLabels ds rank) = None →
      rest = [] ∧ returns (trainer w rank world_size args backend) s = Raise e.
Proof.
  intros Hds Hbuild.
  unfold events, returns, trainer, setup, init_process, manual_seed, set_seed.
  unfold lift, ext, mbind, M_bind. rewrite Hds, Hbuild.
  cbn [log st_trace st_fs st_seed].
  repeat match goal with
         | |- context [w_fail w ?h ?c] =>
             destruct (w_fail w h c) eqn:?; cbn [log st_trace st_fs st_seed fst snd]
         end;
    rewrite <- ?app_assoc, drop_app_length; cbn [app];
    (split; [done|]);
    (split;
     [intros Hin; repeat (apply elem_of_cons in Hin as [Hin|Hin]; [done|]);
      by apply elem_of_nil in Hin|]);
    intros h rest Hev Hnone;
    repeat (destruct h as [|? h]; simplify_eq/=);
    rewrite <- ?app_assoc in *; cbn [app] in *; (done || congruence).
Qed.

(** The calls of a pass over the node flows up to the label lookup of the
    first node flow. *)
Lemma loop_stops_at_lookup (w : World) (rank : Z) (labels : list Z) (epoch : Z)
    (acc : Z * list float) (nf : NodeFlow) (flows : list NodeFlow)
    (s : State) (e : exn) :
  tensor_getitem labels (nf_seeds nf) = Raise e →
  (∀ acc', returns (for_flows w (train_step w rank labels epoch)
                      (nf :: flows) acc) s ≠ Ok acc')
  ∧ (Forward ObjDDP nf
       ∉ events (for_flows w (train_step w rank labels epoch) (nf :: flows) acc) s)
  ∧ ∀ h rest,
      events (for_flows w (train_step w rank labels epoch) (nf :: flows) acc) s
      = h ++ LayerParentNid nf (-1) :: rest →
      w_fail w (st_trace s ++ h) (LayerParentNid nf (-1)) = None →
      rest = []
      ∧ returns (for_flows w (train_step w rank labels epoch) (nf :: flows) acc) s
        = Raise e.
Proof.
  intros Hlookup. destruct acc as [step batch_dur].
  unfold events, returns. cbn [for_flows]. unfold train_step, time_time, ask.
  unfold lift, ext, mbind, M_bind. rewrite Hlookup.
  cbn [log st_trace st_fs st_seed].
  repeat match goal with
         | |- context [w_fail w ?h ?c] =>
             destruct (w_fail w h c) eqn:?; cbn [log st_trace st_fs st_seed fst snd]
         end;
    rewrite <- ?app_assoc, drop_app_length; cbn [app];
    (split; [done|]);
    (split;
     [intros Hin; repeat (apply elem_of_cons in Hin as [Hin|Hin]; [done|]);
      by apply elem_of_nil in Hin|]);
    intros h rest Hev Hnone;
    repeat (destruct h as [|? h]; simplify_eq/=);
    rewrite <- ?app_assoc in *; cbn [app] in *; (done || congruence).
Qed.

(** C5.  Nothing that raises in a run of the trainer is handled.  When a
    call the trainer makes raises, whether in process initialization,
    partition loading, feature fetching or the training loop, the call is
    the last event of the worker: nothing is retried and nothing is cleaned
    up; and the worker ends with that exception.  The lines of the script
    that raise by themselves end the worker in the same way: without a
    dataset the worker raises [TypeError] right after process
    initialization; when the label vector cannot be built the worker never
    returns and never gets to the line after the construction, and when the
    load of the labels returned it is the last call and the worker ends
    with the exception of the construction; and when the label lookup of a
    node flow raises, the pass over the node flows never returns, never
    runs the forward pass on that node flow, and when the call before
    the lookup returned it is the last one and the pass ends with the
    exception of the lookup, without asking for another node flow. *)
Theorem failure_is_fatal (w : World) (rank world_size : Z) (args : Args)
    (backend : string) (s : State) :
  (∀ h c rest e,
     events (trainer w rank world_size args backend) s = h ++ c :: rest →
     w_fail w (st_trace s ++ h) c = Some e →
     rest = [] ∧ returns (trainer w rank world_size args backend) s = Raise e)
  ∧ (dataset args = None →
     returns (init_process w rank world_size backend) s = Ok tt →
     events (trainer w rank world_size args backend) s
     = init_trace rank world_size backend
     ∧ returns (trainer w rank world_size args backend) s = Raise TypeError)
  ∧ (∀ ds e,
       dataset args = Some ds →
       build_labels (w_train_nid w ds rank) (w_train_labels w ds rank) = Raise e →
       returns (trainer w rank world_size args backend) s ≠ Ok tt
       ∧ (Print MsgCaching
            ∉ events (trainer w rank world_size args backend) s)
       ∧ ∀ h rest,
           events (trainer w rank world_size args backend) s
           = h ++ GetSubTrainLabels ds rank :: rest →
           w_fail w (st_trace s ++ h) (GetSubTrainLabels ds rank) = None →
           rest = []
           ∧ returns (trainer w rank world_size args backend) s = Raise e)
  ∧ (∀ labels epoch acc nf flows s0 e,
       tensor_getitem labels (nf_seeds nf) = Raise e →
       (∀ acc', returns (for_flows w (train_step w rank labels epoch)
                           (nf :: flows) acc) s0 ≠ Ok acc')
       ∧ (Forward ObjDDP nf
            ∉ events (for_flows w (train_step w rank labels epoch)
                        (nf :: flows) acc) s0)
       ∧ ∀ h rest,
           events (for_flows w (train_step w rank labels epoch)
                     (nf :: flows) acc) s0
           = h ++ LayerParentNid nf (-1) :: rest →
           w_fail w (st_trace s0 ++ h) (LayerParentNid nf (-1)) = None →
           rest = []
           ∧ returns (for_flows w (train_step w rank labels epoch)
                        (nf :: flows) acc) s0 = Raise e).
Proof.
  split; [|split; [|split]].
  - intros h c rest e Hev Hfail.
    destruct (trainer_fatal w rank world_size args backend s) as (tr & Htr & F).
    rewrite (events_of_extension _ _ _ Htr) in Hev. subst tr.
    destruct (F h c rest e eq_refl Hfail) as [-> Ho]. split; [done|].
    destruct (returns _ s); simpl in Ho; congruence.
  - intros Hds. unfold events, returns, trainer, setup.
    rewrite Hds, !bind_unfold.
    destruct (init_process w rank world_size backend s) as [s1 [[]|e]] eqn:Hinit;
      [|done].
    intros _. rewrite bind_unfold. unfold lift. cbn [fst snd].
    apply init_process_Ok in Hinit as (-> & _).
    by rewrite drop_app_length.
  - intros ds e. apply setup_stops_at_labels.
  - intros labels epoch acc nf flows s0 e. apply loop_stops_at_lookup.
Qed.

Lemma failure_is_fatal_witness :
  (events (trainer Sample.world_down 0 2 Sample.args "nccl") (Sample.start 42)
   = Sample.before_fetch
     ++ [GetFeatFromServer (w_t2fid Sample.world "data/reddit" 0) "features"]
   ∧ returns (trainer Sample.world_down 0 2 Sample.args "nccl") (Sample.start 42)
     = Raise (ExternalError 1))
  ∧ (events (trainer Sample.world 0 2 Sample.args_no_dataset "nccl")
       (Sample.start 42) = init_trace 0 2 "nccl"
     ∧ returns (trainer Sample.world 0 2 Sample.args_no_dataset "nccl")
         (Sample.start 42) = Raise TypeError)
  ∧ (build_labels (w_train_nid Sample.world_empty "data/reddit" 0)
       (w_train_labels Sample.world_empty "data/reddit" 0) = Raise ValueError
     ∧ returns (trainer Sample.world_empty 0 2 Sample.args "nccl")
         (Sample.start 42) = Raise ValueError)
  ∧ (tensor_getitem [3; 0; 1] [5] = Raise IndexError
     ∧ returns (for_flows Sample.world (train_step Sample.world 0 [3; 0; 1] 0)
                  [{| nf_seeds := [5] |}; {| nf_seeds := [0] |}] (0, []))
         (Sample.start 42) = Raise IndexError).
Proof.
  destruct (failure_is_fatal Sample.world_down 0 2 Sample.args "nccl"
              (Sample.start 42)) as (Hcall & _).
  destruct (failure_is_fatal Sample.world 0 2 Sample.args_no_dataset "nccl"
              (Sample.start 42)) as (_ & Hnone & _).
  destruct (failure_is_fatal Sample.world_empty 0 2 Sample.args "nccl"
              (Sample.start 42)) as (_ & _ & Hlabels & Hlookup).
  split; [|split; [|split]].
  - split; [by vm_compute|].
    apply (Hcall Sample.before_fetch
             (GetFeatFromServer (w_t2fid Sample.world "data/reddit" 0) "features")
             [] (ExternalError 1)); by vm_compute.
  - apply Hnone; [reflexivity|by vm_compute].
  - split; [reflexivity|].
    destruct (Hlabels "data/reddit" ValueError eq_refl eq_refl) as (_ & _ & Hlast).
    apply (Hlast (init_trace 0 2 "nccl"
                    ++ [CreateGraphFromStore "reddit" "shared_mem";
                        GetSubTrainGraph "data/reddit" 0; MakeDGLGraph;
                        GetSubTrainNid "data/reddit" 0]) []);
      by vm_compute.
  - split; [reflexivity|].
    destruct (Hlookup [3; 0; 1] 0 (0, []) {| nf_seeds := [5] |}
                [{| nf_seeds := [0] |}] (Sample.start 42) IndexError eq_refl)
      as (_ & _ & Hlast).
    apply (Hlast [SamplerNext (Some {| nf_seeds := [5] |}); Time;
                  CopyFromParent {| nf_seeds := [5] |}] []); by vm_compute.
Defined.

(** ** Runs in a quiet world

    When no call raises, the shuffle is a permutation, the label vector can
    be built and the batch size is positive, the trainer returns: none of
    its own array accesses is out of bounds. *)

Section QuietRuns.

Context (w : World) (quiet : world_quiet w) (shuffles : world_shuffles w).

Lemma returns_with_ret {A : Type} (Q : A → Prop) (a : A) :
  Q a → returns_with Q (mret a : M A).
Proof. intros HQ s. by exists s, a. Qed.

Lemma returns_with_bind {A B : Type} (Q : A → Prop) (R : B → Prop)
    (m : M A) (f : A → M B) :
  returns_with Q m → (∀ a, Q a → returns_with R (f a)) →
  returns_with R (m ≫= f).
Proof.
  intros Hm Hf s. destruct (Hm s) as (s1 & a & H1 & HQ).
  destruct (Hf a HQ s1) as (s2 & b & H2 & HR).
  exists s2, b. by rewrite bind_unfold, H1.
Qed.

Lemma returns_with_ext e : returns_with (λ _, True) (ext w e).
Proof. intros s. exists (log e s), tt. unfold ext. by rewrite quiet. Qed.

Lemma returns_with_lift {A : Type} (a : A) : returns_with (eq a) (lift (Ok a)).
Proof. intros s. by exists s, a. Qed.

Lemma returns_with_time : returns_with (λ _, True) (time_time w).
Proof.
  intros s. eexists _, _. unfold time_time, ask. rewrite bind_unfold.
  unfold ext. by rewrite quiet.
Qed.

Lemma returns_with_loss_item : returns_with (λ _, True) (loss_item w).
Proof.
  intros s. eexists _, _. unfold loss_item, ask. rewrite bind_unfold.
  unfold ext. by rewrite quiet.
Qed.

Ltac returns_step :=
  first
    [ eapply returns_with_bind; [apply returns_with_ext|intros ? _]
    | eapply returns_with_bind; [apply returns_with_time|intros ? _]
    | eapply returns_with_bind; [apply returns_with_loss_item|intros ? _]
    | apply returns_with_ext
    | by apply returns_with_ret ].

Lemma returns_with_train_step rank labels epoch acc nf label :
  tensor_getitem labels (nf_seeds nf) = Ok label →
  returns_with (λ _, True) (train_step w rank labels epoch acc nf).
Proof.
  intros Hlabel. unfold train_step. destruct acc as [step batch_dur].
  rewrite Hlabel. repeat returns_step.
  eapply returns_with_bind; [apply returns_with_lift|intros ? _].
  repeat returns_step.
  eapply returns_with_bind; [|intros ? _; by apply returns_with_ret].
  case_decide; repeat returns_step.
Qed.

Lemma returns_with_for_flows {L : Type} (body : L → NodeFlow → M L) flows acc :
  (∀ acc nf, nf ∈ flows → returns_with (λ _, True) (body acc nf)) →
  returns_with (λ _, True) (for_flows w body flows acc).
Proof.
  revert acc. induction flows as [|nf flows IH]; intros acc Hbody; simpl.
  - repeat returns_step.
  - returns_step. eapply returns_with_bind; [apply Hbody; left|intros acc' _].
    apply IH. intros ???. apply Hbody. by right.
Qed.

Lemma returns_with_for_each {A L : Type} (body : L → A → M L) l acc :
  (∀ acc x, x ∈ l → returns_with (λ _, True) (body acc x)) →
  returns_with (λ _, True) (for_each body l acc).
Proof.
  revert acc. induction l as [|x l IH]; intros acc Hbody; simpl.
  - by apply returns_with_ret.
  - eapply returns_with_bind; [apply Hbody; left|intros acc' _].
    apply IH. intros ???. apply Hbody. by right.
Qed.

(** The seeds of every node flow the sampler yields are training nodes. *)
Lemma returns_with_neighbor_sampler batch nbrs hops (seeds : list Z) :
  0 < batch →
  returns_with (λ flows, ∀ nf, nf ∈ flows → nf_seeds nf ⊆ seeds)
    (neighbor_sampler w batch nbrs hops seeds).
Proof.
  intros Hbatch. unfold neighbor_sampler. returns_step.
  eapply (returns_with_bind (λ shuffled : list Z, shuffled ⊆ seeds)).
  - intros s. unfold rand_shuffle.
    destruct (mapM (λ i : nat, seeds !! i)
                (w_randperm w (st_seed s) (st_trace s) (length seeds)))
      as [l|] eqn:Hl.
    + exists s, l. split; [done|]. intros x Hx.
      apply mapM_Some_1 in Hl.
      apply list_elem_of_lookup_1 in Hx as [k Hk].
      destruct (Forall2_lookup_r _ _ _ _ _ Hl Hk) as (i & _ & Hi).
      by eapply list_elem_of_lookup_2.
    + apply mapM_None_1, Exists_exists in Hl as (i & Hi & Hnone).
      rewrite (shuffles _ _ _) in Hi. apply elem_of_seq in Hi.
      apply lookup_ge_None in Hnone. lia.
  - intros shuffled Hsub. rewrite decide_True by done.
    apply returns_with_ret. unfold sampler_batches.
    intros nf (b & -> & Hb)%list_elem_of_fmap. simpl.
    etrans; [by eapply batches_subseteq|done].
Qed.

Lemma returns_with_train_epoch rank args labels train_nid sub_labels acc epoch :
  build_labels train_nid sub_labels = Ok labels →
  0 < batch_size args →
  returns_with (λ _, True)
    (train_epoch w rank args labels train_nid acc epoch).
Proof.
  intros Hlabels Hbatch. unfold train_epoch. destruct acc as [epoch_dur batch_dur].
  repeat returns_step.
  eapply returns_with_bind; [by apply returns_with_neighbor_sampler|].
  intros flows Hflows.
  eapply (returns_with_bind (λ _, True)).
  - apply returns_with_for_flows. intros acc nf Hnf.
    destruct (getitem_in_bounds train_nid sub_labels labels (nf_seeds nf))
      as (_ & label & _ & _ & _ & _ & Hl & _);
      [by intros ->|done|by apply Hflows|].
    by eapply returns_with_train_step.
  - intros [step batch_dur'] _.
    eapply (returns_with_bind (λ _, True)).
    + case_decide; repeat returns_step.
    + intros epoch_dur' _.
      eapply (returns_with_bind (λ _, True)); [|intros; by apply returns_with_ret].
      case_decide; repeat returns_step.
Qed.

Lemma returns_with_setup rank world_size args backend ds labels :
  dataset args = Some ds →
  build_labels (w_train_nid w ds rank) (w_train_labels w ds rank) = Ok labels →
  returns_with (eq (labels, w_train_nid w ds rank))
    (setup w rank world_size args backend).
Proof.
  intros Hds Hlabels. unfold setup, init_process, manual_seed.
  rewrite Hds. repeat returns_step.
  eapply (returns_with_bind (λ _, True)).
  { repeat returns_step.
    eapply (returns_with_bind (λ _, True)); [|intros; apply returns_with_ext].
    returns_step. intros s. by eexists _, tt. }
  intros _ _. eapply returns_with_bind; [apply returns_with_lift|intros ? <-].
  repeat returns_step. rewrite Hlabels.
  eapply returns_with_bind; [apply returns_with_lift|intros ? <-].
  repeat returns_step.
Qed.

(** In a quiet world the trainer returns. *)
Lemma trainer_returns rank world_size args backend ds labels s :
  dataset args = Some ds →
  build_labels (w_train_nid w ds rank) (w_train_labels w ds rank) = Ok labels →
  (0 < n_epochs args → 0 < batch_size args) →
  returns (trainer w rank world_size args backend) s = Ok tt.
Proof.
  intros Hds Hlabels Hbatch.
  assert (returns_with (λ _, True) (trainer w rank world_size args backend)) as H.
  { unfold trainer.
    eapply returns_with_bind; [by apply returns_with_setup|intros ? <-].
    eapply (returns_with_bind (λ _, True)); [|intros; by apply returns_with_ret].
    apply returns_with_for_each. intros acc epoch Hepoch%range_bounds.
    eapply returns_with_train_epoch; [done|]. apply Hbatch. lia. }
  unfold returns. destruct (H s) as (s' & [] & -> & _). done.
Qed.

End QuietRuns.

(** ** Label lookups in the training loop *)

(** C9.  An empty array of training node ids makes the construction of the
    label vector raise.  When the array is not empty and the construction
    returns, every batch of ids drawn from the array indexes the label
    vector in bounds: no id exceeds the largest training node id, which is
    the size of the vector minus one, and the lookup returns one label per
    id; so the body of the training loop, run on a node flow whose seeds
    are drawn from the array, returns in every world in which no call
    raises. *)
Theorem label_lookup_in_bounds (train_nid sub_labels : list Z) :
  (train_nid = [] → build_labels train_nid sub_labels = Raise ValueError)
  ∧ (∀ labels batch_nids,
       train_nid ≠ [] →
       build_labels train_nid sub_labels = Ok labels →
       batch_nids ⊆ train_nid →
       (∃ m label,
          m ∈ train_nid ∧ Forall (λ x, x ≤ m) train_nid
          ∧ m = Z.of_nat (length labels) - 1
          ∧ Forall (λ i, i ≤ m) batch_nids
          ∧ tensor_getitem labels batch_nids = Ok label
          ∧ length label = length batch_nids)
       ∧ ∀ w rank epoch acc nf s,
           world_quiet w → nf_seeds nf = batch_nids →
           ∃ acc', returns (train_step w rank labels epoch acc nf) s = Ok acc').
Proof.
  split; [by intros ->|].
  intros labels batch_nids Hne Hbuild Hsub.
  pose proof (getitem_in_bounds _ _ _ _ Hne Hbuild Hsub) as Hget.
  split; [exact Hget|].
  intros w rank epoch acc nf s Hquiet Hnf.
  destruct Hget as (_ & label & _ & _ & _ & _ & Hlabel & _). rewrite <- Hnf in Hlabel.
  destruct (returns_with_train_step w Hquiet rank labels epoch acc nf label Hlabel s)
    as (s' & acc' & H & _).
  exists acc'. unfold returns. by rewrite H.
Qed.

Lemma label_lookup_in_bounds_witness :
  build_labels [] Sample.sub_labels = Raise ValueError
  ∧ (∃ m label,
       m ∈ Sample.train_nid ∧ Forall (λ x, x ≤ m) Sample.train_nid
       ∧ m = Z.of_nat (length [3; 0; 1; 0; 0; 4; 0; 1; 0; 5]) - 1
       ∧ Forall (λ i, i ≤ m) [9; 7]
       ∧ tensor_getitem [3; 0; 1; 0; 0; 4; 0; 1; 0; 5] [9; 7] = Ok label
       ∧ length label = length [9; 7])
  ∧ ∃ acc',
      returns (train_step Sample.world 0 [3; 0; 1; 0; 0; 4; 0; 1; 0; 5] 0
                 (0, []) {| nf_seeds := [9; 7] |}) (Sample.start 42) = Ok acc'.
Proof.
  split.
  - by apply (proj1 (label_lookup_in_bounds [] Sample.sub_labels)).
  - destruct (proj2 (label_lookup_in_bounds Sample.train_nid Sample.sub_labels)
                [3; 0; 1; 0; 0; 4; 0; 1; 0; 5] [9; 7]) as [Hget Hstep].
    + discriminate.
    + reflexivity.
    + intros x Hx. apply list_elem_of_In in Hx. apply list_elem_of_In.
      vm_compute in Hx. vm_compute. tauto.
    + split; [exact Hget|]. apply Hstep; [|reflexivity]. by intros ??.
Defined.

(** ** Seeding *)

Lemma events_same_trace {A B : Type} (m1 : M A) (m2 : M B) (s1 s2 : State) :
  st_trace s1 = st_trace s2 →
  st_trace (m1 s1).1 = st_trace (m2 s2).1 →
  events m1 s1 = events m2 s2.
Proof. unfold events. by intros -> ->. Qed.

(** Process initialization does not look at the generator it finds. *)
Lemma init_process_ignores_seed (w : World) (rank world_size : Z)
    (backend : string) (s1 s2 : State) :
  st_trace s1 = st_trace s2 → st_fs s1 = st_fs s2 →
  (init_process w rank world_size backend s1).2
  = (init_process w rank world_size backend s2).2
  ∧ st_trace (init_process w rank world_size backend s1).1
    = st_trace (init_process w rank world_size backend s2).1
  ∧ ((init_process w rank world_size backend s1).2 = Ok tt →
     (init_process w rank world_size backend s1).1
     = (init_process w rank world_size backend s2).1).
Proof.
  destruct s1 as [tr seed1 fs], s2 as [tr2 seed2 fs2]. simpl.
  intros <- <-.
  unfold init_process, manual_seed, set_seed, ext, mbind, M_bind; simpl.
  repeat match goal with
         | |- context [w_fail w ?h ?e] => destruct (w_fail w h e); simpl
         end; done.
Qed.

(** C2.  Process initialization seeds the generator with the rank and with
    nothing else: when it returns the seed of the generator is the rank,
    and no other seed is ever given in a run of the trainer.  Two workers
    of the same rank in the same world that start with the same trace and
    files but with different generators leave process initialization in
    the same state, generator included, and their runs of the trainer make
    the same calls, the advances of the sampler with the node flows they
    yield among them, with the same outcome. *)
Theorem seed_equals_rank (w : World) (rank world_size : Z) (args : Args)
    (backend : string) (s1 s2 : State) :
  st_trace s1 = st_trace s2 → st_fs s1 = st_fs s2 →
  (returns (init_process w rank world_size backend) s1 = Ok tt →
   st_seed (init_process w rank world_size backend s1).1 = rank
   ∧ (init_process w rank world_size backend s1).1
     = (init_process w rank world_size backend s2).1)
  ∧ (∀ seed, ManualSeed seed ∈ events (trainer w rank world_size args backend) s1
             → seed = rank)
  ∧ events (trainer w rank world_size args backend) s1
    = events (trainer w rank world_size args backend) s2
  ∧ returns (trainer w rank world_size args backend) s1
    = returns (trainer w rank world_size args backend) s2.
Proof.
  intros Htr Hfs.
  destruct (init_process_ignores_seed w rank world_size backend s1 s2 Htr Hfs)
    as (Hr & Ht & Hs).
  split; [|split].
  - unfold returns. intros Hok. split; [|by apply Hs].
    destruct (init_process w rank world_size backend s1) as [s1' r] eqn:H1.
    simpl in Hok. subst r. by apply init_process_Ok in H1 as (_ & ? & _).
  - intros seed Hin. by apply trainer_event_in in Hin.
  - assert (st_trace (trainer w rank world_size args backend s1).1
            = st_trace (trainer w rank world_size args backend s2).1
            ∧ (trainer w rank world_size args backend s1).2
              = (trainer w rank world_size args backend s2).2) as [Ht' Hr'].
    { unfold trainer, setup. rewrite !bind_unfold.
      destruct (init_process w rank world_size backend s1) as [s1' r1].
      destruct (init_process w rank world_size backend s2) as [s2' r2].
      cbn [fst snd] in Hr, Ht, Hs. subst r2. destruct r1 as [[]|e].
      - by rewrite (Hs eq_refl).
      - done. }
    split; [by apply events_same_trace|done].
Qed.

Lemma seed_equals_rank_witness :
  st_trace (Sample.start 42) = st_trace (Sample.start 7)
  ∧ st_seed (init_process Sample.world 1 2 "nccl" (Sample.start 42)).1 = 1
  ∧ events (trainer Sample.world 1 2 Sample.args "nccl") (Sample.start 42)
    = events (trainer Sample.world 1 2 Sample.args "nccl") (Sample.start 7).
Proof.
  split; [reflexivity|].
  destruct (seed_equals_rank Sample.world 1 2 Sample.args "nccl"
              (Sample.start 42) (Sample.start 7) eq_refl eq_refl)
    as (Hinit & _ & Hev & _).
  split; [|exact Hev]. apply Hinit. by vm_compute.
Defined.

(** ** Paths *)

Lemma append_cons (c : ascii) (a b : string) :
  String c a +:+ b = String c (a +:+ b).
Proof. reflexivity. Qed.

Lemma basename_go_after_sep (acc a b : string) :
  Path.basename_go acc (a +:+ String Path.sep b) = Path.basename_go "" b.
Proof.
  revert acc. induction a as [|c a IH]; intros acc; [done|].
  rewrite append_cons. simpl. destruct (Ascii.eqb c Path.sep); apply IH.
Qed.

Lemma append_snoc (acc : string) (c : ascii) (b : string) :
  (acc +:+ String c "") +:+ b = acc +:+ String c b.
Proof.
  induction acc as [|a acc IH]; [done|]. rewrite !append_cons. by f_equal.
Qed.

Lemma append_empty_r (a : string) : a +:+ "" = a.
Proof. induction a as [|c a IH]; [done|]. rewrite append_cons. by f_equal. Qed.

Lemma basename_go_slash_free (acc b : string) :
  slash_free b → Path.basename_go acc b = acc +:+ b.
Proof.
  unfold slash_free. revert acc. induction b as [|c b IH]; intros acc Hfree; simpl.
  - by rewrite append_empty_r.
  - destruct (Ascii.eqb_spec c Path.sep) as [->|Hc].
    + destruct Hfree. by left.
    + rewrite IH; [apply append_snoc|]. intros Hin. apply Hfree. by right.
Qed.

Lemma basename_last_component (dir name : string) :
  slash_free name → Path.basename (dir +:+ String Path.sep name) = name.
Proof.
  intros Hfree. unfold Path.basename.
  by rewrite basename_go_after_sep, basename_go_slash_free.
Qed.

Lemma slash_free_cons (c : ascii) (s : string) :
  c ≠ Path.sep → slash_free s → slash_free (String c s).
Proof. intros Hc Hs [H|H]; [by apply Hc|by apply Hs]. Qed.

Lemma slash_free_app (a b : string) :
  slash_free a → slash_free b → slash_free (a +:+ b).
Proof.
  induction a as [|c a IH]; [done|]. intros Ha Hb. rewrite append_cons.
  apply slash_free_cons.
  - intros ->. apply Ha. by left.
  - apply IH; [|done]. intros H. apply Ha. by right.
Qed.

(** A number in decimal has no separator. *)
Lemma slash_free_pretty_N_go (x : N) (s : string) :
  slash_free s → slash_free (pretty_N_go x s).
Proof.
  revert s. induction (N.lt_wf_0 x) as [x _ IH]; intros s Hs.
  assert (x = 0 ∨ 0 < x)%N as [->|Hx] by lia.
  - by rewrite pretty_N_go_0.
  - rewrite pretty_N_go_step by done. apply IH; [by apply N.div_lt|].
    apply slash_free_cons; [|done].
    unfold pretty_N_char. by repeat case_match.
Qed.

Lemma slash_free_pretty_Z (z : Z) : slash_free (pretty z).
Proof.
  assert (slash_free "") as Hnil by (by intros []).
  assert (∀ x : positive, slash_free (pretty x)) as Hpos.
  { intros x. unfold pretty, pretty_positive, pretty, pretty_N.
    case_decide; [done|]. by apply slash_free_pretty_N_go. }
  destruct z as [|x|x]; unfold pretty, pretty_Z.
  - intros [H|[]]. discriminate H.
  - apply Hpos.
  - apply (slash_free_cons "-"); [done|apply Hpos].
Qed.

Lemma basename_go_after_dir (acc dir name : string) :
  Path.ends_with_sep dir = true →
  Path.basename_go acc (dir +:+ name) = Path.basename_go "" name.
Proof.
  revert acc. induction dir as [|c dir IH]; intros acc Hend; [done|].
  rewrite append_cons. simpl.
  destruct dir as [|c' dir'].
  - simpl in Hend. by rewrite Hend.
  - destruct (Ascii.eqb c Path.sep); by apply IH.
Qed.

(** The path of a checkpoint lies in the checkpoint directory. *)
Lemma ckpt_path_in_dir (args : Args) (epoch1 : Z) :
  ckpt_file_in (ckpt args) epoch1 (ckpt_path args epoch1).
Proof.
  assert (slash_free ("gcn-nssc_" +:+ pretty epoch1)) as Hname.
  { apply slash_free_app; [|apply slash_free_pretty_Z].
    intros H. repeat (destruct H as [H|H]; [discriminate H|]). destruct H. }
  unfold ckpt_file_in, ckpt_path, Path.join.
  change (Path.starts_with_sep ("gcn-nssc_" +:+ pretty epoch1)) with false.
  cbn iota.
  destruct (bool_decide (ckpt args = "")) eqn:Hempty; simpl.
  - apply bool_decide_eq_true in Hempty. rewrite Hempty. split; [auto|].
    unfold Path.basename. by rewrite (basename_go_slash_free "").
  - destruct (Path.ends_with_sep (ckpt args)) eqn:Hend.
    + split; [auto|]. unfold Path.basename.
      rewrite basename_go_after_dir by done.
      by rewrite (basename_go_slash_free "").
    + split; [by left|]. by apply basename_last_component.
Qed.

(** ** Checkpoints *)

Lemma ckpt_path_inj (args : Args) (x y : Z) :
  ckpt_path args x = ckpt_path args y → x = y.
Proof.
  unfold ckpt_path, Path.join. simpl.
  destruct (bool_decide (ckpt args = "") || Path.ends_with_sep (ckpt args));
    intros H; apply (inj (String.app _)) in H.
  - injection H as H. by apply (inj pretty).
  - injection H as H. by apply (inj pretty).
Qed.





(** ** The training loop *)

Lemma setup_trace_no_loop_event (w : World) (rank world_size : Z) (args : Args)
    (backend ds : string) :
  List.filter loop_event (setup_trace w rank world_size args backend ds) = [].
Proof. reflexivity. Qed.

Lemma epoch_runs_flows (w : World) (rank : Z) (args : Args) (n : nat)
    (epochs : list Z) (trs : list (list event)) :
  Forall2 (epoch_run w rank args n) epochs trs →
  ∃ fss : list (list NodeFlow),
    length fss = length epochs
    ∧ List.filter loop_event (concat trs) = fss ≫= epoch_pattern
    ∧ (epochs ≠ [] → 0 < batch_size args)
    ∧ (world_shuffles w →
       Forall (λ fs, length fs
                     = ((n + Z.to_nat (batch_size args) - 1)
                        / Z.to_nat (batch_size args))%nat) fss).
Proof.
  induction 1 as [|epoch tr epochs trs (flows & Hf & Hbs & Hlen & _) _ IH].
  - exists []. by repeat split.
  - destruct IH as (fss & Hfss & Hfs & _ & Hall).
    exists (flows :: fss). split; [|split; [|split]].
    + simpl. by rewrite Hfss.
    + simpl concat. by rewrite List.filter_app, Hf, Hfs.
    + done.
    + intros Hw. constructor; auto.
Qed.

Lemma optimizer_steps_of_pattern (fss : list (list NodeFlow)) :
  length (List.filter is_optimizer_step (fss ≫= epoch_pattern))
  = sum_list (length <$> fss).
Proof.
  induction fss as [|flows fss IH]; [done|].
  change ((flows :: fss) ≫= epoch_pattern)
    with (epoch_pattern flows ++ (fss ≫= epoch_pattern)).
  rewrite List.filter_app, length_app, IH. simpl. f_equal.
  unfold epoch_pattern. rewrite List.filter_app, length_app. simpl.
  rewrite Nat.add_0_r.
  induction flows as [|nf flows IHf]; [done|].
  change ((nf :: flows) ≫= step_pattern)
    with (step_pattern nf ++ (flows ≫= step_pattern)).
  rewrite List.filter_app, length_app, IHf. done.
Qed.

Lemma ceil_div_bounds (n bs : Z) :
  0 < bs → 0 ≤ n →
  let k := (n + bs - 1) `div` bs in (k - 1) * bs < n ≤ k * bs.
Proof.
  intros Hbs Hn k.
  pose proof (Z.div_mod (n + bs - 1) bs ltac:(lia)) as Hdm.
  pose proof (Z.mod_pos_bound (n + bs - 1) bs Hbs) as Hm.
  fold k in Hdm. nia.
Qed.

(** C4.  In a run of the trainer that returns, the loop events of the trace
    are, epoch after epoch, one pass per node flow the sampler yields
    (the sampler is advanced, forward, backward, optimizer step, in that
    order), closed by the advance that finds the sampler exhausted; so the
    optimizer steps are as many as the node flows.  With one epoch they
    are [ceil(n / batch_size)] for the [n] training nodes of the partition,
    whatever the positive batch size. *)
Theorem one_optimizer_step_per_node_flow (w : World) (rank world_size : Z)
    (args : Args) (backend : string) (s : State) :
  returns (trainer w rank world_size args backend) s = Ok tt →
  ∃ (ds : string) (fss : list (list NodeFlow)),
    dataset args = Some ds
    ∧ length fss = Z.to_nat (n_epochs args)
    ∧ List.filter loop_event (events (trainer w rank world_size args backend) s)
      = fss ≫= epoch_pattern
    ∧ length (List.filter is_optimizer_step
                (events (trainer w rank world_size args backend) s))
      = sum_list (length <$> fss)
    ∧ (world_shuffles w → n_epochs args = 1 →
       let n := Z.of_nat (length (w_train_nid w ds rank)) in
       let steps := Z.of_nat (length (List.filter is_optimizer_step
                      (events (trainer w rank world_size args backend) s))) in
       0 < batch_size args
       ∧ steps = (n + batch_size args - 1) `div` batch_size args
       ∧ (steps - 1) * batch_size args < n ≤ steps * batch_size args).
Proof.
  intros Hret.
  destruct (trainer_Ok w rank world_size args backend s Hret)
    as (ds & trs & Hds & Hev & HQ).
  destruct (epoch_runs_flows _ _ _ _ _ _ HQ) as (fss & Hlen & Hf & Hbs & Hall).
  assert (List.filter loop_event (events (trainer w rank world_size args backend) s)
          = fss ≫= epoch_pattern) as Hloop.
  { by rewrite Hev, List.filter_app, setup_trace_no_loop_event, Hf. }
  assert (length (List.filter is_optimizer_step
                    (events (trainer w rank world_size args backend) s))
          = sum_list (length <$> fss)) as Hsteps.
  { by rewrite <- loop_filter_steps, Hloop, optimizer_steps_of_pattern. }
  exists ds, fss. split; [done|]. split.
  { rewrite Hlen. unfold range. by rewrite length_fmap, length_seq. }
  split; [done|]. split; [done|].
  intros Hw H1 n steps. subst steps. rewrite Hsteps. rewrite H1 in *.
  assert (0 < batch_size args) as Hpos by (apply Hbs; by vm_compute).
  split; [done|].
  destruct fss as [|fs [|]]; try done.
  specialize (Hall Hw). rewrite Forall_singleton in Hall.
  assert (Z.of_nat (sum_list (length <$> [fs]))
          = (n + batch_size args - 1) `div` batch_size args) as ->.
  { simpl. rewrite Nat.add_0_r, Hall.
    rewrite Nat2Z.inj_div, Nat2Z.inj_sub, Nat2Z.inj_add by lia.
    by rewrite Z2Nat.id by lia. }
  split; [done|]. apply ceil_div_bounds; lia.
Qed.

Lemma one_optimizer_step_per_node_flow_witness :
  returns (trainer Sample.world 0 2 Sample.args1 "nccl") (Sample.start 42) = Ok tt
  ∧ ∃ (ds : string) (fss : list (list NodeFlow)),
      dataset Sample.args1 = Some ds
      ∧ length fss = Z.to_nat (n_epochs Sample.args1)
      ∧ List.filter loop_event
          (events (trainer Sample.world 0 2 Sample.args1 "nccl") (Sample.start 42))
        = fss ≫= epoch_pattern
      ∧ length (List.filter is_optimizer_step
                  (events (trainer Sample.world 0 2 Sample.args1 "nccl")
                     (Sample.start 42)))
        = sum_list (length <$> fss)
      ∧ (world_shuffles Sample.world → n_epochs Sample.args1 = 1 →
         let n := Z.of_nat (length (w_train_nid Sample.world ds 0)) in
         let steps := Z.of_nat (length (List.filter is_optimizer_step
                        (events (trainer Sample.world 0 2 Sample.args1 "nccl")
                           (Sample.start 42)))) in
         0 < batch_size Sample.args1
         ∧ steps = (n + batch_size Sample.args1 - 1) `div` batch_size Sample.args1
         ∧ (steps - 1) * batch_size Sample.args1 < n
           ≤ steps * batch_size Sample.args1).
Proof.
  split; [by vm_compute|].
  apply (one_optimizer_step_per_node_flow Sample.world 0 2 Sample.args1 "nccl"
           (Sample.start 42)).
  by vm_compute.
Defined.

(** ** Console output *)

(** C6.  In every run of the trainer, a line with the loss and the batch
    timing is printed only by the worker of rank 0 and only with a step
    counter that is a multiple of 20, and a line with the epoch timing is
    printed only by the worker of rank 0; a worker of another rank prints
    neither. *)
Theorem loss_and_timing_only_on_rank0 (w : World) (rank world_size : Z)
    (args : Args) (backend : string) (s : State) :
  (∀ epoch step loss avg,
     Print (MsgBatch epoch step loss avg)
       ∈ events (trainer w rank world_size args backend) s →
     rank = 0 ∧ step `mod` 20 = 0)
  ∧ (∀ avg,
       Print (MsgEpoch avg) ∈ events (trainer w rank world_size args backend) s →
       rank = 0)
  ∧ (rank ≠ 0 →
     ∀ m, Print m ∈ events (trainer w rank world_size args backend) s →
          m = MsgLaunch rank ∨ m = MsgCaching ∨ m = MsgStart).
Proof.
  split; [|split].
  - intros epoch step loss avg Hin. by apply trainer_event_in in Hin.
  - intros avg Hin. by apply trainer_event_in in Hin.
  - intros Hrank m Hin. apply trainer_event_in in Hin.
    destruct m; simpl in Hin; auto; try tauto. left. by f_equal.
Qed.

Lemma loss_and_timing_only_on_rank0_witness :
  Print (MsgBatch 1 20 1 0)
    ∈ events (trainer Sample.world20 0 2 Sample.args20 "nccl") (Sample.start 42)
  ∧ (0 = 0 ∧ 20 `mod` 20 = 0).
Proof.
  assert (Print (MsgBatch 1 20 1 0)
            ∈ events (trainer Sample.world20 0 2 Sample.args20 "nccl")
                (Sample.start 42)) as Hin by in_events.
  split; [exact Hin|].
  exact (proj1 (loss_and_timing_only_on_rank0 Sample.world20 0 2 Sample.args20
                  "nccl" (Sample.start 42)) 1 20 1%float 0%float Hin).
Defined.

(** ** The launcher *)

(** The runs of the launcher, by what the world and the file system say:
    the first call raises; or [os.path.exists] sees nothing at the
    checkpoint path and [os.mkdir] raises; or a directory or a file is
    there, and the workers are spawned; or nothing is there and the
    directory is made. *)
Lemma main_cases (w : World) (args : Args) (s : State) :
  let e1 := SetEnv "CUDA_VISIBLE_DEVICES" (gpu args) in
  let e2 := PathExists (ckpt args) in
  let e3 := Mkdir (ckpt args) in
  let e4 := Spawn (Path.split_len (gpu args)) in
  (events (main w args) s = [e1] ∧ is_Some (outcome (returns (main w args) s))
   ∧ st_fs (main w args s).1 = st_fs s)
  ∨ (events (main w args) s = [e1; e2; e3]
     ∧ is_Some (outcome (returns (main w args) s))
     ∧ (ckpt args = ""
        ∨ st_fs s !! ckpt args = None ∨ st_fs s !! ckpt args = Some Dangling)
     ∧ st_fs (main w args s).1 = st_fs s)
  ∨ (events (main w args) s = [e1; e2; e4]
     ∧ (st_fs s !! ckpt args = Some Dir ∨ st_fs s !! ckpt args = Some File)
     ∧ ckpt args ≠ ""
     ∧ st_fs (main w args s).1 = st_fs s)
  ∨ (events (main w args) s = [e1; e2; e3; e4]
     ∧ st_fs s !! ckpt args = None
     ∧ ckpt args ≠ ""
     ∧ parent_kind (st_fs s) (ckpt args) = Some Dir
     ∧ st_fs (main w args s).1 = <[ckpt args := Dir]> (st_fs s)).
Proof.
  intros e1 e2 e3 e4. subst e1 e2 e3 e4.
  unfold events, returns, main, mkdir, path_exists, create_dir.
  unfold mbind, M_bind, ext, mret, M_ret.
  cbn [log st_trace st_fs st_seed].
  destruct (w_fail w (st_trace s) _) eqn:H1.
  { left. cbn. rewrite drop_app_length. split; [done|]. by split; [eexists|]. }
  assert (bool_decide (ckpt args ≠ "") && visible (st_fs s !! ckpt args) = true
          ∧ (st_fs s !! ckpt args = Some Dir ∨ st_fs s !! ckpt args = Some File)
          ∧ ckpt args ≠ ""
          ∨ bool_decide (ckpt args ≠ "") && visible (st_fs s !! ckpt args) = false
            ∧ (ckpt args = "" ∨ st_fs s !! ckpt args = None
               ∨ st_fs s !! ckpt args = Some Dangling))
    as [(-> & Hthere & Hne)|(-> & Hnot)].
  { destruct (decide (ckpt args = "")) as [Hempty|Hempty].
    - right. rewrite bool_decide_false by (by intros ?). auto.
    - rewrite bool_decide_true by done.
      destruct (st_fs s !! ckpt args) as [[| |]|]; simpl; auto. }
  - cbn [negb]. right; right; left. cbn.
    rewrite <- !app_assoc, drop_app_length. done.
  - cbn [negb].
    destruct (w_fail w _ (Mkdir (ckpt args))) eqn:H3.
    { right; left. cbn. rewrite <- !app_assoc, drop_app_length.
      split; [done|]. split; [by eexists|]. done. }
    cbn [log st_trace st_fs st_seed].
    destruct (decide (ckpt args = "")) as [Hempty|Hempty].
    { right; left. cbn. rewrite <- !app_assoc, drop_app_length.
      split; [done|]. split; [by eexists|]. done. }
    destruct (parent_kind (st_fs s) (ckpt args)) as [[| |]|] eqn:Hparent;
      try (right; left; cbn; rewrite <- !app_assoc, drop_app_length;
           split; [done|]; split; [by eexists|]; done).
    destruct (st_fs s !! ckpt args) as [k|] eqn:Hfs.
    { right; left. cbn. rewrite <- !app_assoc, drop_app_length.
      split; [done|]. split; [by eexists|]. done. }
    right; right; right. cbn. rewrite <- !app_assoc, drop_app_length. done.
Qed.

(** C7.  When the launcher reaches [mp.spawn], spawning is the last thing it
    does.  When nothing was at the checkpoint path before, the launcher has
    made the directory first ([os.mkdir] precedes [mp.spawn] in its trace)
    and the path is a directory; a directory that was there is left as it
    is, and so is a regular file: the launcher makes no directory then and
    spawns the workers all the same.  With a dangling link at the path the
    launcher does not get as far as spawning.  The workers make no
    directory themselves: a worker's only calls on files are the writes of
    the model, each to a checkpoint file directly in the configured
    directory, so they find the directory present when the launcher left
    one there, and not when it left a regular file. *)
Theorem ckpt_dir_made_before_spawn (w : World) (args : Args) (s : State)
    (h : list event) (nprocs : Z) (rest : list event) :
  events (main w args) s = h ++ Spawn nprocs :: rest →
  rest = []
  ∧ (st_fs s !! ckpt args = None →
     Mkdir (ckpt args) ∈ h ∧ st_fs (main w args s).1 !! ckpt args = Some Dir)
  ∧ (st_fs s !! ckpt args = Some Dir →
     (Mkdir (ckpt args) ∉ h)
     ∧ st_fs (main w args s).1 !! ckpt args = Some Dir)
  ∧ (st_fs s !! ckpt args = Some File →
     (Mkdir (ckpt args) ∉ h)
     ∧ st_fs (main w args s).1 !! ckpt args = Some File)
  ∧ st_fs s !! ckpt args ≠ Some Dangling
  ∧ (∀ w' rank backend seed e,
       e ∈ events (trainer w' rank nprocs args backend)
             (spawned (main w args s).1 seed) →
       (∀ p, e ≠ Mkdir p)
       ∧ ∀ o p, e = TorchSave o p →
           o = ObjModel ∧ ∃ epoch1, ckpt_file_in (ckpt args) epoch1 p).
Proof.
  intros Hev.
  assert (∀ w' rank backend seed e,
       e ∈ events (trainer w' rank nprocs args backend)
             (spawned (main w args s).1 seed) →
       (∀ p, e ≠ Mkdir p)
       ∧ ∀ o p, e = TorchSave o p →
           o = ObjModel ∧ ∃ epoch1, ckpt_file_in (ckpt args) epoch1 p) as Hkeep.
  { intros w' rank backend seed e He. apply trainer_event_in in He.
    split; [by intros p ->|]. intros o p ->.
    destruct o; simpl in He; try done.
    destruct He as (_ & epoch & _ & _ & ->).
    split; [done|]. eexists. apply ckpt_path_in_dir. }
  destruct (main_cases w args s)
    as [(H & _)|[(H & _)|[(H & Hfs & _ & Hs')|(H & Hfs & _ & _ & Hs')]]];
    rewrite H in Hev.
  - by destruct h as [|? [|? ?]].
  - by destruct h as [|? [|? [|? [|? ?]]]].
  - destruct h as [|? [|? [|? [|? ?]]]]; simplify_eq/=.
    rewrite Hs'. split; [done|].
    assert (Mkdir (ckpt args)
              ∉ [SetEnv "CUDA_VISIBLE_DEVICES" (gpu args); PathExists (ckpt args)])
      as Hno.
    { intros Hin. repeat (apply elem_of_cons in Hin as [Hin|Hin]); try done.
      by apply elem_of_nil in Hin. }
    split; [intros ?; destruct Hfs; congruence|].
    split; [by intros ?|]. split; [by intros ?|].
    split; [destruct Hfs; congruence|]. exact Hkeep.
  - destruct h as [|? [|? [|? [|? [|? ?]]]]]; simplify_eq/=.
    rewrite Hs', lookup_insert_eq. split; [done|].
    split; [intros _; split; [|done]; right; right; left|].
    split; [intros ?; congruence|]. split; [intros ?; congruence|].
    split; [congruence|]. exact Hkeep.
Qed.

Lemma ckpt_dir_made_before_spawn_witness :
  events (main Sample.world Sample.args) (Sample.start 42)
  = [SetEnv "CUDA_VISIBLE_DEVICES" "0,1"; PathExists "checkpoint";
     Mkdir "checkpoint"] ++ Spawn 2 :: []
  ∧ st_fs (Sample.start 42) !! "checkpoint" = None
  ∧ st_fs (main Sample.world Sample.args (Sample.start 42)).1 !! "checkpoint"
    = Some Dir.
Proof.
  assert (events (main Sample.world Sample.args) (Sample.start 42)
          = [SetEnv "CUDA_VISIBLE_DEVICES" "0,1"; PathExists "checkpoint";
             Mkdir "checkpoint"] ++ Spawn 2 :: []) as Hev by (by vm_compute).
  split; [exact Hev|]. split; [reflexivity|].
  destruct (ckpt_dir_made_before_spawn Sample.world Sample.args (Sample.start 42)
              _ _ _ Hev) as (_ & Hdir & _).
  apply Hdir. reflexivity.
Defined.

(** A regular file at the checkpoint path: it is there for
    [os.path.exists], so the launcher makes no directory and spawns the
    workers; the path is still the file, and the worker of rank 0 writes
    its checkpoint below it. *)
Lemma ckpt_dir_made_before_spawn_counterexample :
  ¬ ckpt_dir_present Sample.world Sample.args Sample.file_at_ckpt
  ∧ events (main Sample.world Sample.args) Sample.file_at_ckpt
    = [SetEnv "CUDA_VISIBLE_DEVICES" "0,1"; PathExists "checkpoint"; Spawn 2]
  ∧ st_fs (main Sample.world Sample.args Sample.file_at_ckpt).1 !! "checkpoint"
    = Some File
  ∧ TorchSave ObjModel "checkpoint/gcn-nssc_5"
      ∈ events (trainer Sample.world 0 2 Sample.args "nccl")
          (spawned (main Sample.world Sample.args Sample.file_at_ckpt).1 0).
Proof.
  assert (events (main Sample.world Sample.args) Sample.file_at_ckpt
          = [SetEnv "CUDA_VISIBLE_DEVICES" "0,1"; PathExists "checkpoint"; Spawn 2])
    as Hev by (by vm_compute).
  assert (st_fs (main Sample.world Sample.args Sample.file_at_ckpt).1
            !! "checkpoint" = Some File) as Hfile by (by vm_compute).
  split; [|split; [exact Hev|split; [exact Hfile|]]].
  - intros Hclaim.
    specialize (Hclaim [SetEnv "CUDA_VISIBLE_DEVICES" "0,1";
                        PathExists "checkpoint"] 2 [] Hev).
    enough (@Some fkind Dir = Some File) by done.
    etrans; [symmetry; exact Hclaim|exact Hfile].
  - in_events.
Qed.

(** ** Sampling depth *)

(** C8.  The number of hops is the number of layers whatever the
    preprocessing flag says, and every neighbour sampler a run of the
    trainer builds is given that number of hops. *)
Theorem num_hops_ignores_preprocess (w : World) (rank world_size : Z)
    (args : Args) (backend : string) (s : State) :
  num_hops args = n_layers args
  ∧ ∀ batch nbrs hops seeds,
      NeighborSampler batch nbrs hops seeds
        ∈ events (trainer w rank world_size args backend) s →
      hops = n_layers args.
Proof.
  split.
  - unfold num_hops. by destruct (preprocess args).
  - intros batch nbrs hops seeds Hin.
    by apply trainer_event_in in Hin as (_ & _ & ?).
Qed.

Lemma num_hops_ignores_preprocess_witness :
  preprocess Sample.args20 = true
  ∧ NeighborSampler 1 2 1 (Z.of_nat <$> seq 0 20)
      ∈ events (trainer Sample.world20 0 2 Sample.args20 "nccl") (Sample.start 42)
  ∧ 1 = n_layers Sample.args20.
Proof.
  assert (NeighborSampler 1 2 1 (Z.of_nat <$> seq 0 20)
            ∈ events (trainer Sample.world20 0 2 Sample.args20 "nccl")
                (Sample.start 42)) as Hin by in_events.
  split; [reflexivity|]. split; [exact Hin|].
  exact (proj2 (num_hops_ignores_preprocess Sample.world20 0 2 Sample.args20
                  "nccl" (Sample.start 42)) _ _ _ _ Hin).
Defined.

(** ** The inference model *)

Lemma trainer_after_setup (w : World) (rank world_size : Z) (args : Args)
    (backend : string) (s : State) (lt : list Z * list Z) :
  returns (setup w rank world_size args backend) s = Ok lt →
  ∃ ds tr,
    dataset args = Some ds
    ∧ events (trainer w rank world_size args backend) s
      = setup_trace w rank world_size args backend ds ++ tr.
Proof.
  unfold returns. intros Hret.
  destruct (setup w rank world_size args backend s) as [s1 r] eqn:Hsetup.
  simpl in Hret. subst r. destruct lt as [labels train_nid].
  pose proof Hsetup as Hs1.
  apply setup_Ok in Hs1 as (ds & Hds & -> & _ & Hs1).
  assert (obeys (emits_only (λ _, True))
            (for_each (train_epoch w rank args labels (w_train_nid w ds rank))
               (range (n_epochs args)) ([], []) ≫= λ _, mret tt)) as Hloop.
  { apply obeys_bind; [apply _| |intros; apply obeys_ret; apply _].
    apply obeys_for_each; [apply _|]. intros acc epoch Hepoch.
    apply (obeys_train_epoch w _ rank args).
    - intros. by apply emits_only_call.
    - by apply range_bounds. }
  destruct (Hloop s1) as (tr & Htr & _).
  exists ds, tr. split; [done|]. apply events_of_extension.
  unfold trainer. rewrite bind_unfold, Hsetup.
  by rewrite Htr, Hs1, <- app_assoc.
Qed.

(** C10.  No call of a run of the trainer invokes the inference model,
    switches its mode, optimizes, wraps or saves it; and whenever the setup
    returns, so that the training loop is reached, the inference model has
    been constructed and moved to the device of the worker. *)
Theorem infer_model_built_never_used (w : World) (rank world_size : Z)
    (args : Args) (backend : string) (s : State) :
  (∀ e, e ∈ events (trainer w rank world_size args backend) s →
        ¬ uses_infer_model e)
  ∧ (∀ lt, returns (setup w rank world_size args backend) s = Ok lt →
       ConstructGCNInfer (feat_size args) (n_hidden args) (n_classes args)
         (n_layers args) ∈ events (trainer w rank world_size args backend) s
       ∧ ModuleCuda ObjInferModel rank
           ∈ events (trainer w rank world_size args backend) s).
Proof.
  split.
  - intros e Hin%trainer_event_in Huse.
    destruct e; simpl in *; try done;
      match goal with o : obj |- _ => destruct o end; simpl in *;
      try done; by destruct Hin.
  - intros lt Hret.
    destruct (trainer_after_setup w rank world_size args backend s lt Hret)
      as (ds & tr & _ & ->).
    split; apply elem_of_app; left; unfold setup_trace;
      apply elem_of_app; right; apply list_elem_of_In; simpl; tauto.
Qed.

Lemma infer_model_built_never_used_witness :
  returns (setup Sample.world 0 2 Sample.args "nccl") (Sample.start 42)
  = Ok ([3; 0; 1; 0; 0; 4; 0; 1; 0; 5], Sample.train_nid)
  ∧ ConstructGCNInfer 300 32 60 1
      ∈ events (trainer Sample.world 0 2 Sample.args "nccl") (Sample.start 42)
  ∧ ModuleCuda ObjInferModel 0
      ∈ events (trainer Sample.world 0 2 Sample.args "nccl") (Sample.start 42).
Proof.
  assert (returns (setup Sample.world 0 2 Sample.args "nccl") (Sample.start 42)
          = Ok ([3; 0; 1; 0; 0; 4; 0; 1; 0; 5], Sample.train_nid)) as Hret
    by (by vm_compute).
  split; [exact Hret|].
  exact (proj2 (infer_model_built_never_used Sample.world 0 2 Sample.args "nccl"
                  (Sample.start 42)) _ Hret).
Defined.

(** * Further properties *)

(** ** The label vector, beyond well-formed partitions *)

Section LabelVectorMore.

Implicit Types (a vals labels train_nid sub_labels batch_nids : list Z).
Implicit Types (idx : list nat).

Lemma assign_all_last a idx vals (k i : nat) :
  length idx = length vals → idx !! k = Some i → i ∉ drop (S k) idx →
  (i < length a)%nat →
  assign_all a idx vals !! i = vals !! k.
Proof.
  revert a vals k.
  induction idx as [|j idx IH]; intros a [|v vals] k Hlen Hk Hlast Hi;
    simplify_eq/=.
  destruct k as [|k]; simplify_eq/=.
  - rewrite assign_all_notin by done. by apply list_lookup_insert_eq.
  - apply IH; try done. by rewrite length_insert.
Qed.

Lemma assign_all_elem a idx vals (x : Z) :
  x ∈ assign_all a idx vals → x ∈ a ∨ x ∈ vals.
Proof.
  revert a vals. induction idx as [|i idx IH]; intros a [|v vals] Hx;
    simpl in Hx; auto.
  apply IH in Hx as [Hx|Hx].
  - apply list_elem_of_lookup_1 in Hx as [p Hp].
    destruct (decide (p = i)) as [->|Hne].
    + destruct (decide (i < length a)%nat).
      * rewrite list_lookup_insert_eq in Hp by done. simplify_eq. right. left.
      * rewrite list_insert_ge in Hp by lia. left.
        by eapply list_elem_of_lookup_2.
    + rewrite list_lookup_insert_ne in Hp by done. left.
      by eapply list_elem_of_lookup_2.
  - right. by right.
Qed.

Lemma broadcast_to_Ok k vals vs :
  broadcast_to k vals = Ok vs →
  length vs = k ∧ (∀ x, x ∈ vs → x ∈ vals)
  ∧ (length vals = k ∨ length vals = 1%nat).
Proof.
  unfold broadcast_to. case_decide.
  - intros [= <-]. auto.
  - destruct vals as [|v [|]]; try done. intros [= <-].
    rewrite length_replicate. split; [done|]. split; [|by right].
    intros x [-> _]%elem_of_replicate. left.
Qed.

End LabelVectorMore.

(** X1.  Looking the training node ids of a well-formed partition (ids
    distinct, not negative and below [2^60 - 1]; one [int64] label per id)
    up in the label vector built from it gives back the labels of the
    partition, in order. *)
Theorem labels_round_trip (train_nid sub_labels : list Z) :
  wf_partition train_nid sub_labels →
  ∃ labels,
    build_labels train_nid sub_labels = Ok labels
    ∧ tensor_getitem labels train_nid = Ok sub_labels.
Proof.
  intros (Hne & Hpos & Hnd & Hlen & Hint).
  destruct (build_labels_nonneg _ _ Hne Hpos Hlen)
    as (m & _ & Hm & Hle & Hbuild).
  rewrite (wrap64_fmap_id _ Hint) in Hbuild.
  eexists. split; [exact Hbuild|].
  set (labels := assign_all _ _ _).
  assert (length labels = Z.to_nat (m + 1)) as Hlabels
    by (unfold labels; by rewrite assign_all_length, length_replicate).
  unfold tensor_getitem.
  replace (mapM (getitem1 labels) train_nid) with (Some sub_labels); [done|].
  symmetry. apply mapM_Some, Forall2_same_length_lookup. split; [done|].
  intros k nid v Hk Hv.
  pose proof (proj1 (Forall_forall _ _) Hpos nid (list_elem_of_lookup_2 _ _ _ Hk)).
  pose proof (proj1 (Forall_forall _ _) Hle nid (list_elem_of_lookup_2 _ _ _ Hk)).
  simpl in *. unfold getitem1. rewrite norm_index_nonneg by lia.
  unfold labels. rewrite <- Hv. apply assign_all_in.
  - apply NoDup_fmap_2_strong; [|done]. intros x y Hx Hy Hxy.
    pose proof (proj1 (Forall_forall _ _) Hpos x Hx).
    pose proof (proj1 (Forall_forall _ _) Hpos y Hy). simpl in *. lia.
  - by rewrite length_fmap.
  - by rewrite list_lookup_fmap, Hk.
  - rewrite length_replicate. lia.
Qed.

Lemma labels_round_trip_witness :
  wf_partition Sample.train_nid Sample.sub_labels
  ∧ ∃ labels,
      build_labels Sample.train_nid Sample.sub_labels = Ok labels
      ∧ tensor_getitem labels Sample.train_nid = Ok Sample.sub_labels.
Proof.
  split; [exact wf_partition_sample|].
  apply (labels_round_trip Sample.train_nid Sample.sub_labels).
  exact wf_partition_sample.
Defined.

(** X2.  When the array of training node ids, an [int64] array, is not
    empty and [m] is its largest id, the construction of the label vector
    raises [ValueError] exactly when [m < -1], or [2^60 - 1 <= m] (a vector
    of [2^60] elements and more is too big for NumPy, and for the largest
    [int64] the size [m + 1] wraps around to a negative number), or the
    labels do not fit the shape of the ids; it raises [IndexError] exactly
    when none of these holds and some id lies below [-(m + 1)]; and it
    returns (memory permitting) exactly when the shape fits,
    [m < 2^60 - 1] and no id lies below [-(m + 1)]. *)
Theorem build_labels_outcome (train_nid sub_labels : list Z) (m : Z) :
  Forall is_int64 train_nid →
  np_max train_nid = Ok m →
  (build_labels train_nid sub_labels = Raise ValueError
   ↔ m < -1 ∨ 2 ^ 60 - 1 ≤ m ∨ ¬ shape_ok train_nid sub_labels)
  ∧ (build_labels train_nid sub_labels = Raise IndexError
     ↔ -1 ≤ m < 2 ^ 60 - 1 ∧ shape_ok train_nid sub_labels
       ∧ Exists (λ i, i < - (m + 1)) train_nid)
  ∧ ((∃ labels, build_labels train_nid sub_labels = Ok labels)
     ↔ shape_ok train_nid sub_labels ∧ m < 2 ^ 60 - 1
       ∧ Forall (λ i, - (m + 1) ≤ i) train_nid).
Proof.
  intros Hint Hm.
  assert (train_nid ≠ []) as Hne by (by intros ->).
  destruct (np_max_spec train_nid Hne) as (m' & Hm' & Hin & Hle).
  rewrite Hm in Hm'. injection Hm' as <-.
  pose proof (proj1 (Forall_forall _ _) Hle) as Hle'. simpl in Hle'.
  pose proof (proj1 (Forall_forall _ _) Hint m Hin) as Hm64.
  unfold is_int64 in Hm64.
  destruct (decide (2 ^ 60 - 1 ≤ m)) as [Hbig|Hsmall].
  { assert (build_labels train_nid sub_labels = Raise ValueError) as ->.
    { unfold build_labels. rewrite Hm. simpl.
      destruct (decide (m = 2 ^ 63 - 1)) as [->|Hmax].
      - assert (wrap64 (2 ^ 63 - 1 + 1) = - 2 ^ 63) as -> by (by vm_compute).
        unfold np_zeros. by rewrite decide_True by lia.
      - rewrite wrap64_id by (unfold is_int64; lia).
        unfold np_zeros. by rewrite decide_True by lia. }
    split; [|split].
    - split; [intros _; right; by left|done].
    - split; [done|]. intros ([_ ?] & _). lia.
    - split; [by intros [? ?]|]. intros (_ & ? & _). lia. }
  assert (∀ i, i ∈ train_nid → 0 ≤ m + 1 →
            (norm_index (Z.to_nat (m + 1)) i = None ↔ i < - (m + 1))) as Hnorm.
  { intros i Hi H0. pose proof (Hle' i Hi). unfold norm_index.
    repeat case_decide; split; intros; try done; lia. }
  unfold build_labels. rewrite Hm. simpl.
  rewrite wrap64_id by (unfold is_int64; lia). unfold np_zeros.
  destruct (decide (m + 1 < 0 ∨ 2 ^ 60 ≤ m + 1)) as [Hneg|Hnonneg]; simpl.
  { split; [|split].
    - split; [intros _; left; lia|done].
    - split; [done|]. intros (? & _). lia.
    - split; [by intros [? ?]|]. intros (_ & _ & Hall).
      pose proof (proj1 (Forall_forall _ _) Hall m Hin). simpl in *. lia. }
  unfold np_setitem. rewrite length_replicate.
  destruct (broadcast_to (length train_nid) sub_labels) as [vs|e] eqn:Hvs; simpl.
  - apply broadcast_to_Ok in Hvs as (_ & _ & Hshape).
    assert (shape_ok train_nid sub_labels) as Hok by exact Hshape.
    destruct (mapM (norm_index (Z.to_nat (m + 1))) train_nid) as [pos|] eqn:Hpos.
    + assert (Forall (λ i, - (m + 1) ≤ i) train_nid) as Hall.
      { apply Forall_forall. intros i Hi.
        destruct (decide (i < - (m + 1))) as [Hlt|]; [|lia].
        apply Hnorm in Hlt; [|done|lia].
        apply mapM_Some_1 in Hpos.
        apply list_elem_of_lookup_1 in Hi as [k Hk].
        destruct (Forall2_lookup_l _ _ _ _ _ Hpos Hk) as (? & _ & ?). congruence. }
      split; [|split].
      * split; [done|]. intros [?|[?|?]]; [lia|lia|done].
      * split; [done|]. intros (_ & _ & Hex).
        apply Exists_exists in Hex as (i & Hi & Hlt).
        pose proof (proj1 (Forall_forall _ _) Hall i Hi). simpl in *. lia.
      * split; [|by eexists]. intros _. repeat split; [done|lia|done].
    + assert (Exists (λ i, i < - (m + 1)) train_nid) as Hex.
      { apply mapM_None_1, Exists_exists in Hpos as (i & Hi & Hnone).
        apply Exists_exists. exists i. split; [done|].
        apply Hnorm; [done|lia|done]. }
      split; [|split].
      * split; [done|]. intros [?|[?|?]]; [lia|lia|done].
      * split; [|done]. intros _. repeat split; [lia|lia|done|done].
      * split; [by intros [? ?]|]. intros (_ & _ & Hall).
        apply Exists_exists in Hex as (i & Hi & Hlt).
        pose proof (proj1 (Forall_forall _ _) Hall i Hi). simpl in *. lia.
  - assert (e = ValueError ∧ ¬ shape_ok train_nid sub_labels) as [-> Hbad].
    { unfold broadcast_to in Hvs. case_decide; [done|].
      destruct sub_labels as [|v [|]]; simplify_eq/=;
        (split; [done|]); intros [?|?]; simpl in *; lia. }
    split; [|split].
    + split; [intros _; right; by right|done].
    + split; [done|]. by intros (_ & ? & _).
    + split; [by intros [? ?]|]. by intros [? _].
Qed.

Lemma build_labels_outcome_witness :
  Forall is_int64 [-3; 2 ^ 63 - 1]
  ∧ np_max [-3; 2 ^ 63 - 1] = Ok (2 ^ 63 - 1)
  ∧ (build_labels [-3; 2 ^ 63 - 1] [7; 8] = Raise ValueError
     ↔ 2 ^ 63 - 1 < -1 ∨ 2 ^ 60 - 1 ≤ 2 ^ 63 - 1
       ∨ ¬ shape_ok [-3; 2 ^ 63 - 1] [7; 8]).
Proof.
  assert (Forall is_int64 [-3; 2 ^ 63 - 1]) as Hint.
  { apply (bool_decide_unpack _). vm_compute. exact I. }
  split; [exact Hint|]. split; [reflexivity|].
  exact (proj1 (build_labels_outcome [-3; 2 ^ 63 - 1] [7; 8] (2 ^ 63 - 1)
                  Hint eq_refl)).
Defined.

(** X3.  When an id is listed more than once, the label of its last
    listing stays in the label vector: for non-negative ids with one label
    each, the position of an id holds the label at the last index at which
    the id is listed, as the [int64] it is stored as; a label that is an
    [int64] is held as it is. *)
Theorem repeated_id_keeps_last_label (train_nid sub_labels labels : list Z)
    (k : nat) (nid : Z) :
  Forall (λ i, 0 ≤ i) train_nid →
  length sub_labels = length train_nid →
  build_labels train_nid sub_labels = Ok labels →
  train_nid !! k = Some nid →
  nid ∉ drop (S k) train_nid →
  labels !! Z.to_nat nid = wrap64 <$> sub_labels !! k
  ∧ (Forall is_int64 sub_labels → labels !! Z.to_nat nid = sub_labels !! k).
Proof.
  intros Hpos Hlen Hbuild Hk Hlast.
  assert (train_nid ≠ []) as Hne by (by intros ->).
  assert (Forall (λ i, 0 ≤ i < 2 ^ 60 - 1) train_nid) as Hpos64.
  { destruct (np_max_spec train_nid Hne) as (m & Hm & _ & Hle).
    pose proof (build_labels_size _ _ _ _ Hbuild Hm) as H64.
    apply Forall_forall. intros i Hi.
    pose proof (proj1 (Forall_forall _ _) Hpos i Hi).
    pose proof (proj1 (Forall_forall _ _) Hle i Hi). simpl in *. lia. }
  destruct (build_labels_nonneg _ _ Hne Hpos64 Hlen)
    as (m & _ & Hm & Hle & Hform).
  rewrite Hform in Hbuild. injection Hbuild as <-.
  pose proof (proj1 (Forall_forall _ _) Hpos) as Hpos'. simpl in Hpos'.
  pose proof (proj1 (Forall_forall _ _) Hle nid (list_elem_of_lookup_2 _ _ _ Hk)).
  pose proof (Hpos' nid (list_elem_of_lookup_2 _ _ _ Hk)). simpl in *.
  assert (assign_all (replicate (Z.to_nat (m + 1)) 0) (Z.to_nat <$> train_nid)
            (wrap64 <$> sub_labels) !! Z.to_nat nid
          = wrap64 <$> sub_labels !! k) as Hat.
  { rewrite <- list_lookup_fmap. apply assign_all_last.
    - by rewrite !length_fmap.
    - by rewrite list_lookup_fmap, Hk.
    - rewrite <- fmap_drop. intros (j & Hj & Hin)%list_elem_of_fmap.
      apply Hlast. replace nid with j; [done|].
      assert (0 ≤ j) by (apply Hpos'; eapply (subseteq_drop (S k)); exact Hin).
      lia.
    - rewrite length_replicate. lia. }
  split; [exact Hat|].
  intros Hint. rewrite Hat. by rewrite <- list_lookup_fmap, wrap64_fmap_id.
Qed.

Lemma repeated_id_keeps_last_label_witness :
  build_labels [2; 0; 2] [7; 8; 2 ^ 63] = Ok [8; 0; - 2 ^ 63]
  ∧ [8; 0; - 2 ^ 63] !! Z.to_nat 2 = wrap64 <$> [7; 8; 2 ^ 63] !! 2%nat.
Proof.
  assert (build_labels [2; 0; 2] [7; 8; 2 ^ 63] = Ok [8; 0; - 2 ^ 63]) as Hbuild
    by (by vm_compute).
  split; [exact Hbuild|].
  apply (repeated_id_keeps_last_label [2; 0; 2] [7; 8; 2 ^ 63] [8; 0; - 2 ^ 63]
           2 2).
  - apply (bool_decide_unpack _). vm_compute. exact I.
  - reflexivity.
  - exact Hbuild.
  - reflexivity.
  - simpl. apply not_elem_of_nil.
Defined.

(** X4.  Whenever the label vector is built, each of its entries is an
    [int64], and it is zero or one of the labels handed in, cast to
    [int64]; so when the labels handed in are [int64]s, it is zero or one
    of them. *)
Theorem labels_are_zero_or_given (train_nid sub_labels labels : list Z) (x : Z) :
  build_labels train_nid sub_labels = Ok labels →
  x ∈ labels →
  is_int64 x
  ∧ (x = 0 ∨ ∃ v, v ∈ sub_labels ∧ x = wrap64 v)
  ∧ (Forall is_int64 sub_labels → x = 0 ∨ x ∈ sub_labels).
Proof.
  intros Hbuild Hx.
  apply build_labels_Ok in Hbuild as (m & pos & vs & _ & _ & _ & _ & Hvs & ->).
  apply broadcast_to_Ok in Hvs as (_ & Hsub & _).
  assert (x = 0 ∨ ∃ v, v ∈ sub_labels ∧ x = wrap64 v) as Hcases.
  { apply assign_all_elem in Hx as [Hx|Hx].
    - left. by apply elem_of_replicate in Hx as [-> _].
    - right. apply list_elem_of_fmap in Hx as (v & -> & Hv).
      exists v. split; [by apply Hsub|done]. }
  split; [|split; [exact Hcases|]].
  - destruct Hcases as [->|(v & _ & ->)]; [by vm_compute|apply wrap64_int64].
  - intros Hint. destruct Hcases as [->|(v & Hv & ->)]; [by left|right].
    rewrite wrap64_id; [done|].
    by apply (proj1 (Forall_forall _ _) Hint).
Qed.

Lemma labels_are_zero_or_given_witness :
  build_labels [0; 1] [2 ^ 63; 4] = Ok [- 2 ^ 63; 4]
  ∧ - 2 ^ 63 ∈ [- 2 ^ 63; 4]
  ∧ is_int64 (- 2 ^ 63)
  ∧ (- 2 ^ 63 = 0 ∨ ∃ v, v ∈ [2 ^ 63; 4] ∧ - 2 ^ 63 = wrap64 v).
Proof.
  assert (build_labels [0; 1] [2 ^ 63; 4] = Ok [- 2 ^ 63; 4]) as Hbuild
    by (by vm_compute).
  assert (- 2 ^ 63 ∈ [- 2 ^ 63; 4]) as Hin by left.
  split; [exact Hbuild|]. split; [exact Hin|].
  destruct (labels_are_zero_or_given [0; 1] [2 ^ 63; 4] [- 2 ^ 63; 4]
              (- 2 ^ 63) Hbuild Hin) as (H64 & Hcases & _).
  by split.
Defined.

(** ** The module search path *)

Section Strings.

Implicit Types (p s needle hay pre post : string).

Lemma is_prefix_spec p s :
  Str.is_prefix p s = true ↔ ∃ r, s = p +:+ r.
Proof.
  revert s. induction p as [|a p IH]; intros s; simpl.
  - split; [intros _; by exists s|done].
  - destruct s as [|b s]; simpl.
    + split; [done|]. by intros [r ?].
    + rewrite andb_true_iff, Ascii.eqb_eq, IH. split.
      * intros [-> [r ->]]. by exists r.
      * intros [r [= -> ->]]. split; [done|]. by exists r.
Qed.

Lemma length_app_str pre post :
  String.length (pre +:+ post)
  = (String.length pre + String.length post)%nat.
Proof. induction pre as [|c pre IH]; simpl; [done|]. by rewrite IH. Qed.

Lemma take_app_length pre post :
  Str.take (String.length pre) (pre +:+ post) = pre.
Proof. induction pre as [|c pre IH]; simpl; [by destruct post|]. by rewrite IH. Qed.

(** [find] returns the length of the shortest text before an occurrence,
    and [-1] exactly when there is no occurrence. *)
Lemma find_spec needle hay :
  (Str.find needle hay = -1 ∧ ∀ pre post, hay ≠ pre +:+ needle +:+ post)
  ∨ (∃ pre post,
       hay = pre +:+ needle +:+ post
       ∧ Str.find needle hay = Z.of_nat (String.length pre)
       ∧ ∀ pre' post', hay = pre' +:+ needle +:+ post' →
           (String.length pre ≤ String.length pre')%nat).
Proof.
  induction hay as [|c hay IH]; simpl.
  - destruct (Str.is_prefix needle "") eqn:Hp.
    + right. apply is_prefix_spec in Hp as [r Hr]. exists "", r.
      split; [done|]. split; [done|]. intros; simpl; lia.
    + left. split; [done|]. intros pre post H.
      destruct pre; [|done]. simpl in H.
      assert (Str.is_prefix needle "" = true) by (apply is_prefix_spec; by exists post).
      congruence.
  - destruct (Str.is_prefix needle (String c hay)) eqn:Hp.
    + right. apply is_prefix_spec in Hp as [r Hr]. exists "", r.
      split; [done|]. split; [done|]. intros; simpl; lia.
    + assert (∀ post, String c hay ≠ needle +:+ post) as Hnot.
      { intros post H.
        assert (Str.is_prefix needle (String c hay) = true)
          by (apply is_prefix_spec; by exists post).
        congruence. }
      destruct IH as [[Hf Habs]|(pre & post & Hhay & Hf & Hmin)].
      * left. rewrite Hf. split; [done|]. intros [|c' pre] post H.
        { by apply (Hnot post). }
        injection H as _ H. by apply (Habs pre post).
      * right. exists (String c pre), post. rewrite Hf.
        rewrite decide_False by lia. split; [by rewrite Hhay|].
        split; [simpl; lia|]. intros [|c' pre'] post' H.
        { by destruct (Hnot post'). }
        injection H as _ H. simpl. apply Hmin in H. lia.
Qed.

Lemma contains_find needle hay :
  Str.contains needle hay = true ↔ 0 ≤ Str.find needle hay.
Proof.
  induction hay as [|c hay IH]; simpl.
  - destruct (Str.is_prefix needle ""); simpl; [done|]. split; [done|lia].
  - destruct (Str.is_prefix needle (String c hay)); simpl; [done|].
    rewrite IH. case_decide; lia.
Qed.

End Strings.

(** X5.  The path the script appends to [sys.path] is the working
    directory up to, and without, the first occurrence of [PaGraph] in it:
    no occurrence starts earlier.  When [PaGraph] does not occur in the
    working directory, it is the working directory itself. *)
Theorem module_path_cuts_at_first_occurrence (cwd : string) :
  (∃ post,
     cwd = module_path cwd +:+ module_name +:+ post
     ∧ ∀ pre' post', cwd = pre' +:+ module_name +:+ post' →
         (String.length (module_path cwd) ≤ String.length pre')%nat)
  ∨ (module_path cwd = cwd
     ∧ ∀ pre post, cwd ≠ pre +:+ module_name +:+ post).
Proof.
  unfold module_path.
  destruct (find_spec module_name cwd)
    as [[Hf Habs]|(pre & post & Hcwd & Hf & Hmin)].
  - right. destruct (Str.contains module_name cwd) eqn:Hc; [|done].
    apply contains_find in Hc. lia.
  - left. assert (Str.contains module_name cwd = true) as ->
      by (apply contains_find; lia).
    assert (Str.slice_to (Str.find module_name cwd) cwd = pre) as ->.
    { unfold Str.slice_to. rewrite Hf, decide_False by lia.
      rewrite Z.min_l.
      - rewrite Nat2Z.id. rewrite Hcwd at 1. apply take_app_length.
      - rewrite Hcwd. rewrite !length_app_str. lia. }
    by exists post.
Qed.

Example module_path_sample :
  module_path "/home/user/PaGraph/examples/PaGraph" = "/home/user/".
Proof. reflexivity. Qed.

Example module_path_elsewhere : module_path "/tmp/run" = "/tmp/run".
Proof. reflexivity. Qed.

(** ** The shape of a run that returns *)

Section Shape.

Context (w : World).

Lemma for_each_unrolled_at {A L : Type} (body : L → A → M L)
    (P : list event → L → A → list event → L → Prop) l acc s s' acc' :
  (∀ acc x s s' acc', body acc x s = (s', Ok acc') →
     ∃ tr, st_trace s' = st_trace s ++ tr ∧ P (st_trace s) acc x tr acc') →
  for_each body l acc s = (s', Ok acc') →
  ∃ tr, st_trace s' = st_trace s ++ tr
        ∧ unrolled_at P (st_trace s) acc l tr acc'.
Proof.
  intros Hbody. revert acc s.
  induction l as [|x l IH]; intros acc s H; simpl in H.
  - apply ret_Ok in H as [-> ->]. exists []. by rewrite app_nil_r.
  - apply bind_Ok in H as (s1 & acc1 & Hx & H).
    apply Hbody in Hx as (tr1 & Htr1 & HP).
    apply IH in H as (tr2 & Htr2 & Hrest).
    exists (tr1 ++ tr2). split; [by rewrite Htr2, Htr1, app_assoc|].
    simpl. exists tr1, acc1, tr2. by rewrite <- Htr1.
Qed.

Lemma for_flows_unrolled_at {L : Type} (body : L → NodeFlow → M L)
    (P : list event → L → NodeFlow → list event → L → Prop) flows acc s s' acc' :
  (∀ acc nf s s' acc',
     body acc nf (log (SamplerNext (Some nf)) s) = (s', Ok acc') →
     ∃ tr, st_trace s' = st_trace s ++ SamplerNext (Some nf) :: tr
           ∧ P (st_trace s) acc nf (SamplerNext (Some nf) :: tr) acc') →
  for_flows w body flows acc s = (s', Ok acc') →
  ∃ tr, st_trace s' = st_trace s ++ tr ++ [SamplerNext None]
        ∧ unrolled_at P (st_trace s) acc flows tr acc'.
Proof.
  intros Hbody. revert acc s.
  induction flows as [|nf flows IH]; intros acc s H; simpl in H.
  - run_inv. by exists [].
  - apply bind_Ok in H as (s0 & u & Hnext & H). apply ext_Ok in Hnext as ->.
    apply bind_Ok in H as (s1 & acc1 & Hx & H).
    apply Hbody in Hx as (tr1 & Htr1 & HP).
    apply IH in H as (tr2 & Htr2 & Hrest).
    exists ((SamplerNext (Some nf) :: tr1) ++ tr2). split.
    + rewrite Htr2, Htr1. by rewrite <- !app_assoc.
    + simpl. exists (SamplerNext (Some nf) :: tr1), acc1, tr2.
      by rewrite <- Htr1.
Qed.

Lemma unrolled_at_unrolled {A L : Type}
    (P : list event → L → A → list event → L → Prop)
    (Q : L → A → list event → L → Prop) h acc l tr acc' :
  (∀ h acc x tr acc', P h acc x tr acc' → Q acc x tr acc') →
  unrolled_at P h acc l tr acc' → unrolled Q acc l tr acc'.
Proof.
  intros HPQ. revert h acc tr.
  induction l as [|x l IH]; intros h acc tr H; simpl in *; [done|].
  destruct H as (tr1 & acc1 & tr2 & -> & H1 & H2).
  exists tr1, acc1, tr2. split; [done|]. split; [by eapply HPQ|by eapply IH].
Qed.

Lemma train_step_timed rank labels epoch acc nf s s' acc' :
  train_step w rank labels epoch acc nf (log (SamplerNext (Some nf)) s)
  = (s', Ok acc') →
  ∃ tr, st_trace s' = st_trace s ++ SamplerNext (Some nf) :: tr
        ∧ step_timed w rank labels epoch (st_trace s) acc nf
            (SamplerNext (Some nf) :: tr) acc'.
Proof.
  unfold train_step, step_timed, step_shape. destruct acc as [step batch_dur].
  intros H.
  apply bind_Ok in H as (s1 & t0 & H0 & H).
  unfold time_time in H0. run_inv.
  match goal with
  | H : tensor_getitem _ _ = Ok ?l |- _ => rename H into Hlabel
  end.
  match goal with
  | H : context [decide ?P] |- _ => destruct (decide P) as [Hd|Hd]
  end; run_inv; trace_simpl; eexists; (split; [reflexivity|]);
    cbn [fst snd]; (split; [|by rewrite <- ?app_assoc]);
    eexists _, _, _; cbn [fst snd];
    (split; [exact Hlabel|]); (split; [reflexivity|]); (split; [reflexivity|]).
  - rewrite decide_True by done. reflexivity.
  - rewrite decide_False by done. reflexivity.
  Unshelve. exact 0%float.
Qed.

Lemma epoch_timed_shape rank args labels train_nid h acc epoch tr acc' :
  epoch_timed w rank args labels train_nid h acc epoch tr acc' →
  epoch_shape w rank args labels train_nid acc epoch tr acc'.
Proof.
  intros (flows & trf & steps & -> & Hsteps & Hdur).
  exists flows, trf, steps. split; [done|]. split.
  - eapply unrolled_at_unrolled; [|exact Hsteps]. by intros ????? [? _].
  - destruct (decide (rank = 0)); [by eexists|done].
Qed.

Lemma train_epoch_timed rank args labels train_nid acc epoch s s' acc' :
  train_epoch w rank args labels train_nid acc epoch s = (s', Ok acc') →
  ∃ tr, st_trace s' = st_trace s ++ tr
        ∧ epoch_timed w rank args labels train_nid (st_trace s) acc epoch tr acc'.
Proof.
  unfold train_epoch, epoch_timed. destruct acc as [epoch_dur batch_dur].
  intros H.
  apply bind_Ok in H as (s1 & u1 & H1 & H). apply ext_Ok in H1 as ->.
  apply bind_Ok in H as (s2 & t0 & H2 & H).
  unfold time_time in H2. apply bind_Ok in H2 as (s2' & u2 & H2 & H2').
  apply ext_Ok in H2 as ->. apply ask_Ok in H2' as [-> ->].
  apply bind_Ok in H as (s3 & flows & Hs & H).
  apply neighbor_sampler_Ok in Hs as (Hs3 & _ & _).
  apply bind_Ok in H as (s4 & [steps batch_dur'] & Hflows & H).
  apply (for_flows_unrolled_at _ (step_timed w rank labels epoch)) in Hflows
    as (trf & Hs4 & Hf); [|apply train_step_timed].
  apply bind_Ok in H as (s5 & epoch_dur' & Hlog & H).
  apply bind_Ok in H as (s6 & u6 & Hsave & H).
  apply ret_Ok in H as [-> ->]. cbn [fst snd].
  cbn [log st_trace] in Hs3. rewrite <- !app_assoc in Hs3. cbn [app] in Hs3.
  rewrite Hs3 in Hs4, Hf.
  assert (∃ trl, st_trace s5 = st_trace s4 ++ trl
            ∧ trl = (if decide (rank = 0)
                     then [Time; Print (MsgEpoch (w_mean w (drop 2 epoch_dur')))]
                     else [])
            ∧ (if decide (rank = 0)
               then epoch_dur'
                    = epoch_dur
                      ++ [(w_time w (st_trace s4 ++ [Time])
                           - w_time w (st_trace s ++ [TrainMode ObjDDP; Time]))%float]
               else epoch_dur' = epoch_dur)) as (trl & Hs5 & Htrl & Hdur).
  { clear Hsave. destruct (decide (rank = 0)); run_inv.
    - eexists. trace_simpl. split; [reflexivity|]. done.
    - exists []. by rewrite app_nil_r. }
  assert (st_trace s6 = st_trace s5
            ++ (if decide ((epoch + 1) `mod` 5 = 0 ∧ rank = 0)
                then ckpt_events args (epoch + 1) else [])) as Hs6.
  { clear Hlog Hdur Htrl.
    destruct (decide ((epoch + 1) `mod` 5 = 0 ∧ rank = 0)); run_inv.
    - by trace_simpl.
    - by rewrite app_nil_r. }
  eexists. split.
  - rewrite Hs6, Hs5, Hs4. rewrite <- ?app_assoc. reflexivity.
  - exists flows, trf, steps. rewrite <- Htrl. split; [done|]. split; [done|].
    destruct (decide (rank = 0)); [|done].
    rewrite Hdur, Hs4. by rewrite <- ?app_assoc.
Qed.

(** The events of a run of the trainer that returns, with the durations. *)
Lemma trainer_timed rank world_size args backend s :
  returns (trainer w rank world_size args backend) s = Ok tt →
  ∃ ds labels trl acc',
    dataset args = Some ds
    ∧ build_labels (w_train_nid w ds rank) (w_train_labels w ds rank) = Ok labels
    ∧ events (trainer w rank world_size args backend) s
      = setup_trace w rank world_size args backend ds ++ trl
    ∧ unrolled_at (epoch_timed w rank args labels (w_train_nid w ds rank))
        (st_trace s ++ setup_trace w rank world_size args backend ds)
        ([], []) (range (n_epochs args)) trl acc'.
Proof.
  unfold returns. intros Hret.
  destruct (trainer w rank world_size args backend s) as [s' r] eqn:H.
  simpl in Hret. subst r. pose proof H as Hrun. unfold trainer in H.
  apply bind_Ok in H as (s1 & [labels train_nid] & Hsetup & H).
  apply setup_Ok in Hsetup as (ds & Hds & -> & Hlabels & Hs1).
  apply bind_Ok in H as (s2 & acc' & Hloop & H).
  apply ret_Ok in H as [-> _].
  apply (for_each_unrolled_at _
           (epoch_timed w rank args labels (w_train_nid w ds rank)))
    in Hloop as (trl & Hs2 & Hshape); [|apply train_epoch_timed].
  rewrite Hs1 in Hshape.
  exists ds, labels, trl, acc'. repeat split; try done.
  apply events_of_extension. rewrite Hrun. simpl.
  by rewrite Hs2, Hs1, <- app_assoc.
Qed.

(** The events of a run of the trainer that returns. *)
Lemma trainer_shape rank world_size args backend s :
  returns (trainer w rank world_size args backend) s = Ok tt →
  ∃ ds labels trl acc',
    dataset args = Some ds
    ∧ build_labels (w_train_nid w ds rank) (w_train_labels w ds rank) = Ok labels
    ∧ events (trainer w rank world_size args backend) s
      = setup_trace w rank world_size args backend ds ++ trl
    ∧ unrolled (epoch_shape w rank args labels (w_train_nid w ds rank))
        ([], []) (range (n_epochs args)) trl acc'.
Proof.
  intros Hret.
  destruct (trainer_timed rank world_size args backend s Hret)
    as (ds & labels & trl & acc' & Hds & Hlabels & Hev & Hshape).
  exists ds, labels, trl, acc'. repeat split; try done.
  eapply unrolled_at_unrolled; [|exact Hshape].
  intros ?????. apply epoch_timed_shape.
Qed.

End Shape.

(** Projections of unrolled loops. *)

Lemma unrolled_filter {A L : Type} (P : L → A → list event → L → Prop)
    (f : event → bool) (g : A → list event) acc l tr acc' :
  (∀ acc x tr acc', P acc x tr acc' → List.filter f tr = g x) →
  unrolled P acc l tr acc' → List.filter f tr = l ≫= g.
Proof.
  intros HP. revert acc tr.
  induction l as [|x l IH]; intros acc tr H; simpl in H.
  - by destruct H as [-> _].
  - destruct H as (tr1 & acc1 & tr2 & -> & H1 & H2).
    rewrite List.filter_app, (HP _ _ _ _ H1), (IH _ _ H2). done.
Qed.

Lemma unrolled_filter_ex {A L B : Type} (P : L → A → list event → L → Prop)
    (f : event → bool) (Q : B → Prop) (g : B → list event) acc l tr acc' :
  (∀ acc x tr acc', P acc x tr acc' →
     ∃ ys, Forall Q ys ∧ List.filter f tr = ys ≫= g) →
  unrolled P acc l tr acc' →
  ∃ ys, Forall Q ys ∧ List.filter f tr = ys ≫= g.
Proof.
  intros HP. revert acc tr.
  induction l as [|x l IH]; intros acc tr H; simpl in H.
  - destruct H as [-> _]. by exists [].
  - destruct H as (tr1 & acc1 & tr2 & -> & H1 & H2).
    destruct (HP _ _ _ _ H1) as (ys1 & HQ1 & Hf1).
    destruct (IH _ _ H2) as (ys2 & HQ2 & Hf2).
    exists (ys1 ++ ys2). split; [by apply Forall_app|].
    rewrite List.filter_app, Hf1, Hf2. by rewrite bind_app.
Qed.

(** ** Checkpoints, counted and ordered *)

Lemma step_shape_no_ckpt w rank labels epoch acc nf tr acc' :
  step_shape w rank labels epoch acc nf tr acc' →
  List.filter is_ckpt_event tr = [].
Proof.
  intros (label & d & loss & _ & _ & _ & ->).
  rewrite List.filter_app. by case_decide.
Qed.

Lemma bind_nil_const {A B : Type} (l : list A) : l ≫= (λ _, @nil B) = [].
Proof. induction l as [|x l IH]; [done|]. exact IH. Qed.

Lemma epoch_shape_ckpt w rank args labels train_nid acc epoch tr acc' :
  epoch_shape w rank args labels train_nid acc epoch tr acc' →
  List.filter is_ckpt_event tr
  = if decide ((epoch + 1) `mod` 5 = 0 ∧ rank = 0)
    then ckpt_events args (epoch + 1) else [].
Proof.
  intros (flows & trf & steps & -> & Hsteps & _).
  rewrite !List.filter_app.
  rewrite (unrolled_filter _ is_ckpt_event (λ _, []) _ _ _ _
             (step_shape_no_ckpt w rank labels epoch) Hsteps).
  rewrite bind_nil_const. simpl.
  by destruct (decide (rank = 0)); destruct (decide (_ ∧ _)).
Qed.

(** Of the epochs [0 .. N-1], those with [(epoch + 1) % 5 = 0] are the ones
    before the multiples [5, 10, ..] of five up to [N]. *)
Lemma every_fifth_epoch {B : Type} (h : Z → list B) (N : nat) :
  (Z.of_nat <$> seq 0 N)
    ≫= (λ e, if decide ((e + 1) `mod` 5 = 0) then h (e + 1) else [])
  = (Z.of_nat <$> seq 1 (N / 5)) ≫= (λ k, h (5 * k)).
Proof.
  induction N as [|N IH]; [done|].
  assert ((Z.of_nat N + 1) `mod` 5 = 0 ∧ (S N / 5 = S (N / 5))%nat
          ∨ (Z.of_nat N + 1) `mod` 5 ≠ 0 ∧ (S N / 5 = N / 5)%nat) as Hcase.
  { pose proof (Nat.div_mod_eq N 5) as HN.
    pose proof (Nat.mod_upper_bound N 5 ltac:(lia)) as HNm.
    pose proof (Nat.div_mod_eq (S N) 5) as HS.
    pose proof (Nat.mod_upper_bound (S N) 5 ltac:(lia)) as HSm.
    replace (Z.of_nat N + 1) with (Z.of_nat (S N)) by lia.
    change 5 with (Z.of_nat 5). rewrite <- Nat2Z.inj_mod.
    destruct (decide (S N `mod` 5 = 0)%nat) as [H0|H0]; [left|right];
      (split; [lia|lia]). }
  rewrite seq_S, fmap_app, bind_app, IH.
  destruct Hcase as [[Hmod ->]|[Hmod ->]].
  - rewrite (seq_S (N / 5)), fmap_app, bind_app. f_equal. simpl.
    rewrite decide_True by done. rewrite !app_nil_r. f_equal.
    pose proof (Nat.div_mod_eq N 5). pose proof (Nat.div_mod_eq (S N) 5).
    pose proof (Nat.mod_upper_bound N 5 ltac:(lia)).
    assert (S N `mod` 5 = 0)%nat.
    { apply Nat2Z.inj. rewrite Nat2Z.inj_mod.
      change (Z.of_nat 5) with 5. change (Z.of_nat 0) with 0.
      rewrite <- Hmod. f_equal. lia. }
    assert (S N / 5 = S (N / 5))%nat by lia.
    change (Nat.divmod N 4 0 4).1 with (N / 5)%nat. lia.
  - simpl. rewrite decide_False by done. by rewrite !app_nil_r.
Qed.

Lemma epoch_shape_marks w rank args labels train_nid acc epoch tr acc' :
  epoch_shape w rank args labels train_nid acc epoch tr acc' →
  List.filter is_epoch_mark tr
  = [TrainMode ObjDDP; SamplerNext None]
    ++ (if decide ((epoch + 1) `mod` 5 = 0 ∧ rank = 0)
        then ckpt_events args (epoch + 1) else []).
Proof.
  intros (flows & trf & steps & -> & Hsteps & _).
  rewrite !List.filter_app.
  rewrite (unrolled_filter _ is_epoch_mark (λ _, []) _ _ _ _
             (λ acc nf tr acc' (H : step_shape w rank labels epoch acc nf tr acc'),
                ltac:(destruct H as (label & d & loss & _ & _ & _ & ->);
                      rewrite List.filter_app; by case_decide)) Hsteps).
  rewrite bind_nil_const. simpl.
  by destruct (decide (rank = 0)); destruct (decide (_ ∧ _)).
Qed.

(** *** Announcement and write stay together *)

Lemma saves_announced_app tr1 tr2 :
  saves_announced tr1 → saves_announced tr2 → saves_announced (tr1 ++ tr2).
Proof.
  intros [Hp1 Hs1] [Hp2 Hs2]. split.
  - intros h p rest Heq.
    apply app_eq_inv in Heq as [(k & Htr1 & Hk)|(k & -> & Htr2)].
    + destruct k as [|e k]; simpl in Hk.
      * rewrite app_nil_r in Htr1. subst. by apply (Hp2 []).
      * injection Hk as <- ->.
        destruct (Hp1 _ _ _ Htr1) as [rest' ->]. by eexists.
    + by apply (Hp2 _ _ _ Htr2).
  - intros h o p rest Heq.
    apply app_eq_inv in Heq as [(k & Htr1 & Hk)|(k & -> & Htr2)].
    + destruct k as [|e k]; simpl in Hk.
      * rewrite app_nil_r in Htr1. subst.
        destruct (Hs2 [] _ _ _ eq_refl) as (_ & h' & Hh').
        by destruct h'.
      * injection Hk as <- ->. by apply (Hs1 _ _ _ _ Htr1).
    + destruct (Hs2 _ _ _ _ Htr2) as (-> & h' & ->).
      split; [done|]. exists (tr1 ++ h'). by rewrite app_assoc.
Qed.

Lemma saves_announced_none tr :
  List.filter is_ckpt_event tr = [] → saves_announced tr.
Proof.
  intros Hnone. split.
  - intros h p rest ->. rewrite List.filter_app in Hnone. simpl in Hnone.
    by apply app_eq_nil in Hnone as [_ ?].
  - intros h o p rest ->. rewrite List.filter_app in Hnone. simpl in Hnone.
    by apply app_eq_nil in Hnone as [_ ?].
Qed.

Lemma ckpt_events_announced args epoch1 :
  saves_announced (ckpt_events args epoch1).
Proof.
  unfold ckpt_events. split.
  - intros h p rest Heq.
    destruct h as [|? [|? [|? h]]]; simplify_eq/=. by eexists.
  - intros h o p rest Heq.
    destruct h as [|? [|? [|? h]]]; simplify_eq/=.
    split; [done|]. by exists [].
Qed.

Lemma unrolled_announced {A L : Type} (P : L → A → list event → L → Prop)
    acc l tr acc' :
  (∀ acc x tr acc', P acc x tr acc' → saves_announced tr) →
  unrolled P acc l tr acc' → saves_announced tr.
Proof.
  intros HP. revert acc tr.
  induction l as [|x l IH]; intros acc tr H; simpl in H.
  - destruct H as [-> _]. by apply saves_announced_none.
  - destruct H as (tr1 & acc1 & tr2 & -> & H1 & H2).
    apply saves_announced_app; [by eapply HP|by eapply IH].
Qed.

Lemma epoch_shape_announced w rank args labels train_nid acc epoch tr acc' :
  epoch_shape w rank args labels train_nid acc epoch tr acc' →
  saves_announced tr.
Proof.
  intros (flows & trf & steps & -> & Hsteps & _).
  apply saves_announced_app; [by apply saves_announced_none|].
  apply saves_announced_app.
  { eapply unrolled_announced; [|exact Hsteps].
    intros ???? H. apply saves_announced_none.
    by eapply step_shape_no_ckpt. }
  apply saves_announced_app; [by apply saves_announced_none|].
  apply saves_announced_app.
  { apply saves_announced_none. by destruct (decide (rank = 0)). }
  destruct (decide (_ ∧ _)); [apply ckpt_events_announced|].
  by apply saves_announced_none.
Qed.

(** X6.  In a run of the trainer that returns, the worker of rank 0
    announces and writes the checkpoints after 5, 10, 15, .. epochs, one
    after the other in that order and nothing else of the kind: as many as
    [n_epochs // 5], each to a path of its own.  Each epoch begins with
    [model.train()] and ends its pass over the node flows with the sampler
    found exhausted; the checkpoint after [k] epochs is announced and
    written after the [k]-th pass has ended and before the next epoch
    begins, and after no other pass.  Every announcement is directly
    followed by the write of the model to the announced path, and there is
    no write without its announcement directly before it. *)
Theorem checkpoints_every_fifth_epoch_in_order (w : World) (rank world_size : Z)
    (args : Args) (backend : string) (s : State) :
  returns (trainer w rank world_size args backend) s = Ok tt →
  rank = 0 →
  List.filter is_ckpt_event (events (trainer w rank world_size args backend) s)
  = (Z.of_nat <$> seq 1 (Z.to_nat (n_epochs args `div` 5)))
      ≫= (λ k, ckpt_events args (5 * k))
  ∧ NoDup ((λ k, ckpt_path args (5 * k))
             <$> (Z.of_nat <$> seq 1 (Z.to_nat (n_epochs args `div` 5))))
  ∧ List.filter is_epoch_mark (events (trainer w rank world_size args backend) s)
    = range (n_epochs args)
        ≫= (λ epoch, [TrainMode ObjDDP; SamplerNext None]
                     ++ (if decide ((epoch + 1) `mod` 5 = 0)
                         then ckpt_events args (epoch + 1) else []))
  ∧ saves_announced (events (trainer w rank world_size args backend) s).
Proof.
  intros Hret Hrank.
  destruct (trainer_shape w rank world_size args backend s Hret)
    as (ds & labels & trl & acc' & _ & _ & -> & Hshape).
  split; [|split; [|split]].
  - rewrite List.filter_app.
    rewrite (unrolled_filter _ is_ckpt_event _ _ _ _ _
               (epoch_shape_ckpt w rank args labels (w_train_nid w ds rank))
               Hshape).
    change (List.filter is_ckpt_event (setup_trace _ _ _ _ _ _)) with (@nil event).
    cbn [app]. unfold range.
    assert (Z.to_nat (n_epochs args `div` 5) = (Z.to_nat (n_epochs args) / 5)%nat)
      as ->.
    { destruct (decide (0 ≤ n_epochs args)).
      - apply Nat2Z.inj. rewrite Nat2Z.inj_div, !Z2Nat.id; try lia.
        by apply Z.div_pos.
      - assert (n_epochs args `div` 5 < 0) by (apply Z.div_lt_upper_bound; lia).
        replace (Z.to_nat (n_epochs args)) with 0%nat by lia.
        replace (Z.to_nat (n_epochs args `div` 5)) with 0%nat by lia. done. }
    rewrite <- (every_fifth_epoch (ckpt_events args)).
    apply list_bind_ext; [|done]. intros e.
    destruct (decide ((e + 1) `mod` 5 = 0 ∧ rank = 0)) as [[? _]|Hn];
      case_decide; try done. by destruct Hn.
  - apply NoDup_fmap_2_strong.
    + intros x y _ _ Hxy. apply ckpt_path_inj in Hxy. lia.
    + apply NoDup_fmap_2; [apply _|]. apply NoDup_seq.
  - rewrite List.filter_app.
    rewrite (unrolled_filter _ is_epoch_mark _ _ _ _ _
               (epoch_shape_marks w rank args labels (w_train_nid w ds rank))
               Hshape).
    change (List.filter is_epoch_mark (setup_trace _ _ _ _ _ _)) with (@nil event).
    cbn [app]. apply list_bind_ext; [|done]. intros e. f_equal.
    destruct (decide ((e + 1) `mod` 5 = 0 ∧ rank = 0)) as [[? _]|Hn];
      case_decide; try done. by destruct Hn.
  - apply saves_announced_app; [by apply saves_announced_none|].
    eapply unrolled_announced; [|exact Hshape].
    intros ????. apply epoch_shape_announced.
Qed.

Lemma checkpoints_every_fifth_epoch_in_order_witness :
  returns (trainer Sample.world 0 2 Sample.args "nccl") (Sample.start 42) = Ok tt
  ∧ List.filter is_epoch_mark
      (events (trainer Sample.world 0 2 Sample.args "nccl") (Sample.start 42))
    = [TrainMode ObjDDP; SamplerNext None; TrainMode ObjDDP; SamplerNext None;
       TrainMode ObjDDP; SamplerNext None; TrainMode ObjDDP; SamplerNext None;
       TrainMode ObjDDP; SamplerNext None;
       Print (MsgSaving "checkpoint/gcn-nssc_5");
       TorchSave ObjModel "checkpoint/gcn-nssc_5"]
  ∧ List.filter is_ckpt_event
      (events (trainer Sample.world 0 2 Sample.args "nccl") (Sample.start 42))
    = (Z.of_nat <$> seq 1 (Z.to_nat (n_epochs Sample.args `div` 5)))
        ≫= (λ k, ckpt_events Sample.args (5 * k))
  ∧ NoDup ((λ k, ckpt_path Sample.args (5 * k))
             <$> (Z.of_nat <$> seq 1 (Z.to_nat (n_epochs Sample.args `div` 5))))
  ∧ List.filter is_epoch_mark
      (events (trainer Sample.world 0 2 Sample.args "nccl") (Sample.start 42))
    = range (n_epochs Sample.args)
        ≫= (λ epoch, [TrainMode ObjDDP; SamplerNext None]
                     ++ (if decide ((epoch + 1) `mod` 5 = 0)
                         then ckpt_events Sample.args (epoch + 1) else []))
  ∧ saves_announced
      (events (trainer Sample.world 0 2 Sample.args "nccl") (Sample.start 42)).
Proof.
  split; [by vm_compute|]. split; [by vm_compute|].
  apply (checkpoints_every_fifth_epoch_in_order Sample.world 0 2 Sample.args
           "nccl" (Sample.start 42)); [by vm_compute|reflexivity].
Defined.

(** ** One sampler per epoch *)

Lemma step_shape_no_epoch_start w rank labels epoch acc nf tr acc' :
  step_shape w rank labels epoch acc nf tr acc' →
  List.filter is_epoch_start tr = [].
Proof.
  intros (label & d & loss & _ & _ & _ & ->).
  rewrite List.filter_app. by case_decide.
Qed.

Lemma epoch_shape_start w rank args labels train_nid acc epoch tr acc' :
  epoch_shape w rank args labels train_nid acc epoch tr acc' →
  List.filter is_epoch_start tr
  = [TrainMode ObjDDP;
     NeighborSampler (batch_size args) (num_neighbors args) (n_layers args)
       train_nid].
Proof.
  intros (flows & trf & steps & -> & Hsteps & _).
  rewrite !List.filter_app.
  rewrite (unrolled_filter _ is_epoch_start (λ _, []) _ _ _ _
             (step_shape_no_epoch_start w rank labels epoch) Hsteps).
  rewrite bind_nil_const. simpl.
  assert (num_hops args = n_layers args) as ->
    by (unfold num_hops; by destruct (preprocess args)).
  by destruct (decide (rank = 0)); destruct (decide (_ ∧ _)).
Qed.

(** X7.  In a run of the trainer that returns, every epoch, and nothing
    else, switches the wrapped model to training mode and then builds one
    neighbour sampler, each time over all training nodes of the partition
    and with the batch size, the number of neighbours and the number of
    layers of the arguments. *)
Theorem one_sampler_per_epoch (w : World) (rank world_size : Z)
    (args : Args) (backend : string) (s : State) (ds : string) :
  returns (trainer w rank world_size args backend) s = Ok tt →
  dataset args = Some ds →
  List.filter is_epoch_start (events (trainer w rank world_size args backend) s)
  = range (n_epochs args)
      ≫= (λ _, [TrainMode ObjDDP;
                NeighborSampler (batch_size args) (num_neighbors args)
                  (n_layers args) (w_train_nid w ds rank)]).
Proof.
  intros Hret Hds.
  destruct (trainer_shape w rank world_size args backend s Hret)
    as (ds' & labels & trl & acc' & Hds' & _ & -> & Hshape).
  rewrite Hds in Hds'. injection Hds' as <-.
  rewrite List.filter_app.
  rewrite (unrolled_filter _ is_epoch_start _ _ _ _ _
             (epoch_shape_start w rank args labels (w_train_nid w ds rank))
             Hshape).
  done.
Qed.

Lemma one_sampler_per_epoch_witness :
  returns (trainer Sample.world 1 2 Sample.args "nccl") (Sample.start 42) = Ok tt
  ∧ dataset Sample.args = Some "data/reddit"
  ∧ List.filter is_epoch_start
      (events (trainer Sample.world 1 2 Sample.args "nccl") (Sample.start 42))
    = range (n_epochs Sample.args)
        ≫= (λ _, [TrainMode ObjDDP;
                  NeighborSampler (batch_size Sample.args)
                    (num_neighbors Sample.args) (n_layers Sample.args)
                    (w_train_nid Sample.world "data/reddit" 1)]).
Proof.
  split; [by vm_compute|]. split; [reflexivity|].
  apply (one_sampler_per_epoch Sample.world 1 2 Sample.args "nccl"
           (Sample.start 42) "data/reddit"); [by vm_compute|reflexivity].
Defined.

(** ** The labels a mini-batch is trained against *)

Lemma step_shape_forward_loss w rank labels epoch acc nf tr acc' :
  step_shape w rank labels epoch acc nf tr acc' →
  ∃ bs, Forall (λ b, tensor_getitem labels (nf_seeds b.1) = Ok b.2) bs
        ∧ List.filter is_forward_or_loss tr = bs ≫= forward_and_loss.
Proof.
  intros (label & d & loss & Hlabel & _ & _ & ->).
  exists [(nf, label)]. split; [by constructor|].
  rewrite List.filter_app. by case_decide.
Qed.

Lemma epoch_shape_forward_loss w rank args labels train_nid acc epoch tr acc' :
  epoch_shape w rank args labels train_nid acc epoch tr acc' →
  ∃ bs, Forall (λ b, tensor_getitem labels (nf_seeds b.1) = Ok b.2) bs
        ∧ List.filter is_forward_or_loss tr = bs ≫= forward_and_loss.
Proof.
  intros (flows & trf & steps & -> & Hsteps & _).
  destruct (unrolled_filter_ex _ is_forward_or_loss _ forward_and_loss _ _ _ _
              (step_shape_forward_loss w rank labels epoch) Hsteps)
    as (bs & Hbs & Hf).
  exists bs. split; [done|].
  rewrite !List.filter_app, Hf. simpl.
  destruct (decide (rank = 0)); destruct (decide (_ ∧ _)); simpl;
    by rewrite app_nil_r.
Qed.

(** X8.  In a run of the trainer that returns, every forward pass on a
    node flow is followed by one loss computation, and nothing else runs a
    forward pass or computes a loss; the loss is computed against the
    entries of the partition's label vector at the seed nodes of that same
    node flow. *)
Theorem loss_against_labels_of_seeds (w : World) (rank world_size : Z)
    (args : Args) (backend : string) (s : State) (ds : string) :
  returns (trainer w rank world_size args backend) s = Ok tt →
  dataset args = Some ds →
  ∃ labels bs,
    build_labels (w_train_nid w ds rank) (w_train_labels w ds rank) = Ok labels
    ∧ Forall (λ b, tensor_getitem labels (nf_seeds b.1) = Ok b.2) bs
    ∧ List.filter is_forward_or_loss
        (events (trainer w rank world_size args backend) s)
      = bs ≫= forward_and_loss.
Proof.
  intros Hret Hds.
  destruct (trainer_shape w rank world_size args backend s Hret)
    as (ds' & labels & trl & acc' & Hds' & Hlabels & -> & Hshape).
  rewrite Hds in Hds'. injection Hds' as <-.
  destruct (unrolled_filter_ex _ is_forward_or_loss _ forward_and_loss _ _ _ _
              (epoch_shape_forward_loss w rank args labels (w_train_nid w ds rank))
              Hshape) as (bs & Hbs & Hf).
  exists labels, bs. split; [done|]. split; [done|].
  by rewrite List.filter_app, Hf.
Qed.

Lemma loss_against_labels_of_seeds_witness :
  returns (trainer Sample.world 1 2 Sample.args1 "nccl") (Sample.start 42) = Ok tt
  ∧ dataset Sample.args1 = Some "data/reddit"
  ∧ ∃ labels bs,
      build_labels (w_train_nid Sample.world "data/reddit" 1)
        (w_train_labels Sample.world "data/reddit" 1) = Ok labels
      ∧ Forall (λ b, tensor_getitem labels (nf_seeds b.1) = Ok b.2) bs
      ∧ List.filter is_forward_or_loss
          (events (trainer Sample.world 1 2 Sample.args1 "nccl") (Sample.start 42))
        = bs ≫= forward_and_loss.
Proof.
  split; [by vm_compute|]. split; [reflexivity|].
  apply (loss_against_labels_of_seeds Sample.world 1 2 Sample.args1 "nccl"
           (Sample.start 42) "data/reddit"); [by vm_compute|reflexivity].
Defined.

(** ** The lines of the log *)

Lemma unrolled_omap {A L B : Type} (P : L → A → list event → L → Prop)
    (f : event → option B) (g : A → list B) acc l tr acc' :
  (∀ acc x tr acc', P acc x tr acc' → omap f tr = g x) →
  unrolled P acc l tr acc' → omap f tr = l ≫= g.
Proof.
  intros HP. revert acc tr.
  induction l as [|x l IH]; intros acc tr H; simpl in H.
  - by destruct H as [-> _].
  - destruct H as (tr1 & acc1 & tr2 & -> & H1 & H2).
    rewrite omap_app, (HP _ _ _ _ H1), (IH _ _ H2). done.
Qed.

Lemma step_shape_no_epoch_line w rank labels epoch acc nf tr acc' :
  step_shape w rank labels epoch acc nf tr acc' →
  omap epoch_line_avg tr = [].
Proof.
  intros (label & d & loss & _ & _ & _ & ->).
  rewrite omap_app. by case_decide.
Qed.

Lemma epoch_shape_line w args labels train_nid acc epoch tr acc' :
  epoch_shape w 0 args labels train_nid acc epoch tr acc' →
  ∃ d, acc'.1 = acc.1 ++ [d]
       ∧ omap epoch_line_avg tr = [w_mean w (drop 2 acc'.1)].
Proof.
  intros (flows & trf & steps & -> & Hsteps & Hdur).
  rewrite decide_True in Hdur by done. destruct Hdur as [d Hd].
  exists d. split; [done|].
  rewrite !omap_app.
  rewrite (unrolled_omap _ epoch_line_avg (λ _, []) _ _ _ _
             (step_shape_no_epoch_line w 0 labels epoch) Hsteps).
  rewrite bind_nil_const. rewrite decide_True by done. simpl.
  by destruct (decide (_ ∧ _)).
Qed.

Lemma epochs_lines w args labels train_nid acc l tr acc' :
  unrolled (epoch_shape w 0 args labels train_nid) acc l tr acc' →
  ∃ durs,
    length durs = length l ∧ acc'.1 = acc.1 ++ durs
    ∧ omap epoch_line_avg tr
      = (λ i, w_mean w (drop 2 (acc.1 ++ take (S i) durs))) <$> seq 0 (length l).
Proof.
  revert acc tr. induction l as [|epoch l IH]; intros acc tr H; simpl in H.
  - destruct H as [-> ->]. exists []. by rewrite app_nil_r.
  - destruct H as (tr1 & acc1 & tr2 & -> & H1 & H2).
    apply epoch_shape_line in H1 as (d & Hacc1 & Hline).
    apply IH in H2 as (durs & Hlen & Hacc' & Hlines).
    exists (d :: durs). split; [simpl; by rewrite Hlen|].
    split; [by rewrite Hacc', Hacc1, <- app_assoc|].
    rewrite omap_app, Hline, Hlines, Hacc1. simpl.
    rewrite take_0. f_equal.
    rewrite <- fmap_S_seq, <- list_fmap_compose.
    apply list_fmap_ext. intros _ i _. simpl. by rewrite <- app_assoc.
Qed.

(** *** Reading the clock off the trace *)

Lemma durations_cons_other w starts stops h prev start e tr :
  e ≠ Time →
  durations w starts stops h prev start (e :: tr)
  = durations w starts stops (h ++ [e]) (Some e) start tr.
Proof. by destruct e. Qed.

(** A stretch without a call of the clock measures nothing. *)
Lemma durations_app_silent w starts stops h prev start tr1 tr2 :
  Forall (λ e, e ≠ Time) tr1 →
  ∃ prev', durations w starts stops h prev start (tr1 ++ tr2)
           = durations w starts stops (h ++ tr1) prev' start tr2.
Proof.
  intros Hsilent. revert h prev.
  induction Hsilent as [|e tr1 He _ IH]; intros h prev.
  - exists prev. by rewrite app_nil_r.
  - destruct (IH (h ++ [e]) (Some e)) as [prev' Hprev'].
    exists prev'. simpl app. rewrite durations_cons_other by done.
    by rewrite Hprev', <- app_assoc.
Qed.

Lemma setup_trace_silent w rank world_size args backend ds :
  Forall (λ e, e ≠ Time) (setup_trace w rank world_size args backend ds).
Proof. unfold setup_trace, init_trace. by repeat constructor. Qed.

Ltac replay :=
  cbn [durations from_option is_train_mode is_exhausted is_yield
       is_optimizer_step app].

Ltac same_history := rewrite ?app_nil_r, <- ?app_assoc; cbn [app]; done.

(** The pass over the node flows does not start or end an epoch. *)
Lemma steps_measure_no_epoch w rank labels epoch h acc flows trf acc' :
  unrolled_at (step_timed w rank labels epoch) h acc flows trf acc' →
  ∀ h0 prev start tail,
    durations w is_train_mode is_exhausted h0 prev start
      (trf ++ SamplerNext None :: tail)
    = durations w is_train_mode is_exhausted (h0 ++ trf ++ [SamplerNext None])
        (Some (SamplerNext None)) start tail.
Proof.
  revert h acc trf. induction flows as [|nf flows IH]; intros h acc trf H;
    cbn [unrolled_at] in H; intros h0 prev start tail.
  - destruct H as [-> _]. by replay.
  - destruct H as (tr1 & acc1 & tr2 & -> & [Hshape _] & H2).
    destruct Hshape as (label & d & loss & _ & _ & _ & ->).
    rewrite <- !app_assoc. replay.
    destruct (decide (rank = 0 ∧ acc1.1 `mod` 20 = 0)); replay;
      rewrite (IH _ _ _ H2); f_equal; same_history.
Qed.

(** The epochs of the worker of rank 0, measured off the trace, are the
    durations the script appends. *)
Lemma epochs_measured w args labels train_nid h acc l trl acc' :
  unrolled_at (epoch_timed w 0 args labels train_nid) h acc l trl acc' →
  ∃ new, acc'.1 = acc.1 ++ new
         ∧ ∀ prev start,
             durations w is_train_mode is_exhausted h prev start trl = new.
Proof.
  revert h acc trl. induction l as [|epoch l IH]; intros h acc trl H;
    cbn [unrolled_at] in H.
  - destruct H as [-> ->]. exists []. by rewrite app_nil_r.
  - destruct H as (tr1 & acc1 & tr2 & -> & H1 & H2).
    destruct H1 as (flows & trf & steps & Htr1 & Hsteps & Hdur).
    rewrite decide_True in Hdur by done. rewrite decide_True in Htr1 by done.
    apply IH in H2 as (new & Hacc' & Hnew).
    eexists (_ :: new). split.
    { rewrite Hacc', Hdur, <- app_assoc. reflexivity. }
    intros prev start. subst tr1. rewrite <- !app_assoc. replay.
    rewrite (steps_measure_no_epoch _ _ _ _ _ _ _ _ _ Hsteps). replay.
    f_equal.
    { do 2 f_equal; same_history. }
    destruct (decide ((epoch + 1) `mod` 5 = 0 ∧ 0 = 0)); replay;
      match goal with
      | |- durations _ _ _ _ ?p ?st _ = _ => rewrite <- (Hnew p st)
      end; f_equal; same_history.
Qed.

(** X9.  In a run of the trainer that returns, the worker of rank 0 prints
    one epoch-time line per epoch.  The trace shows one epoch duration per
    epoch: the reading of the clock after the pass over the node flows
    minus the reading after [model.train()].  The line after epoch [i]
    (from 0) reports the mean of the first [i + 1] of these durations
    without the first two, so the first two lines report the mean of no
    duration at all. *)
Theorem epoch_lines_skip_two_durations (w : World) (world_size : Z)
    (args : Args) (backend : string) (s : State) :
  returns (trainer w 0 world_size args backend) s = Ok tt →
  length (epoch_durations w (st_trace s)
            (events (trainer w 0 world_size args backend) s))
  = Z.to_nat (n_epochs args)
  ∧ omap epoch_line_avg (events (trainer w 0 world_size args backend) s)
    = (λ i, w_mean w
              (drop 2 (take (S i)
                         (epoch_durations w (st_trace s)
                            (events (trainer w 0 world_size args backend) s)))))
        <$> seq 0 (Z.to_nat (n_epochs args))
  ∧ ∀ i, (i < 2)%nat → (i < Z.to_nat (n_epochs args))%nat →
      omap epoch_line_avg (events (trainer w 0 world_size args backend) s) !! i
      = Some (w_mean w []).
Proof.
  intros Hret.
  destruct (trainer_timed w 0 world_size args backend s Hret)
    as (ds & labels & trl & acc' & _ & _ & -> & Htimed).
  pose proof (epochs_measured _ _ _ _ _ _ _ _ _ Htimed) as (new & Hacc & Hnew).
  assert (unrolled (epoch_shape w 0 args labels (w_train_nid w ds 0))
            ([], []) (range (n_epochs args)) trl acc') as Hshape.
  { eapply unrolled_at_unrolled; [|exact Htimed].
    intros ?????. apply epoch_timed_shape. }
  apply epochs_lines in Hshape as (durs & Hlen & Hacc2 & Hlines).
  assert (durs = new) as -> by (simpl in Hacc, Hacc2; congruence).
  unfold range in Hlen, Hlines. rewrite length_fmap, length_seq in Hlen, Hlines.
  assert (epoch_durations w (st_trace s)
            (setup_trace w 0 world_size args backend ds ++ trl) = new) as ->.
  { unfold epoch_durations.
    destruct (durations_app_silent w is_train_mode is_exhausted (st_trace s)
                None 0%float _ trl
                (setup_trace_silent w 0 world_size args backend ds))
      as [prev' ->].
    apply Hnew. }
  assert (omap epoch_line_avg
            (setup_trace w 0 world_size args backend ds ++ trl)
          = (λ i, w_mean w (drop 2 (take (S i) new)))
              <$> seq 0 (Z.to_nat (n_epochs args))) as Hev.
  { rewrite omap_app, Hlines. done. }
  split; [done|]. split; [done|].
  intros i Hi Hn. rewrite Hev, list_lookup_fmap, lookup_seq_lt by done.
  simpl. do 2 f_equal. apply drop_ge. rewrite length_take. lia.
Qed.

Lemma epoch_lines_skip_two_durations_witness :
  returns (trainer Sample.world_ticking 0 2 Sample.args "nccl") (Sample.start 42)
  = Ok tt
  ∧ epoch_durations Sample.world_ticking (st_trace (Sample.start 42))
      (events (trainer Sample.world_ticking 0 2 Sample.args "nccl")
         (Sample.start 42))
    = [36; 36; 36; 36; 36]%float
  ∧ omap epoch_line_avg
      (events (trainer Sample.world_ticking 0 2 Sample.args "nccl")
         (Sample.start 42))
    = (λ i, w_mean Sample.world_ticking
              (drop 2 (take (S i)
                         (epoch_durations Sample.world_ticking
                            (st_trace (Sample.start 42))
                            (events (trainer Sample.world_ticking 0 2
                                       Sample.args "nccl")
                               (Sample.start 42))))))
        <$> seq 0 (Z.to_nat (n_epochs Sample.args)).
Proof.
  split; [by vm_compute|]. split; [by vm_compute|].
  apply (epoch_lines_skip_two_durations Sample.world_ticking 2 Sample.args "nccl"
           (Sample.start 42)).
  by vm_compute.
Defined.

Lemma step_shape_batch_line w labels epoch acc nf tr acc' :
  step_shape w 0 labels epoch acc nf tr acc' →
  acc'.1 = acc.1 + 1
  ∧ omap batch_line_step tr
    = (if decide (acc'.1 `mod` 20 = 0) then [(epoch + 1, acc'.1)] else [])
  ∧ List.filter loop_event tr = step_pattern nf.
Proof.
  intros (label & d & loss & _ & Hstep & _ & ->).
  split; [done|]. rewrite omap_app, List.filter_app.
  destruct (decide (0 = 0 ∧ acc'.1 `mod` 20 = 0)) as [[_ H]|H].
  - by rewrite decide_True.
  - rewrite decide_False by (intros ?; by apply H). done.
Qed.

Lemma steps_batch_lines w labels epoch acc flows tr acc' :
  unrolled (step_shape w 0 labels epoch) acc flows tr acc' →
  omap batch_line_step tr
  = (λ step, (epoch + 1, step))
      <$> filter (λ step, step `mod` 20 = 0)
            ((λ i : nat, acc.1 + Z.of_nat i) <$> seq 1 (length flows))
  ∧ List.filter loop_event tr = flows ≫= step_pattern.
Proof.
  revert acc tr. induction flows as [|nf flows IH]; intros acc tr H; simpl in H.
  - by destruct H as [-> _].
  - destruct H as (tr1 & acc1 & tr2 & -> & H1 & H2).
    apply step_shape_batch_line in H1 as (Hacc1 & Hline & Hloop).
    apply IH in H2 as (Hlines & Hloops).
    split.
    + rewrite omap_app, Hline, Hlines. simpl length. cbn [seq fmap list_fmap].
      rewrite filter_cons. rewrite <- (fmap_S_seq 1), <- list_fmap_compose.
      replace (acc.1 + Z.of_nat 1) with acc1.1 by lia.
      assert ((λ i : nat, acc1.1 + Z.of_nat i) <$> seq 1 (length flows)
              = ((λ i : nat, acc.1 + Z.of_nat i) ∘ S) <$> seq 1 (length flows))
        as ->.
      { apply list_fmap_ext. intros _ i _. simpl. lia. }
      by case_decide.
    + rewrite List.filter_app, Hloop, Hloops. done.
Qed.

Lemma epoch_shape_batch_lines w args labels train_nid acc epoch tr acc' :
  epoch_shape w 0 args labels train_nid acc epoch tr acc' →
  ∃ flows,
    omap batch_line_step tr = batch_lines (epoch + 1) (length flows)
    ∧ List.filter loop_event tr = epoch_pattern flows.
Proof.
  intros (flows & trf & steps & -> & Hsteps & _).
  apply steps_batch_lines in Hsteps as [Hlines Hloop].
  exists flows. rewrite !omap_app, !List.filter_app, Hlines, Hloop.
  rewrite decide_True by done. simpl. split.
  - unfold batch_lines. destruct (decide (_ ∧ _)); simpl; by rewrite app_nil_r.
  - unfold epoch_pattern. by destruct (decide (_ ∧ _)).
Qed.

Lemma epochs_batch_lines w args labels train_nid acc l tr acc' :
  unrolled (epoch_shape w 0 args labels train_nid) acc l tr acc' →
  ∃ fss : list (list NodeFlow),
    length fss = length l
    ∧ List.filter loop_event tr = fss ≫= epoch_pattern
    ∧ omap batch_line_step tr
      = concat (zip_with (λ epoch fs, batch_lines (epoch + 1) (length fs)) l fss).
Proof.
  revert acc tr. induction l as [|epoch l IH]; intros acc tr H; simpl in H.
  - destruct H as [-> _]. by exists [].
  - destruct H as (tr1 & acc1 & tr2 & -> & H1 & H2).
    apply epoch_shape_batch_lines in H1 as (flows & Hlines & Hloop).
    apply IH in H2 as (fss & Hlen & Hloops & Hrest).
    exists (flows :: fss). split; [simpl; by rewrite Hlen|]. split.
    + rewrite List.filter_app, Hloop, Hloops. done.
    + rewrite omap_app, Hlines, Hrest. done.
Qed.

(** X10.  In a run of the trainer that returns, the worker of rank 0 logs
    the loss in every epoch at the steps 20, 40, .. up to the number of
    node flows the sampler yielded in that epoch, in that order, with the
    number of the epoch counted from 1, and at no other step: the step
    counter starts again with every epoch. *)
Theorem loss_lines_every_20_steps (w : World) (world_size : Z)
    (args : Args) (backend : string) (s : State) :
  returns (trainer w 0 world_size args backend) s = Ok tt →
  ∃ fss : list (list NodeFlow),
    length fss = Z.to_nat (n_epochs args)
    ∧ List.filter loop_event (events (trainer w 0 world_size args backend) s)
      = fss ≫= epoch_pattern
    ∧ omap batch_line_step (events (trainer w 0 world_size args backend) s)
      = concat (zip_with (λ epoch fs, batch_lines (epoch + 1) (length fs))
                  (range (n_epochs args)) fss).
Proof.
  intros Hret.
  destruct (trainer_shape w 0 world_size args backend s Hret)
    as (ds & labels & trl & acc' & _ & _ & -> & Hshape).
  apply epochs_batch_lines in Hshape as (fss & Hlen & Hloop & Hlines).
  exists fss. split; [|split].
  - rewrite Hlen. unfold range. by rewrite length_fmap, length_seq.
  - by rewrite List.filter_app, Hloop.
  - by rewrite omap_app, Hlines.
Qed.

Lemma loss_lines_every_20_steps_witness :
  returns (trainer Sample.world20 0 2 Sample.args20 "nccl") (Sample.start 42)
  = Ok tt
  ∧ ∃ fss : list (list NodeFlow),
      length fss = Z.to_nat (n_epochs Sample.args20)
      ∧ List.filter loop_event
          (events (trainer Sample.world20 0 2 Sample.args20 "nccl")
             (Sample.start 42))
        = fss ≫= epoch_pattern
      ∧ omap batch_line_step
          (events (trainer Sample.world20 0 2 Sample.args20 "nccl")
             (Sample.start 42))
        = concat (zip_with (λ epoch fs, batch_lines (epoch + 1) (length fs))
                    (range (n_epochs Sample.args20)) fss).
Proof.
  split; [by vm_compute|].
  apply (loss_lines_every_20_steps Sample.world20 2 Sample.args20 "nccl"
           (Sample.start 42)).
  by vm_compute.
Defined.

(** ** How a run begins *)

Lemma obeys_growth_ext (w : World) (e : event) :
  obeys (emits_only (λ _, True)) (ext w e).
Proof.
  intros s. exists [e]. split; [done|]. by repeat constructor.
Qed.

(** The events of two computations in a row. *)
Lemma events_bind {A B : Type} (m : M A) (f : A → M B) (s : State) :
  obeys (emits_only (λ _, True)) m →
  (∀ a, obeys (emits_only (λ _, True)) (f a)) →
  ∃ tr, events (m ≫= f) s = events m s ++ tr
        ∧ (∀ e, returns m s = Raise e →
             tr = [] ∧ returns (m ≫= f) s = Raise e).
Proof.
  intros Hm Hf. unfold events, returns. rewrite bind_unfold.
  destruct (Hm s) as (tr1 & Htr1 & _).
  destruct (m s) as [s1 [a|e]] eqn:Hms; simpl in *.
  - destruct (Hf a s1) as (tr2 & Htr2 & _).
    exists tr2. split; [|done].
    rewrite Htr2, Htr1, <- app_assoc, !drop_app_length. done.
  - exists []. split; [by rewrite app_nil_r|]. by intros ? [= <-].
Qed.

Lemma init_process_events (w : World) (rank world_size : Z) (backend : string)
    (s : State) :
  events (init_process w rank world_size backend) s
    `prefix_of` init_trace rank world_size backend
  ∧ (returns (init_process w rank world_size backend) s = Ok tt →
     events (init_process w rank world_size backend) s
     = init_trace rank world_size backend).
Proof.
  unfold events, returns, init_process, manual_seed, set_seed, ext, mbind, M_bind.
  cbn [log st_trace st_fs st_seed].
  repeat match goal with
         | |- context [w_fail w ?h ?e] => destruct (w_fail w h e); cbn
         end;
    rewrite <- ?app_assoc, drop_app_length; cbn;
    (split; [|done]); unfold init_trace;
    repeat first [ apply prefix_nil | apply prefix_cons | done ].
Qed.

Lemma obeys_growth_init (w : World) (rank world_size : Z) (backend : string) :
  obeys (emits_only (λ _, True)) (init_process w rank world_size backend).
Proof.
  apply (obeys_init_process w _ rank
           {| gpu := ""; dataset := None; feat_size := 0; n_classes := 0;
              dropout := 0%float; n_hidden := 0; n_layers := 0;
              preprocess := false; lr := 0%float; n_epochs := 0;
              batch_size := 0; weight_decay := 0%float; num_neighbors := 0;
              ckpt := "" |}).
  - intros. by apply emits_only_call.
  - intros. apply emits_only_seed.
Qed.

Lemma obeys_growth_after_setup (w : World) (rank : Z) (args : Args)
    (lt : list Z * list Z) :
  obeys (emits_only (λ _, True))
    (let '(labels, train_nid) := lt in
     for_each (train_epoch w rank args labels train_nid)
       (range (n_epochs args)) ([], []) ≫= λ _, mret tt).
Proof.
  destruct lt as [labels train_nid].
  apply obeys_bind; [apply _| |intros; apply obeys_ret; apply _].
  apply obeys_for_each; [apply _|]. intros acc epoch Hepoch.
  apply (obeys_train_epoch w _ rank args).
  - intros. by apply emits_only_call.
  - by apply range_bounds.
Qed.

(** X11.  Every run of the trainer begins with the calls of process
    initialization, in their order: the rendezvous address 127.0.0.1 and
    port 29501 are put into the environment, then the process group is
    joined, then the generator is seeded, then the launch line is printed.
    When one of these calls raises the run ends there, with that
    exception; otherwise all five are made before anything else. *)
Theorem run_begins_with_process_initialization (w : World)
    (rank world_size : Z) (args : Args) (backend : string) (s : State) :
  ∃ tr,
    events (trainer w rank world_size args backend) s
    = events (init_process w rank world_size backend) s ++ tr
    ∧ events (init_process w rank world_size backend) s
        `prefix_of` init_trace rank world_size backend
    ∧ (returns (init_process w rank world_size backend) s = Ok tt →
       events (init_process w rank world_size backend) s
       = init_trace rank world_size backend)
    ∧ (∀ e, returns (init_process w rank world_size backend) s = Raise e →
         tr = [] ∧ returns (trainer w rank world_size args backend) s = Raise e).
Proof.
  destruct (init_process_events w rank world_size backend s) as [Hpre Hfull].
  assert (∀ u : (),
    obeys (emits_only (λ _, True))
      (ds ← lift (match dataset args with
                  | Some d => Ok d
                  | None => Raise TypeError
                  end);
       ext w (CreateGraphFromStore (Path.basename ds) "shared_mem");;
       ext w (GetSubTrainGraph ds rank);;
       ext w MakeDGLGraph;;
       ext w (GetSubTrainNid ds rank);;
       ext w (GetSubTrainLabels ds rank);;
       labels ← lift (build_labels (w_train_nid w ds rank)
                        (w_train_labels w ds rank));
       ext w (Print MsgCaching);;
       ext w (GetFeatFromServer (w_t2fid w ds rank) "features");;
       ext w (TensorCuda rank);;
       ext w (GetFeatFromServer (w_t2fid w ds rank) "norm");;
       ext w (TensorCuda rank);;
       ext w (SetNdata "features");;
       ext w (SetNdata "norm");;
       ext w (Print MsgStart);;
       ext w (ConstructGCNSampling (feat_size args) (n_hidden args)
                (n_classes args) (n_layers args) (dropout args)
                (preprocess args));;
       ext w (ConstructGCNInfer (feat_size args) (n_hidden args)
                (n_classes args) (n_layers args));;
       ext w MakeLoss;;
       ext w (MakeAdam ObjModel (lr args) (weight_decay args));;
       ext w (ModuleCuda ObjModel rank);;
       ext w (ModuleCuda ObjInferModel rank);;
       ext w (WrapDDP ObjModel rank);;
       ext w (TorchDevice rank);;
       mret (labels, w_train_nid w ds rank))) as Hrest.
  { intros _. repeat structure_step (obeys_growth_ext w). }
  destruct (events_bind (init_process w rank world_size backend) _ s
              (obeys_growth_init w rank world_size backend) Hrest)
    as (tr1 & Hev1 & Hraise1).
  fold (setup w rank world_size args backend) in Hev1, Hraise1.
  assert (obeys (emits_only (λ _, True)) (setup w rank world_size args backend))
    as Hsetup.
  { apply obeys_bind; [apply _|apply obeys_growth_init|exact Hrest]. }
  destruct (events_bind (setup w rank world_size args backend) _ s Hsetup
              (obeys_growth_after_setup w rank args))
    as (tr2 & Hev2 & Hraise2).
  fold (trainer w rank world_size args backend) in Hev2, Hraise2.
  exists (tr1 ++ tr2). split; [by rewrite Hev2, Hev1, app_assoc|].
  split; [done|]. split; [done|].
  intros e He. destruct (Hraise1 e He) as [-> Hr1].
  destruct (Hraise2 e Hr1) as [-> Hr2]. done.
Qed.

(** X12.  Without a dataset argument (the default), a worker gets no
    further than process initialization: it makes the calls of process
    initialization and no other, and when those return it raises
    [TypeError]. *)
Theorem no_dataset_is_a_type_error (w : World) (rank world_size : Z)
    (args : Args) (backend : string) (s : State) :
  dataset args = None →
  events (trainer w rank world_size args backend) s
  = events (init_process w rank world_size backend) s
  ∧ (returns (init_process w rank world_size backend) s = Ok tt →
     returns (trainer w rank world_size args backend) s = Raise TypeError)
  ∧ (∀ e, returns (init_process w rank world_size backend) s = Raise e →
       returns (trainer w rank world_size args backend) s = Raise e).
Proof.
  intros Hds. unfold events, returns, trainer, setup.
  rewrite Hds, !bind_unfold.
  destruct (init_process w rank world_size backend s) as [s1 [[]|e]]; simpl.
  - split; [done|]. split; [done|]. by intros ? [=].
  - split; [done|]. split; [by intros [=]|]. by intros ? [= <-].
Qed.

Lemma no_dataset_is_a_type_error_witness :
  dataset Sample.args_no_dataset = None
  ∧ events (trainer Sample.world 0 2 Sample.args_no_dataset "nccl")
      (Sample.start 42)
    = events (init_process Sample.world 0 2 "nccl") (Sample.start 42)
  ∧ (returns (init_process Sample.world 0 2 "nccl") (Sample.start 42) = Ok tt →
     returns (trainer Sample.world 0 2 Sample.args_no_dataset "nccl")
       (Sample.start 42) = Raise TypeError)
  ∧ (∀ e, returns (init_process Sample.world 0 2 "nccl") (Sample.start 42)
          = Raise e →
       returns (trainer Sample.world 0 2 Sample.args_no_dataset "nccl")
         (Sample.start 42) = Raise e).
Proof.
  split; [reflexivity|].
  apply (no_dataset_is_a_type_error Sample.world 0 2 Sample.args_no_dataset
           "nccl" (Sample.start 42)).
  reflexivity.
Defined.

(** X13.  With an epoch count of zero or less the training loop has no
    iteration: the worker makes the calls of the setup and no other, and
    ends as the setup ends. *)
Theorem no_epochs_no_training (w : World) (rank world_size : Z)
    (args : Args) (backend : string) (s : State) :
  n_epochs args ≤ 0 →
  events (trainer w rank world_size args backend) s
  = events (setup w rank world_size args backend) s
  ∧ outcome (returns (trainer w rank world_size args backend) s)
    = outcome (returns (setup w rank world_size args backend) s).
Proof.
  intros Hn. unfold events, returns, trainer. rewrite bind_unfold.
  destruct (setup w rank world_size args backend s) as [s1 [[labels ids]|e]];
    simpl; [|done].
  unfold range. by replace (Z.to_nat (n_epochs args)) with 0%nat by lia.
Qed.

Lemma no_epochs_no_training_witness :
  n_epochs Sample.args_no_epochs ≤ 0
  ∧ events (trainer Sample.world 0 2 Sample.args_no_epochs "nccl")
      (Sample.start 42)
    = events (setup Sample.world 0 2 Sample.args_no_epochs "nccl")
        (Sample.start 42)
  ∧ outcome (returns (trainer Sample.world 0 2 Sample.args_no_epochs "nccl")
               (Sample.start 42))
    = outcome (returns (setup Sample.world 0 2 Sample.args_no_epochs "nccl")
                 (Sample.start 42)).
Proof.
  split; [by vm_compute|].
  apply (no_epochs_no_training Sample.world 0 2 Sample.args_no_epochs "nccl"
           (Sample.start 42)).
  by vm_compute.
Defined.

(** ** The worker's own rank and partition *)

Section OwnCalls.

Context (w : World) (rank : Z) (args : Args) (ds : string).
Hypothesis given : dataset args = Some ds.

Lemma own_ext e :
  own_call w rank args e → obeys (emits_only (own_call w rank args)) (ext w e).
Proof.
  intros He s. exists [e]. split; [done|]. by apply Forall_singleton.
Qed.

Lemma own_lift_Ok {A B : Type} (a : A) (f : A → M B) :
  obeys (emits_only (own_call w rank args)) (f a) →
  obeys (emits_only (own_call w rank args)) (lift (Ok a) ≫= f).
Proof. intros H s. rewrite bind_unfold. apply H. Qed.

Ltac own_side :=
  try done;
  repeat split; intros; simplify_eq/=; eauto.

Lemma own_time_time : obeys (emits_only (own_call w rank args)) (time_time w).
Proof. unfold time_time. repeat structure_step own_ext. own_side. Qed.

Lemma own_loss_item : obeys (emits_only (own_call w rank args)) (loss_item w).
Proof. unfold loss_item. repeat structure_step own_ext. own_side. Qed.

Lemma own_for_flows {L : Type} (body : L → NodeFlow → M L) flows (acc : L) :
  (∀ acc nf, obeys (emits_only (own_call w rank args)) (body acc nf)) →
  obeys (emits_only (own_call w rank args)) (for_flows w body flows acc).
Proof.
  intros Hbody. revert acc.
  induction flows as [|nf flows IH]; intros acc; simpl.
  - repeat structure_step own_ext. own_side.
  - repeat structure_step own_ext; [own_side|apply Hbody|apply IH].
Qed.

Lemma own_train_step labels epoch acc nf :
  obeys (emits_only (own_call w rank args))
    (train_step w rank labels epoch acc nf).
Proof.
  unfold train_step. destruct acc as [step batch_dur].
  repeat first [ apply own_time_time | apply own_loss_item
               | structure_step own_ext ]; own_side.
Qed.

Lemma own_train_epoch labels acc epoch :
  obeys (emits_only (own_call w rank args))
    (train_epoch w rank args labels (w_train_nid w ds rank) acc epoch).
Proof.
  unfold train_epoch, neighbor_sampler. destruct acc as [epoch_dur batch_dur].
  repeat first [ apply own_time_time
               | apply own_for_flows; intros; apply own_train_step
               | structure_step own_ext ];
    own_side.
Qed.

Lemma own_setup world_size backend :
  obeys (emits_only (own_call w rank args))
    (setup w rank world_size args backend).
Proof.
  unfold setup, init_process, manual_seed. rewrite given.
  repeat first [ apply own_lift_Ok | structure_step own_ext ]; own_side.
  intros s. apply emits_only_seed.
Qed.

Lemma own_trainer world_size backend :
  obeys (emits_only (own_call w rank args))
    (trainer w rank world_size args backend).
Proof.
  intros s. unfold trainer. rewrite bind_unfold.
  pose proof (own_setup world_size backend s) as Hsetup.
  destruct (setup w rank world_size args backend s)
    as [s1 [[labels train_nid]|e]] eqn:Hrun; simpl in *; [|done].
  apply setup_Ok in Hrun as (ds' & Hds' & -> & _).
  rewrite given in Hds'. injection Hds' as <-.
  eapply comp_trans; [exact Hsetup|].
  revert s1 Hsetup. intros s1 _.
  apply (obeys_bind (emits_only (own_call w rank args)));
    [|intros; apply obeys_ret; apply _].
  apply obeys_for_each; [apply _|]. intros acc epoch _.
  apply own_train_epoch.
Qed.

End OwnCalls.

(** X14.  In every run of the trainer, returning or not, each call that
    names a rank, a device or a process names the worker's own rank; each
    partition that is read is one of the dataset argument; the graph store
    is opened in shared memory under the base name of the dataset path;
    the only fields fetched from the feature server are "features" and
    "norm", for the feature ids of the worker's own partition; and every
    sampler is built over the training nodes of the worker's own
    partition. *)
Theorem calls_stay_with_own_rank_and_partition (w : World)
    (rank world_size : Z) (args : Args) (backend : string) (s : State) :
  Forall (own_call w rank args)
    (events (trainer w rank world_size args backend) s).
Proof.
  destruct (dataset args) as [ds|] eqn:Hds.
  - destruct (own_trainer w rank args ds Hds world_size backend s)
      as (tr & Htr & Hown).
    by rewrite (events_of_extension _ _ _ Htr).
  - assert (events (trainer w rank world_size args backend) s
            = events (init_process w rank world_size backend) s) as ->.
    { unfold events, trainer, setup. rewrite Hds, !bind_unfold.
      by destruct (init_process w rank world_size backend s) as [s1 [[]|e]]. }
    destruct (init_process_events w rank world_size backend s)
      as [[k Hpre] _].
    assert (Forall (own_call w rank args) (init_trace rank world_size backend))
      as Hinit.
    { unfold init_trace.
      repeat (apply Forall_cons; split;
              [repeat split; intros; by simplify_eq/=|]).
      apply Forall_nil_2. }
    rewrite Hpre in Hinit. by apply Forall_app in Hinit as [? _].
Qed.

(** ** When a run returns *)

(** X15.  When no library call raises, the generator's permutations are
    permutations and the batch size is positive, the trainer returns
    exactly when a dataset is given and the label vector of the partition
    can be built: these are the only two places where the script's own
    code raises.  (The sampler is the model of DGL's contract.) *)
Theorem quiet_run_returns_iff (w : World) (rank world_size : Z)
    (args : Args) (backend : string) (s : State) :
  world_quiet w → world_shuffles w → 0 < batch_size args →
  returns (trainer w rank world_size args backend) s = Ok tt
  ↔ ∃ ds labels,
      dataset args = Some ds
      ∧ build_labels (w_train_nid w ds rank) (w_train_labels w ds rank)
        = Ok labels.
Proof.
  intros Hquiet Hshuffles Hbatch. split.
  - intros Hret.
    destruct (trainer_shape w rank world_size args backend s Hret)
      as (ds & labels & _ & _ & Hds & Hlabels & _).
    by exists ds, labels.
  - intros (ds & labels & Hds & Hlabels).
    by apply (trainer_returns w Hquiet Hshuffles rank world_size args backend
                ds labels).
Qed.

Lemma quiet_run_returns_iff_witness :
  world_quiet Sample.world ∧ world_shuffles Sample.world
  ∧ 0 < batch_size Sample.args
  ∧ (returns (trainer Sample.world 0 2 Sample.args "nccl") (Sample.start 42)
     = Ok tt
     ↔ ∃ ds labels,
         dataset Sample.args = Some ds
         ∧ build_labels (w_train_nid Sample.world ds 0)
             (w_train_labels Sample.world ds 0) = Ok labels).
Proof.
  split; [done|]. split; [apply world_shuffles_sample|]. split; [done|].
  apply (quiet_run_returns_iff Sample.world 0 2 Sample.args "nccl"
           (Sample.start 42)); [done|apply world_shuffles_sample|done].
Defined.

(** ** The launcher and the file system *)


Lemma count_commas_app (a b : string) :
  Path.count_commas (a +:+ b)
  = (Path.count_commas a + Path.count_commas b)%nat.
Proof. induction a as [|c a IH]; simpl; [done|]. rewrite IH. lia. Qed.

Lemma count_commas_free (a : string) :
  comma_free a → Path.count_commas a = 0%nat.
Proof.
  unfold comma_free. induction a as [|c a IH]; simpl; [done|].
  intros Hfree. destruct (Ascii.eqb_spec c ","%char) as [->|Hc].
  - destruct Hfree. by left.
  - simpl. apply IH. intros Hin. apply Hfree. by right.
Qed.

Lemma split_len_concat (fields : list string) :
  fields ≠ [] → Forall comma_free fields →
  Path.split_len (String.concat "," fields) = Z.of_nat (length fields).
Proof.
  unfold Path.split_len. intros Hne Hfree. f_equal.
  induction Hfree as [|f fields Hf Hfree IH]; [done|].
  destruct fields as [|g fields].
  - simpl. by rewrite count_commas_free.
  - change (String.concat "," (f :: g :: fields))
      with (f +:+ "," +:+ String.concat "," (g :: fields)).
    rewrite !count_commas_app, count_commas_free by done.
    specialize (IH ltac:(done)). simpl in *. lia.
Qed.

(** X17.  The launcher starts one worker per field of the [--gpu]
    argument: when the argument is [n] fields without commas joined by
    commas (empty fields count too) every [mp.spawn] of the launcher is for
    [n] processes, and whatever the argument is, for at least one. *)
Theorem one_worker_per_gpu_field (w : World) (args : Args) (s : State)
    (fields : list string) (nprocs : Z) :
  fields ≠ [] → Forall comma_free fields →
  gpu args = String.concat "," fields →
  Spawn nprocs ∈ events (main w args) s →
  nprocs = Z.of_nat (length fields) ∧ 1 ≤ nprocs.
Proof.
  intros Hne Hfree Hgpu Hin.
  assert (nprocs = Path.split_len (gpu args)) as ->.
  { destruct (main_cases w args s)
      as [[H _]|[[H _]|[(H & _)|(H & _)]]];
      rewrite H in Hin; repeat (apply elem_of_cons in Hin as [Hin|Hin]);
      simplify_eq; try done; by apply elem_of_nil in Hin. }
  rewrite Hgpu, split_len_concat by done.
  destruct fields; [done|]. simpl. lia.
Qed.

Lemma one_worker_per_gpu_field_witness :
  ["0"; "1"] ≠ [] ∧ Forall comma_free ["0"; "1"]
  ∧ gpu Sample.args = String.concat "," ["0"; "1"]
  ∧ Spawn 2 ∈ events (main Sample.world Sample.args) (Sample.start 42)
  ∧ 2 = Z.of_nat (length ["0"; "1"]) ∧ 1 ≤ 2.
Proof.
  assert (Forall comma_free ["0"; "1"]) as Hfree.
  { repeat constructor; intros [H|[]]; discriminate H. }
  assert (Spawn 2 ∈ events (main Sample.world Sample.args) (Sample.start 42))
    as Hin.
  { vm_compute. do 3 right. left. }
  split; [done|]. split; [exact Hfree|]. split; [reflexivity|].
  split; [exact Hin|].
  apply (one_worker_per_gpu_field Sample.world Sample.args (Sample.start 42)
           ["0"; "1"] 2); [done|exact Hfree|reflexivity|exact Hin].
Defined.

(** ** The batch average of the loss lines *)









(** ** The name of the graph store *)

(** X19.  A worker opens the graph store in shared memory under the last
    component of the dataset path, in every run: with a dataset argument
    [dir/name], where [name] has no slash, every graph store opened is
    named [name].  A dataset path that ends in a slash therefore opens the
    store under the empty name. *)
Theorem graph_store_named_by_last_component (w : World) (rank world_size : Z)
    (args : Args) (backend : string) (s : State)
    (dir name opened store : string) :
  dataset args = Some (dir +:+ String Path.sep name) →
  slash_free name →
  CreateGraphFromStore opened store
    ∈ events (trainer w rank world_size args backend) s →
  opened = name ∧ store = "shared_mem".
Proof.
  intros Hds Hfree Hin.
  destruct (own_trainer w rank args _ Hds world_size backend s)
    as (tr & Htr & Hown).
  rewrite (events_of_extension _ _ _ Htr) in Hin.
  pose proof (proj1 (Forall_forall _ _) Hown _ Hin) as (_ & _ & Hopen & _).
  destruct (Hopen opened store eq_refl) as (-> & ds & Hds' & ->).
  rewrite Hds in Hds'. injection Hds' as <-.
  by rewrite basename_last_component.
Qed.

Lemma graph_store_named_by_last_component_witness :
  dataset Sample.args = Some ("data" +:+ String Path.sep "reddit")
  ∧ slash_free "reddit"
  ∧ CreateGraphFromStore "reddit" "shared_mem"
      ∈ events (trainer Sample.world 0 2 Sample.args "nccl") (Sample.start 42)
  ∧ "reddit" = "reddit" ∧ "shared_mem" = "shared_mem".
Proof.
  assert (slash_free "reddit") as Hfree.
  { intros H. repeat (destruct H as [H|H]; [discriminate H|]). destruct H. }
  assert (CreateGraphFromStore "reddit" "shared_mem"
            ∈ events (trainer Sample.world 0 2 Sample.args "nccl")
                (Sample.start 42)) as Hin.
  { vm_compute. do 5 right. left. }
  split; [reflexivity|]. split; [exact Hfree|]. split; [exact Hin|].
  apply (graph_store_named_by_last_component Sample.world 0 2 Sample.args
           "nccl" (Sample.start 42) "data" "reddit" "reddit" "shared_mem");
    [reflexivity|exact Hfree|exact Hin].
Defined.
